(** * OM Yashoda Dairy: cart, checkout, rate limiter and order endpoint

  A shallow embedding of the storefront's business logic
  (js/utils.js, js/config.js, js/products.js, js/cart.js,
  js/checkout.js and api/submit-order.js) together with the properties
  its specification states about it.

  Conventions of the embedding:
  - a JavaScript string is the list of its UTF-16 code units ([jsstring]);
    string literals of the source are written [lit "..."];
  - a JavaScript value is a [value]; numbers that travel in a JSON body are
    rationals (every finite double is one; JSON carries neither NaN nor
    infinities);
  - amounts of money, quantities and clock readings are integers ([Z]) in
    the cart and the checkout; the totals of the cart are also computed on
    JavaScript numbers as they are, IEEE 754 doubles ([Number] and
    [NumberCart]), and shown to agree with the integer ones as long as the
    amounts are non-negative integers up to 2^53 - 1;
  - an exception is an explicit [Throw] outcome, external calls take their
    result from an explicit environment, and every call that leaves the
    program is logged in a trace of events. *)

From Stdlib Require Import ZArith QArith List String Ascii Bool Lia DecimalString Sorted.
From Stdlib Require SpecFloat.
From stdpp Require Import base gmap strings list.

Close Scope Q_scope.
Open Scope Z_scope.

(** ** JavaScript values *)

Module JS.

(** A string is its sequence of UTF-16 code units. *)
Definition jsstring := list N.

Definition ch (a : ascii) : N := N_of_ascii a.

(** A literal of the source text. *)
Definition lit (s : string) : jsstring := map N_of_ascii (list_ascii_of_string s).
#[global] Arguments lit : simpl never.
#[global] Arguments ch : simpl never.

Definition dquote : N := 34%N.

#[warnings="-register-all"]
Inductive value :=
| VUndefined
| VNull
| VBool (b : bool)
| VNum (q : Q)
| VStr (s : jsstring)
| VArr (xs : list value)
| VObj (fields : list (jsstring * value)).

(** ToBoolean. *)
Definition truthy (v : value) : bool :=
  match v with
  | VUndefined | VNull => false
  | VBool b => b
  | VNum q => negb (Qeq_bool q 0%Q)
  | VStr s => negb (bool_decide (s = []))
  | VArr _ | VObj _ => true
  end.

Definition is_string (v : value) : bool :=
  match v with VStr _ => true | _ => false end.

Definition is_number (v : value) : bool :=
  match v with VNum _ => true | _ => false end.

Definition isArray (v : value) : bool :=
  match v with VArr _ => true | _ => false end.

(** Own property of an object: the first binding of the key. *)
Fixpoint lookup_field (k : jsstring) (fields : list (jsstring * value)) : value :=
  match fields with
  | [] => VUndefined
  | (k', v) :: rest => if bool_decide (k' = k) then v else lookup_field k rest
  end.

(** [v.k] for the property names the program reads (none of them is an
    index or a prototype member).  Reading a property of [null] or
    [undefined] raises a TypeError: [None]. *)
Definition get (v : value) (k : jsstring) : option value :=
  match v with
  | VUndefined | VNull => None
  | VObj fields => Some (lookup_field k fields)
  | VArr xs =>
      Some (if bool_decide (k = lit "length")
            then VNum (inject_Z (Z.of_nat (length xs))) else VUndefined)
  | VStr s =>
      Some (if bool_decide (k = lit "length")
            then VNum (inject_Z (Z.of_nat (length s))) else VUndefined)
  | VBool _ | VNum _ => Some VUndefined
  end.

(** Whether converting a value to a string throws, as inside a template
    literal and in [new Date(v)].  An object parsed from JSON converts through
    [Object.prototype.toString] unless it has a property [toString] of its
    own, which is then not a function and leaves no conversion; an array
    converts its elements; everything else converts. *)
Fixpoint to_string_throws (v : value) : bool :=
  match v with
  | VObj fields => existsb (λ kv, bool_decide (fst kv = lit "toString")) fields
  | VArr xs => existsb to_string_throws xs
  | _ => false
  end.

(** [a || b] *)
Definition or_else (a b : value) : value := if truthy a then a else b.

(** WhiteSpace and LineTerminator code units: what [\s] matches and what
    [String.prototype.trim] strips. *)
Definition is_space (c : N) : bool :=
  ((9 <=? c) && (c <=? 13) || (c =? 32) || (c =? 160) || (c =? 5760)
   || ((8192 <=? c) && (c <=? 8202)) || (c =? 8232) || (c =? 8233)
   || (c =? 8239) || (c =? 8287) || (c =? 12288) || (c =? 65279))%N.

Fixpoint trim_start (s : jsstring) : jsstring :=
  match s with
  | c :: rest => if is_space c then trim_start rest else s
  | [] => []
  end.

Definition trim (s : jsstring) : jsstring :=
  rev (trim_start (rev (trim_start s))).

End JS.
Import JS.

(** ** Regular expressions

    The two patterns of the configuration are anchored at both ends and use
    only character classes, concatenation, alternation, option and bounded
    or unbounded repetition; matching is decided by derivatives. *)

Module Regex.

Inductive regex :=
| Void
| Eps
| Class (p : N → bool)
| Seq (r1 r2 : regex)
| Alt (r1 r2 : regex)
| Star (r : regex).

Definition Chr (c : N) : regex := Class (N.eqb c).
Definition Opt (r : regex) : regex := Alt r Eps.
Definition Plus (r : regex) : regex := Seq r (Star r).

Fixpoint Str (s : jsstring) : regex :=
  match s with
  | [] => Eps
  | c :: rest => Seq (Chr c) (Str rest)
  end.

(** [r{n}] *)
Fixpoint Times (n : nat) (r : regex) : regex :=
  match n with
  | O => Eps
  | S n' => Seq r (Times n' r)
  end.

Fixpoint nullable (r : regex) : bool :=
  match r with
  | Void => false
  | Eps => true
  | Class _ => false
  | Seq r1 r2 => nullable r1 && nullable r2
  | Alt r1 r2 => nullable r1 || nullable r2
  | Star _ => true
  end.

Fixpoint deriv (c : N) (r : regex) : regex :=
  match r with
  | Void | Eps => Void
  | Class p => if p c then Eps else Void
  | Seq r1 r2 =>
      if nullable r1
      then Alt (Seq (deriv c r1) r2) (deriv c r2)
      else Seq (deriv c r1) r2
  | Alt r1 r2 => Alt (deriv c r1) (deriv c r2)
  | Star r1 => Seq (deriv c r1) (Star r1)
  end.

(** Whole-string match, as for a pattern written between [^] and [$]. *)
Fixpoint test (r : regex) (s : jsstring) : bool :=
  match s with
  | [] => nullable r
  | c :: rest => test (deriv c r) rest
  end.

End Regex.

(** ** js/config.js *)

Module Config.
Import Regex.

Record config := {
  DELIVERY_CHARGE : Z;
  MIN_ORDER_AMOUNT : Z;
  DELIVERY_SLOTS : list jsstring
}.

Definition CONFIG : config := {|
  DELIVERY_CHARGE := 0;
  MIN_ORDER_AMOUNT := 50;
  DELIVERY_SLOTS :=
    [ lit "Morning (7 AM - 10 AM)";
      lit "Afternoon (12 PM - 3 PM)";
      lit "Evening (5 PM - 8 PM)" ]
|}.

Definition digit (c : N) : bool := ((48 <=? c) && (c <=? 57))%N.

(** [^(\+91|91)?[6-9]\d{9}$] *)
Definition PHONE_REGEX : regex :=
  Seq (Opt (Alt (Str (lit "+91")) (Str (lit "91"))))
      (Seq (Class (λ c, (54 <=? c) && (c <=? 57))%N) (Times 9 (Class digit))).

(** The class [[^\s@]]. *)
Definition not_space_or_at (c : N) : bool := negb (is_space c || (c =? ch "@")%N).

(** [^[^\s@]+@[^\s@]+\.[^\s@]+$] *)
Definition EMAIL_REGEX : regex :=
  Seq (Plus (Class not_space_or_at))
      (Seq (Chr (ch "@"))
           (Seq (Plus (Class not_space_or_at))
                (Seq (Chr (ch ".")) (Plus (Class not_space_or_at))))).

End Config.

(** ** js/utils.js *)

Module Utils.

(** The character class of the pattern in [sanitizeInput]: ampersand,
    less-than, greater-than, double quote, single quote and slash. *)
Definition special (c : N) : bool :=
  existsb (N.eqb c) [ch "&"; ch "<"; ch ">"; dquote; ch "'"; ch "/"].

(** The [map] object of [sanitizeInput]. *)
Definition entity_map : list (N * jsstring) :=
  [ (ch "&", lit "&amp;");
    (ch "<", lit "&lt;");
    (ch ">", lit "&gt;");
    (dquote, lit "&quot;");
    (ch "'", lit "&#x27;");
    (ch "/", lit "&#x2F;") ].

(** [map[char]], a missing key reads [undefined] and is inserted as text. *)
Fixpoint entity (m : list (N * jsstring)) (c : N) : jsstring :=
  match m with
  | [] => lit "undefined"
  | (k, e) :: rest => if (k =? c)%N then e else entity rest c
  end.

(** [s.replace(re, f)] for a global one-character class [p]. *)
Fixpoint replace_class (p : N → bool) (f : N → jsstring) (s : jsstring) : jsstring :=
  match s with
  | [] => []
  | c :: rest => (if p c then f c else [c]) ++ replace_class p f rest
  end.

Definition sanitizeInput (input : value) : jsstring :=
  match input with
  | VStr s => replace_class special (entity entity_map) s
  | _ => []
  end.

(** [RegExp.prototype.test] on an anchored pattern, after ToString of the
    argument: a missing form field reads [undefined]. *)
Definition to_text (field : option jsstring) : jsstring :=
  match field with Some s => s | None => lit "undefined" end.

Definition validatePhone (phone : option jsstring) : bool :=
  Regex.test Config.PHONE_REGEX (to_text phone).

Definition validateEmail (email : option jsstring) : bool :=
  Regex.test Config.EMAIL_REGEX (to_text email).

(** [String(n).padStart(width, '0')] for a natural number. *)
Definition decimal (n : N) : jsstring :=
  lit (DecimalString.NilZero.string_of_uint (N.to_uint n)).

Definition padStart (width : nat) (fill : N) (s : jsstring) : jsstring :=
  repeat fill (width - length s) ++ s.

(** [generateOrderId]: the calendar date comes from [new Date()] and
    [random] is [Math.floor(Math.random() * 1000)]. *)
Definition generateOrderId (year month0 day random : N) : jsstring :=
  let month := padStart 2 (ch "0") (decimal (month0 + 1)) in
  let day := padStart 2 (ch "0") (decimal day) in
  let random := padStart 3 (ch "0") (decimal random) in
  lit "ORD-" ++ decimal year ++ month ++ day ++ lit "-" ++ random.

(** [formatPhoneNumber]: [replace(/\D/g, '')] drops every code unit that is
    not a decimal digit, [slice(-10)] keeps the last ten (all of them when
    there are fewer), and the result is laid out in two groups of five. *)
Definition formatPhoneNumber (phone : jsstring) : jsstring :=
  let digits := replace_class (λ c, negb (Config.digit c)) (λ _, []) phone in
  let number := drop (length digits - 10) digits in
  lit "+91 " ++ take 5 number ++ lit " " ++ drop 5 number.

End Utils.

(** ** The catalog and the cart as data *)

Module Products.

(** A catalog entry (the fields the cart and the checkout read). *)
Record product := {
  id : jsstring;
  nameEnglish : jsstring;
  nameHindi : jsstring;
  price : Z;
  unit : jsstring;
  inStock : bool
}.

End Products.

Module CartData.

(** An entry of the stored cart: [{productId, quantity, addedAt}]. *)
Record cart_item := {
  productId : jsstring;
  quantity : Z;
  addedAt : jsstring
}.

(** An entry of [getCartWithDetails]: the stored entry spread, the product
    and the line subtotal. *)
Record cart_detail := {
  item : cart_item;
  product : Products.product;
  subtotal : Z
}.

Record totals := {
  totals_subtotal : Z;
  totals_delivery : Z;
  totals_total : Z
}.

End CartData.
Import CartData.

(** ** Effects

    The browser, the database, the network and the server are one [world];
    what they answer is fixed by an [env].  A computation either returns or
    throws, and logs every call that leaves the program. *)

Module Effects.

(** The calls that leave the program.  The flag of a write tells whether
    it succeeded; the flag of a send tells whether the call returned. *)
Inductive event :=
| EvCreateOrder (order : value) (ok : bool)
| EvSubmitOrder (body : value)
| EvSendOwnerEmail (ok : bool)
| EvSendCustomerEmail (ok : bool)
| EvUpdateUser (ok : bool)
| EvClearCart.

(** What [resend.emails.send] does with a mail: the promise resolves to the
    identifier of the mail sent, it resolves to an error object, the mail not
    having been sent, or it rejects. *)
Inductive send_outcome :=
| Sent
| NotSent
| Rejected.

Definition resolves (s : send_outcome) : bool :=
  match s with
  | Sent | NotSent => true
  | Rejected => false
  end.

Record env := {
  cfg : Config.config;
  (** what [GET /api/products] answers; [None]: the request fails *)
  catalog : option (list Products.product);
  (** whether [localStorage.setItem] succeeds *)
  storage_writable : bool;
  (** [new Date()] in the browser: ISO text, year, month (from 0) and day *)
  clock_iso : jsstring;
  clock_year : N;
  clock_month : N;
  clock_day : N;
  (** [Math.floor(Math.random() * 1000)] *)
  random1000 : N;
  (** whether the database accepts the writes *)
  createOrder_ok : bool;
  updateUser_ok : bool;
  (** whether the request reaches the endpoint and its answer comes back *)
  network_ok : bool;
  (** what the endpoint sees of its caller *)
  x_forwarded_for : option jsstring;
  remoteAddress : option jsstring;
  (** [Date.now()] on the server *)
  server_now : Z;
  (** whether RESEND_API_KEY is set, and what [resend.emails.send] does with
      each of the two mails *)
  resend_configured : bool;
  owner_send : send_outcome;
  customer_send : send_outcome
}.

(** The awaited call returned instead of throwing.  That is all the
    program observes of a send: what the call returns is discarded. *)
Definition owner_send_ok (e : env) : bool := resolves (owner_send e).
Definition customer_send_ok (e : env) : bool := resolves (customer_send e).

Record world := {
  (** the localStorage slot of the cart; [None]: no such key *)
  cart_slot : option (list cart_item);
  (** the module-level [rateLimitStore] of the endpoint *)
  rateLimitStore : gmap jsstring (list Z);
  trace : list event
}.

Inductive outcome (A : Type) :=
| Ok (a : A)
| Throw (error : value).
Arguments Ok {A} a.
Arguments Throw {A} error.

Definition M (A : Type) : Type := env → world → outcome A * world.

Definition ret {A} (a : A) : M A := λ _ w, (Ok a, w).

Definition bind {A B} (m : M A) (k : A → M B) : M B :=
  λ e w, match m e w with
         | (Ok a, w') => k a e w'
         | (Throw err, w') => (Throw err, w')
         end.

Definition throw {A} (err : value) : M A := λ _ w, (Throw err, w).

(** [try { m } catch (error) { handler }] *)
Definition try_catch {A} (m : M A) (handler : value → M A) : M A :=
  λ e w, match m e w with
         | (Ok a, w') => (Ok a, w')
         | (Throw err, w') => handler err e w'
         end.

Definition ask : M env := λ e w, (Ok e, w).

(** The three ways a computation changes the world. *)
Definition log_events (w : world) (evs : list event) : world :=
  {| cart_slot := cart_slot w;
     rateLimitStore := rateLimitStore w;
     trace := trace w ++ evs |}.

Definition set_cart_slot (w : world) (slot : option (list cart_item)) : world :=
  {| cart_slot := slot;
     rateLimitStore := rateLimitStore w;
     trace := trace w |}.

Definition set_store (w : world) (store : gmap jsstring (list Z)) : world :=
  {| cart_slot := cart_slot w;
     rateLimitStore := store;
     trace := trace w |}.

Definition emit (ev : event) : M () := λ _ w, (Ok (), log_events w [ev]).

Definition read_cart_slot : M (option (list cart_item)) :=
  λ _ w, (Ok (cart_slot w), w).

Definition write_cart_slot (slot : option (list cart_item)) : M () :=
  λ _ w, (Ok (), set_cart_slot w slot).

Definition read_store : M (gmap jsstring (list Z)) :=
  λ _ w, (Ok (rateLimitStore w), w).

Definition write_store (store : gmap jsstring (list Z)) : M () :=
  λ _ w, (Ok (), set_store w store).

Declare Scope js_scope.
Delimit Scope js_scope with js.
Notation "x <- m ;; k" := (bind m (λ x, k))
  (at level 100, m at next level, right associativity) : js_scope.
Notation "m ;;; k" := (bind m (λ _, k))
  (at level 100, right associativity) : js_scope.

(** Unfolds the plumbing of a computation. *)
Ltac unfold_m :=
  unfold bind, ret, ask, throw, try_catch, emit, read_cart_slot,
    write_cart_slot, read_store, write_store in *.

End Effects.
Import Effects.
Open Scope js_scope.

(** ** js/products.js *)

Module ProductsJs.

(** [fetchProducts]: the cached or fetched catalog; a failed request
    throws. *)
Definition fetchProducts : M (list Products.product) :=
  e <- ask ;;
  match catalog e with
  | Some products => ret products
  | None => throw (VStr (lit "HTTP error"))
  end.

(** [products.find(p => p.id === productId) || null] *)
Definition getProductById (productId : jsstring) : M (option Products.product) :=
  products <- fetchProducts ;;
  ret (List.find (λ p, bool_decide (Products.id p = productId)) products).

(** [Array.prototype.sort] with a comparator: the sort is stable, so for a
    comparator that orders consistently its result is the one of any stable
    sort; here, insertion from the right. *)
Fixpoint insert_sorted {A} (compare : A → A → Z) (x : A) (l : list A) : list A :=
  match l with
  | [] => [x]
  | y :: rest =>
      if compare x y <=? 0 then x :: l else y :: insert_sorted compare x rest
  end.

Definition array_sort {A} (compare : A → A → Z) (l : list A) : list A :=
  foldr (insert_sorted compare) [] l.

(** [sortProducts]: a sorted copy; [localeCompare] is the comparison of names
    in the locale of the browser. *)
Definition sortProducts (localeCompare : jsstring → jsstring → Z)
    (products : list Products.product) (sortBy : jsstring) : list Products.product :=
  if bool_decide (sortBy = lit "name")
  then array_sort (λ a b, localeCompare (Products.nameEnglish a) (Products.nameEnglish b))
                  products
  else if bool_decide (sortBy = lit "price-low")
  then array_sort (λ a b, Products.price a - Products.price b) products
  else if bool_decide (sortBy = lit "price-high")
  then array_sort (λ a b, Products.price b - Products.price a) products
  else products.

(** [filterByStock]: [p.inStock === true]. *)
Definition filterByStock (products : list Products.product) (inStockOnly : bool)
  : list Products.product :=
  if negb inStockOnly then products
  else List.filter Products.inStock products.

End ProductsJs.
Import ProductsJs.

(** ** js/cart.js

    Prices, quantities and totals are integers in this module: amounts in
    whole rupees and whole units.  [NumberCart] below has the totals on
    JavaScript numbers; [calculateTotal_on_integers] shows that the two agree
    while the amounts are non-negative and at most 2^53 - 1. *)

Module Cart.

(** [loadFromStorage(CONFIG.STORAGE_KEYS.CART, [])] *)
Definition getCart : M (list cart_item) :=
  slot <- read_cart_slot ;;
  ret (default [] slot).

(** [saveToStorage] answers whether the write went through. *)
Definition saveCart (cart : list cart_item) : M bool :=
  e <- ask ;;
  if storage_writable e
  then (write_cart_slot (Some cart) ;;; ret true)
  else ret false.

(** [cart.find(item => item.productId === productId)] *)
Definition find_item (productId' : jsstring) (cart : list cart_item) : option cart_item :=
  List.find (λ it, bool_decide (productId it = productId')) cart.

(** Assignment to the [quantity] of the entry that [find] returned: the
    first entry of that product, in place. *)
Fixpoint set_quantity (productId' : jsstring) (f : Z → Z) (cart : list cart_item)
  : list cart_item :=
  match cart with
  | [] => []
  | it :: rest =>
      if bool_decide (productId it = productId')
      then {| productId := productId it;
              quantity := f (quantity it);
              addedAt := addedAt it |} :: rest
      else it :: set_quantity productId' f rest
  end.

Definition addToCart (productId' : jsstring) (quantity' : Z) : M bool :=
  try_catch
    (product <- getProductById productId' ;;
     match product with
     | None => ret false
     | Some p =>
         if negb (Products.inStock p) then ret false
         else
           cart <- getCart ;;
           e <- ask ;;
           let cart' :=
             match find_item productId' cart with
             | Some _ => set_quantity productId' (λ q, q + quantity') cart
             | None => cart ++ [ {| productId := productId';
                                    quantity := quantity';
                                    addedAt := clock_iso e |} ]
             end in
           saveCart cart'
     end)
    (λ _, ret false).

Definition removeFromCart (productId' : jsstring) : M bool :=
  cart <- getCart ;;
  let filteredCart :=
    List.filter (λ it, negb (bool_decide (productId it = productId'))) cart in
  if (length filteredCart =? length cart)%nat then ret false
  else saveCart filteredCart.

Definition updateCartItem (productId' : jsstring) (newQuantity : Z) : M bool :=
  if newQuantity <? 1 then removeFromCart productId'
  else
    cart <- getCart ;;
    match find_item productId' cart with
    | None => ret false
    | Some _ => saveCart (set_quantity productId' (λ _, newQuantity) cart)
    end.

Definition clearCart : M bool :=
  write_cart_slot None ;;;
  emit EvClearCart ;;;
  ret true.

(** The loop of [getCartWithDetails]. *)
Fixpoint details_loop (cart : list cart_item) (cartWithDetails : list cart_detail)
  : M (list cart_detail) :=
  match cart with
  | [] => ret cartWithDetails
  | it :: rest =>
      product <- getProductById (productId it) ;;
      match product with
      | Some p =>
          details_loop rest
            (cartWithDetails ++
               [ {| item := it; product := p;
                    subtotal := Products.price p * quantity it |} ])
      | None => details_loop rest cartWithDetails
      end
  end.

Definition getCartWithDetails : M (list cart_detail) :=
  cart <- getCart ;;
  details_loop cart [].

(** [cartItems.reduce((sum, item) => sum + item.subtotal, 0)], on integer
    amounts. *)
Definition calculateSubtotal : M Z :=
  cartItems <- getCartWithDetails ;;
  ret (fold_left (λ sum it, sum + subtotal it) cartItems 0).

Definition calculateDeliveryCharge (c : Config.config) (subtotal' : Z) : Z :=
  if Config.MIN_ORDER_AMOUNT c <=? subtotal'
  then Config.DELIVERY_CHARGE c
  else Config.DELIVERY_CHARGE c.

Definition calculateTotal : M totals :=
  subtotal' <- calculateSubtotal ;;
  e <- ask ;;
  let delivery := calculateDeliveryCharge (cfg e) subtotal' in
  let total := subtotal' + delivery in
  ret {| totals_subtotal := subtotal';
         totals_delivery := delivery;
         totals_total := total |}.

(** What [validateCart] can report; the source renders each as a sentence:
    the cart is empty, a product (by its English name) is out of stock,
    the minimum order amount (formatted as currency) is not reached. *)
Inductive cart_error :=
| EmptyCart
| OutOfStock (name : jsstring)
| BelowMinimum (minimum : Z).

Definition validateCart : M (bool * list cart_error) :=
  cart <- getCart ;;
  if (length cart =? 0)%nat then ret (false, [EmptyCart])
  else
    cartItems <- getCartWithDetails ;;
    let outOfStockItems :=
      List.filter (λ d, negb (Products.inStock (product d))) cartItems in
    let errors :=
      List.map (λ d, OutOfStock (Products.nameEnglish (product d))) outOfStockItems in
    totals' <- calculateTotal ;;
    e <- ask ;;
    let errors :=
      if totals_subtotal totals' <? Config.MIN_ORDER_AMOUNT (cfg e)
      then errors ++ [BelowMinimum (Config.MIN_ORDER_AMOUNT (cfg e))]
      else errors in
    ret ((length errors =? 0)%nat, errors).


Definition getUniqueItemCount : M nat :=
  cart <- getCart ;;
  ret (length cart).

End Cart.

(** ** js/cart.js: the listeners of the cart page

    What a click on each of the buttons that [renderCartItems] draws, and a
    change of a quantity field, do to the cart.  The redraw that follows each
    of them reads the cart and the catalog and does not write. *)

Module CartPage.

Inductive button :=
| BtnDecrease
| BtnIncrease
| BtnRemove.

(** The click listener, for a button of one of the three kinds; a button
    without a product identifier is ignored. *)
Definition on_click (b : button) (productId' : jsstring) : M () :=
  if (length productId' =? 0)%nat then ret ()
  else
    match b with
    | BtnDecrease =>
        cart <- Cart.getCart ;;
        match Cart.find_item productId' cart with
        | Some it => Cart.updateCartItem productId' (quantity it - 1) ;;; ret ()
        | None => ret ()
        end
    | BtnIncrease =>
        cart <- Cart.getCart ;;
        match Cart.find_item productId' cart with
        | Some it => Cart.updateCartItem productId' (quantity it + 1) ;;; ret ()
        | None => ret ()
        end
    | BtnRemove => Cart.removeFromCart productId' ;;; ret ()
    end.

(** The change listener of a quantity field; [newQuantity] is
    [parseInt(e.target.value, 10)], [None] when that is NaN.  A value that
    is refused only resets what the field shows. *)
Definition on_change (productId' : jsstring) (newQuantity : option Z) : M () :=
  match newQuantity with
  | Some n =>
      if (0 <? n) && (n <=? 99)
      then Cart.updateCartItem productId' n ;;; ret ()
      else ret ()
  | None => ret ()
  end.

End CartPage.

(** ** JavaScript numbers

    A number of the program is an IEEE 754 double.  The Standard Library's
    [SpecFloat] specifies the arithmetic, here with 53 bits of precision
    and exponents up to 1024, rounding to nearest, ties to even. *)

Module Number.
Import SpecFloat.

Definition number := spec_float.

(** [x + y] and [x * y] *)
Definition add : number → number → number := SFadd 53 1024.
Definition mul : number → number → number := SFmul 53 1024.

(** [x < y] and [x >= y]; both are false when either side is NaN. *)
Definition lt (x y : number) : bool := SFltb x y.
Definition ge (x y : number) : bool := SFleb y x.

(** The number that an integer denotes, rounded when it has more than 53
    significant bits. *)
Definition of_Z (z : Z) : number := binary_normalize 53 1024 z 0 false.

End Number.

(** ** js/cart.js: the totals on JavaScript numbers

    [Cart] above computes with integer amounts.  The prices of the catalog
    and the quantities of the stored cart are JavaScript numbers; these are
    the same functions on them.  They only read: the catalog that
    [fetchProducts] hands out ([None] when it throws) and the stored cart
    ([None] when the key is absent) are arguments. *)

Module NumberCart.
Import Number.

Record product := {
  id : jsstring;
  nameEnglish : jsstring;
  price : number;
  inStock : bool
}.

Record cart_item := {
  productId : jsstring;
  quantity : number;
  addedAt : jsstring
}.

Record cart_detail := {
  item : cart_item;
  product_of : product;
  subtotal : number
}.

Record totals := {
  totals_subtotal : number;
  totals_delivery : number;
  totals_total : number
}.

Definition getCart (stored : option (list cart_item)) : list cart_item :=
  default [] stored.

Definition getProductById (catalog : option (list product)) (productId' : jsstring)
  : outcome (option product) :=
  match catalog with
  | Some products =>
      Ok (List.find (λ p, bool_decide (id p = productId')) products)
  | None => Throw (VStr (lit "HTTP error"))
  end.

Fixpoint details_loop (catalog : option (list product)) (cart : list cart_item)
    (cartWithDetails : list cart_detail) : outcome (list cart_detail) :=
  match cart with
  | [] => Ok cartWithDetails
  | it :: rest =>
      match getProductById catalog (productId it) with
      | Ok (Some p) =>
          details_loop catalog rest
            (cartWithDetails ++
               [ {| item := it; product_of := p;
                    subtotal := mul (price p) (quantity it) |} ])
      | Ok None => details_loop catalog rest cartWithDetails
      | Throw err => Throw err
      end
  end.

Definition getCartWithDetails (catalog : option (list product))
    (stored : option (list cart_item)) : outcome (list cart_detail) :=
  details_loop catalog (getCart stored) [].

(** [cartItems.reduce((sum, item) => sum + item.subtotal, 0)] *)
Definition calculateSubtotal (catalog : option (list product))
    (stored : option (list cart_item)) : outcome number :=
  match getCartWithDetails catalog stored with
  | Ok cartItems => Ok (fold_left (λ sum it, add sum (subtotal it)) cartItems (of_Z 0))
  | Throw err => Throw err
  end.

Definition calculateDeliveryCharge (c : Config.config) (subtotal' : number) : number :=
  if ge subtotal' (of_Z (Config.MIN_ORDER_AMOUNT c))
  then of_Z (Config.DELIVERY_CHARGE c)
  else of_Z (Config.DELIVERY_CHARGE c).

Definition calculateTotal (c : Config.config) (catalog : option (list product))
    (stored : option (list cart_item)) : outcome totals :=
  match calculateSubtotal catalog stored with
  | Ok subtotal' =>
      let delivery := calculateDeliveryCharge c subtotal' in
      let total := add subtotal' delivery in
      Ok {| totals_subtotal := subtotal';
            totals_delivery := delivery;
            totals_total := total |}
  | Throw err => Throw err
  end.

Definition validateCart (c : Config.config) (catalog : option (list product))
    (stored : option (list cart_item)) : outcome (bool * list Cart.cart_error) :=
  let cart := getCart stored in
  if (length cart =? 0)%nat then Ok (false, [Cart.EmptyCart])
  else
    match getCartWithDetails catalog stored with
    | Throw err => Throw err
    | Ok cartItems =>
        let outOfStockItems :=
          List.filter (λ d, negb (inStock (product_of d))) cartItems in
        let errors :=
          List.map (λ d, Cart.OutOfStock (nameEnglish (product_of d))) outOfStockItems in
        match calculateTotal c catalog stored with
        | Throw err => Throw err
        | Ok totals' =>
            let errors :=
              if lt (totals_subtotal totals') (of_Z (Config.MIN_ORDER_AMOUNT c))
              then errors ++ [Cart.BelowMinimum (Config.MIN_ORDER_AMOUNT c)]
              else errors in
            Ok ((length errors =? 0)%nat, errors)
        end
    end.

End NumberCart.

(** ** api/submit-order.js *)

Module SubmitOrder.

Definition windowMs : Z := 60 * 60 * 1000.
Definition maxRequests : nat := 5.

(** [isRateLimited], with [Date.now()] and the module-level
    [rateLimitStore] passed explicitly. *)
Definition isRateLimited (now : Z) (ip : jsstring) (store : gmap jsstring (list Z))
  : bool * gmap jsstring (list Z) :=
  let store := if bool_decide (is_Some (store !! ip)) then store
               else <[ip := []]> store in
  let requests := default [] (store !! ip) in
  let recentRequests := filter (λ timestamp, now - timestamp < windowMs) requests in
  if (maxRequests <=? length recentRequests)%nat then (true, store)
  else (false, <[ip := recentRequests ++ [now]]> store).

Record validation := {
  isValid : bool;
  errors : list jsstring
}.

(** [errors.push(message)] when the condition holds. *)
Definition push_if (cond : bool) (message : string) (errors : list jsstring)
  : list jsstring :=
  if cond then errors ++ [lit message] else errors.

Definition positive_number (v : value) : bool :=
  match v with
  | VNum q => negb (Qle_bool q 0%Q)
  | _ => false
  end.

Definition nonempty_array (v : value) : bool :=
  match v with
  | VArr xs => negb (length xs =? 0)%nat
  | _ => false
  end.

(** [validateOrderData]; [None] is the TypeError of reading a property of
    [null] or [undefined]. *)
Definition validateOrderData (orderData : value) : option validation :=
  let errors := [] in
  orderId ← get orderData (lit "orderId");
  let errors := push_if (negb (truthy orderId)) "Order ID is required" errors in
  userId ← get orderData (lit "userId");
  let errors := push_if (negb (truthy userId)) "User ID is required" errors in
  customer ← get orderData (lit "customer");
  let errors := push_if (negb (truthy customer)) "Customer details are required" errors in
  items ← get orderData (lit "items");
  let errors :=
    push_if (negb (truthy items) || negb (isArray items) || negb (nonempty_array items))
            "Order must contain at least one item" errors in
  errors ←
    (if truthy customer then
       name ← get customer (lit "name");
       let errors := push_if (negb (truthy name)) "Customer name is required" errors in
       phone ← get customer (lit "phone");
       let errors := push_if (negb (truthy phone)) "Customer phone is required" errors in
       address ← get customer (lit "address");
       Some (push_if (negb (truthy address)) "Customer address is required" errors)
     else Some errors);
  total ← get orderData (lit "total");
  let errors := push_if (negb (positive_number total)) "Invalid order total" errors in
  Some {| isValid := (length errors =? 0)%nat; errors := errors |}.

Definition TypeError : value := VStr (lit "TypeError").

(** A step that raises a TypeError when it reads through [null] or
    [undefined]. *)
Definition must {A} (o : option A) : M A :=
  match o with
  | Some a => ret a
  | None => throw TypeError
  end.

Definition non_nullish (v : value) : bool :=
  match v with
  | VUndefined | VNull => false
  | _ => true
  end.

(** [v.k] where [v] is known not to be [null] or [undefined]. *)
Definition field_of (v : value) (k : string) : value :=
  default VUndefined (get v (lit k)).

(** One line of the list of items prints four fields of the item. *)
Definition item_renders (item : value) : bool :=
  non_nullish item
  && negb (existsb (λ k, to_string_throws (field_of item k))
             ["productName"; "quantity"; "unit"; "subtotal"]%string).

(** [c ? `...${v}` : ''] *)
Definition when_truthy (v : value) : value := if truthy v then v else VUndefined.

(** Building the text of the mail to the owner: [orderData.items.map] over
    the items, then the fields of the order and of [orderData.customer] that
    the template prints.  [None]: a TypeError on the way. *)
Definition render_owner_email (orderData : value) : option () :=
  items ← get orderData (lit "items");
  customer ← get orderData (lit "customer");
  name ← get customer (lit "name");
  match items with
  | VArr xs =>
      if forallb item_renders xs
         && negb (existsb to_string_throws
                    [ field_of orderData "orderId";
                      field_of orderData "createdAt";
                      name;
                      field_of customer "phone";
                      field_of customer "address";
                      when_truthy (field_of customer "landmark");
                      field_of orderData "total";
                      field_of orderData "deliverySlot";
                      when_truthy (field_of orderData "specialInstructions") ])
      then Some () else None
  | _ => None
  end.

(** The same for the mail to the customer, whose template prints fewer
    fields. *)
Definition render_customer_email (orderData : value) : option () :=
  items ← get orderData (lit "items");
  customer ← get orderData (lit "customer");
  name ← get customer (lit "name");
  match items with
  | VArr xs =>
      if forallb item_renders xs
         && negb (existsb to_string_throws
                    [ name;
                      field_of orderData "orderId";
                      field_of orderData "deliverySlot";
                      field_of customer "address";
                      field_of orderData "total" ])
      then Some () else None
  | _ => None
  end.

(** [await resend.emails.send(...)] throws when the promise rejects; what
    the promise resolves to is not read, so the functions answer true
    whenever the call returns. *)
Definition sendEmailToOwner (orderData : value) : M bool :=
  e <- ask ;;
  if negb (resend_configured e) then ret false
  else
    try_catch
      (must (render_owner_email orderData) ;;;
       emit (EvSendOwnerEmail (owner_send_ok e)) ;;;
       if owner_send_ok e then ret true else throw (VStr (lit "send rejected")))
      (λ _, ret false).

Definition sendEmailConfirmation (orderData : value) : M bool :=
  e <- ask ;;
  if negb (resend_configured e) then ret false
  else
    customer <- must (get orderData (lit "customer")) ;;
    email <- must (get customer (lit "email")) ;;
    if negb (truthy email) then ret false
    else
    try_catch
      (must (render_customer_email orderData) ;;;
       emit (EvSendCustomerEmail (customer_send_ok e)) ;;;
       if customer_send_ok e then ret true else throw (VStr (lit "send rejected")))
      (λ _, ret false).

(** A started notification inside [Promise.allSettled]: its result and its
    rejection stay in the promise. *)
Definition settled (notification : M bool) : M () :=
  try_catch (notification ;;; ret ()) (λ _, ret ()).

Record request := {
  method : jsstring;
  header_x_forwarded_for : option jsstring;
  connection_remoteAddress : option jsstring;
  req_body : value
}.

Record response := {
  status : Z;
  body : value
}.

Definition json (status' : Z) (fields : list (jsstring * value)) : M response :=
  ret {| status := status'; body := VObj fields |}.

(** [a || b] on an optional header. *)
Definition or_text (a : option jsstring) (b : jsstring) : jsstring :=
  match a with
  | Some s => if truthy (VStr s) then s else b
  | None => b
  end.

Definition client_ip (req : request) : jsstring :=
  or_text (header_x_forwarded_for req)
          (or_text (connection_remoteAddress req) (lit "unknown")).

Definition check_rate_limit (ip : jsstring) : M bool :=
  e <- ask ;;
  store <- read_store ;;
  let '(limited, store') := isRateLimited (server_now e) ip store in
  write_store store' ;;;
  ret limited.

Definition handler (req : request) : M response :=
  if bool_decide (method req = lit "OPTIONS")
  then ret {| status := 200; body := VUndefined |}
  else if negb (bool_decide (method req = lit "POST"))
  then json 405 [ (lit "success", VBool false);
                  (lit "message", VStr (lit "Method not allowed")) ]
  else
    try_catch
      (let ip := client_ip req in
       limited <- check_rate_limit ip ;;
       if limited
       then json 429 [ (lit "success", VBool false);
                       (lit "message",
                        VStr (lit "Too many requests. Please try again later.")) ]
       else
         let orderData := req_body req in
         validation' <- must (validateOrderData orderData) ;;
         if negb (isValid validation')
         then json 400 [ (lit "success", VBool false);
                         (lit "message", VStr (lit "Invalid order data"));
                         (lit "errors", VArr (List.map VStr (errors validation'))) ]
         else
           settled (sendEmailToOwner orderData) ;;;
           customer <- must (get orderData (lit "customer")) ;;
           email <- must (get customer (lit "email")) ;;
           (if truthy email then settled (sendEmailConfirmation orderData)
            else ret ()) ;;;
           (** the log line reads [notifications[1].status] *)
           (if truthy email then ret () else throw TypeError) ;;;
           orderId <- must (get orderData (lit "orderId")) ;;
           json 200 [ (lit "success", VBool true);
                      (lit "message", VStr (lit "Order received successfully"));
                      (lit "orderId", orderId) ])
      (λ _, json 500 [ (lit "success", VBool false);
                       (lit "message",
                        VStr (lit "Failed to process order. Please try again.")) ]).

End SubmitOrder.

(** ** js/firebase-config.js: the two writes of the checkout *)

Module DatabaseService.

(** One [addDoc] on the orders collection. *)
Definition createOrder (orderData : value) : M () :=
  e <- ask ;;
  emit (EvCreateOrder orderData (createOrder_ok e)) ;;;
  if createOrder_ok e then ret ()
  else throw (VStr (lit "Failed to create order")).

Definition updateUser : M () :=
  e <- ask ;;
  emit (EvUpdateUser (updateUser_ok e)) ;;;
  if updateUser_ok e then ret ()
  else throw (VStr (lit "Failed to update user data")).

End DatabaseService.

(** ** js/checkout.js *)

Module Form.

Record form := {
  name : option jsstring;
  phone : option jsstring;
  email : option jsstring;
  address : option jsstring;
  landmark : option jsstring;
  deliverySlot : option jsstring;
  specialInstructions : option jsstring
}.

Record user := {
  uid : jsstring;
  user_email : option jsstring
}.

End Form.

Module Checkout.
Import SubmitOrder.

(** A form field as a value: a missing field reads [undefined]. *)
Definition field (f : option jsstring) : value :=
  match f with
  | Some s => VStr s
  | None => VUndefined
  end.

(** [!f || f.trim().length < n] *)
Definition missing_or_short (f : option jsstring) (n : nat) : bool :=
  negb (truthy (field f)) || (length (trim (Utils.to_text f)) <? n)%nat.

Definition validateCheckoutForm (formData : Form.form) : validation :=
  let errors := [] in
  let errors :=
    push_if (missing_or_short (Form.name formData) 2)
            "Please enter your full name" errors in
  let errors :=
    push_if (negb (Utils.validatePhone (Form.phone formData)))
            "Please enter a valid 10-digit mobile number" errors in
  let errors :=
    push_if (truthy (field (Form.email formData))
             && negb (Utils.validateEmail (Form.email formData)))
            "Please enter a valid email address" errors in
  let errors :=
    push_if (missing_or_short (Form.address formData) 10)
            "Please enter a complete delivery address" errors in
  let errors :=
    push_if (negb (truthy (field (Form.deliverySlot formData))))
            "Please select a delivery time slot" errors in
  {| isValid := (length errors =? 0)%nat; errors := errors |}.

(** [Array.prototype.join] *)
Fixpoint join (sep : jsstring) (xs : list jsstring) : jsstring :=
  match xs with
  | [] => []
  | [x] => x
  | x :: rest => x ++ sep ++ join sep rest
  end.

(** [fetch] of the submission endpoint: the request is logged, and the
    endpoint runs when the request reaches it. *)
Definition fetch_submit_order (orderData : value) : M response :=
  emit (EvSubmitOrder orderData) ;;;
  e <- ask ;;
  if network_ok e
  then handler {| method := lit "POST";
                  header_x_forwarded_for := x_forwarded_for e;
                  connection_remoteAddress := remoteAddress e;
                  req_body := orderData |}
  else throw (VStr (lit "Failed to fetch")).

(** [response.ok] *)
Definition response_ok (r : response) : bool :=
  (200 <=? status r) && (status r <=? 299).

Definition submitOrder (orderData : value) : M value :=
  try_catch
    (response' <- fetch_submit_order orderData ;;
     if negb (response_ok response')
     then
       message <- must (get (body response') (lit "message")) ;;
       throw (or_else message (VStr (lit "Failed to submit order")))
     else ret (body response'))
    (λ error, throw error).

Definition num (z : Z) : value := VNum (inject_Z z).

(** The snapshot of a line of the cart inside the order. *)
Definition order_item (d : cart_detail) : value :=
  VObj [ (lit "productId", VStr (productId (item d)));
         (lit "productName", VStr (Products.nameEnglish (product d)));
         (lit "productNameHindi", VStr (Products.nameHindi (product d)));
         (lit "quantity", num (quantity (item d)));
         (lit "price", num (Products.price (product d)));
         (lit "unit", VStr (Products.unit (product d)));
         (lit "subtotal", num (subtotal d)) ].

Definition sanitized_or_empty (f : option jsstring) : value :=
  if truthy (field f) then VStr (Utils.sanitizeInput (field f)) else VStr [].

Definition build_order (formData : Form.form) (user : Form.user) (orderId : jsstring)
    (cartItems : list cart_detail) (totals' : totals) (createdAt : jsstring) : value :=
  VObj [ (lit "orderId", VStr orderId);
         (lit "userId", VStr (Form.uid user));
         (lit "customer",
          VObj [ (lit "name", VStr (Utils.sanitizeInput (field (Form.name formData))));
                 (lit "email",
                  if truthy (field (Form.email formData))
                  then VStr (Utils.sanitizeInput (field (Form.email formData)))
                  else field (Form.user_email user));
                 (lit "phone", VStr (Utils.sanitizeInput (field (Form.phone formData))));
                 (lit "address", VStr (Utils.sanitizeInput (field (Form.address formData))));
                 (lit "landmark", sanitized_or_empty (Form.landmark formData)) ]);
         (lit "items", VArr (List.map order_item cartItems));
         (lit "deliverySlot", field (Form.deliverySlot formData));
         (lit "specialInstructions", sanitized_or_empty (Form.specialInstructions formData));
         (lit "paymentMethod", VStr (lit "Cash on Delivery"));
         (lit "subtotal", num (totals_subtotal totals'));
         (lit "deliveryCharge", num (totals_delivery totals'));
         (lit "total", num (totals_total totals'));
         (lit "status", VStr (lit "pending"));
         (lit "createdAt", VStr createdAt) ].

Definition processCheckout (formData : Form.form) (user : Form.user) : M jsstring :=
  let validation' := validateCheckoutForm formData in
  if negb (isValid validation')
  then throw (VStr (join (lit ", ") (errors validation')))
  else
    cartItems <- Cart.getCartWithDetails ;;
    if (length cartItems =? 0)%nat
    then throw (VStr (lit "Your cart is empty"))
    else
      totals' <- Cart.calculateTotal ;;
      e <- ask ;;
      let orderId :=
        Utils.generateOrderId (clock_year e) (clock_month e) (clock_day e)
                              (random1000 e) in
      let orderData :=
        build_order formData user orderId cartItems totals' (clock_iso e) in
      try_catch
        (DatabaseService.createOrder orderData ;;;
         submitOrder orderData ;;;
         (if truthy (field (Form.phone formData))
          then DatabaseService.updateUser else ret ()) ;;;
         Cart.clearCart ;;;
         ret orderId)
        (λ _, throw (VStr (lit "Failed to process order. Please try again."))).

End Checkout.

(** * Vocabulary of the properties *)

(** The characters the escaping removes from its output. *)
Definition markup_chars : list N := [ch "<"; ch ">"; dquote; ch "'"; ch "/"].

(** ** Totals *)

Definition lookup_product (cat : list Products.product) (productId' : jsstring)
  : option Products.product :=
  List.find (λ p, bool_decide (Products.id p = productId')) cat.

Definition in_catalog (cat : list Products.product) (it : cart_item) : bool :=
  match lookup_product cat (productId it) with
  | Some _ => true
  | None => false
  end.

(** The items of the cart whose product the catalog still has. *)
Definition kept_items (cat : list Products.product) (cart : list cart_item)
  : list cart_item :=
  List.filter (in_catalog cat) cart.

Definition unit_price (cat : list Products.product) (it : cart_item) : Z :=
  from_option Products.price 0 (lookup_product cat (productId it)).

Definition Zsum (l : list Z) : Z := foldr Z.add 0 l.

(** The sum of price times quantity over the kept items. *)
Definition expected_subtotal (cat : list Products.product) (cart : list cart_item) : Z :=
  Zsum (List.map (λ it, unit_price cat it * quantity it) (kept_items cat cart)).

(** The join of the cart with the catalog, item by item. *)
Fixpoint details_of (cat : list Products.product) (cart : list cart_item)
  : list cart_detail :=
  match cart with
  | [] => []
  | it :: rest =>
      match lookup_product cat (productId it) with
      | Some p =>
          {| item := it; product := p;
             subtotal := Products.price p * quantity it |} :: details_of cat rest
      | None => details_of cat rest
      end
  end.

(** ** Sample data *)

Definition ghee : Products.product := {|
  Products.id := lit "buffalo-ghee";
  Products.nameEnglish := lit "Buffalo Ghee";
  Products.nameHindi := lit "Bhains ka ghee";
  Products.price := 800;
  Products.unit := lit "1kg";
  Products.inStock := true
|}.

Definition milk : Products.product := {|
  Products.id := lit "cow-milk";
  Products.nameEnglish := lit "Cow Milk";
  Products.nameHindi := lit "Gaay ka doodh";
  Products.price := 30;
  Products.unit := lit "500ml";
  Products.inStock := true
|}.

Definition cart_of (productId' : jsstring) (quantity' : Z) : cart_item :=
  {| productId := productId'; quantity := quantity';
     addedAt := lit "2026-02-12T10:00:00.000Z" |}.

(** An environment in which every external call succeeds. *)
Definition sample_env : env := {|
  cfg := Config.CONFIG;
  catalog := Some [ghee; milk];
  storage_writable := true;
  clock_iso := lit "2026-02-12T10:30:00.000Z";
  clock_year := 2026;
  clock_month := 1;
  clock_day := 12;
  random1000 := 1;
  createOrder_ok := true;
  updateUser_ok := true;
  network_ok := true;
  x_forwarded_for := Some (lit "203.0.113.7");
  remoteAddress := None;
  server_now := 1770892200000;
  resend_configured := true;
  owner_send := Sent;
  customer_send := Sent
|}.

Definition world_with (cart : list cart_item) : world := {|
  cart_slot := Some cart;
  rateLimitStore := ∅;
  trace := []
|}.

(** ** Cart operations *)

(** The bound the specification states for every stored quantity. *)
Definition quantities_bounded (cart : list cart_item) : Prop :=
  Forall (λ it, 1 ≤ quantity it ≤ 99) cart.


Definition stored_cart (w : world) : list cart_item := default [] (cart_slot w).

Inductive cart_op :=
| OpAddToCart (productId' : jsstring) (quantity' : Z)
| OpUpdateCartItem (productId' : jsstring) (newQuantity : Z)
| OpRemoveFromCart (productId' : jsstring)
| OpClearCart.

Definition run_op (op : cart_op) : M bool :=
  match op with
  | OpAddToCart p q => Cart.addToCart p q
  | OpUpdateCartItem p q => Cart.updateCartItem p q
  | OpRemoveFromCart p => Cart.removeFromCart p
  | OpClearCart => Cart.clearCart
  end.

(** A session: operations one after the other, each in the environment of
    its moment. *)
Fixpoint run_ops (ops : list (env * cart_op)) (w : world) : world :=
  match ops with
  | [] => w
  | (e, op) :: rest => run_ops rest (snd (run_op op e w))
  end.


(** ** The checkout form *)

Definition form_with_slot (f : Form.form) (slot : option jsstring) : Form.form := {|
  Form.name := Form.name f;
  Form.phone := Form.phone f;
  Form.email := Form.email f;
  Form.address := Form.address f;
  Form.landmark := Form.landmark f;
  Form.deliverySlot := slot;
  Form.specialInstructions := Form.specialInstructions f
|}.

Definition sample_form : Form.form := {|
  Form.name := Some (lit "Asha Patil");
  Form.phone := Some (lit "9876543210");
  Form.email := Some (lit "asha@example.com");
  Form.address := Some (lit "12 Rambaugh Lane, Kalyan West");
  Form.landmark := None;
  Form.deliverySlot := Some (lit "Morning (7 AM - 10 AM)");
  Form.specialInstructions := None
|}.

Definition sample_user : Form.user := {|
  Form.uid := lit "user-123";
  Form.user_email := Some (lit "asha@example.com")
|}.

(** ** The order validator, in the words of the specification *)

(** [v.k] where [v] is neither [null] nor [undefined]. *)
Definition prop (v : value) (k : string) : value :=
  default VUndefined (get v (lit k)).

(** The rules of the validator: whether a payload violates each, and the
    message of the rule.  The three rules on the customer block apply to a
    customer block that is there. *)
Definition order_rules (o : value) : list (bool * string) :=
  let customer := prop o "customer" in
  [ (negb (truthy (prop o "orderId")), "Order ID is required");
    (negb (truthy (prop o "userId")), "User ID is required");
    (negb (truthy customer), "Customer details are required");
    (negb (SubmitOrder.nonempty_array (prop o "items")),
     "Order must contain at least one item");
    (truthy customer && negb (truthy (prop customer "name")),
     "Customer name is required");
    (truthy customer && negb (truthy (prop customer "phone")),
     "Customer phone is required");
    (truthy customer && negb (truthy (prop customer "address")),
     "Customer address is required");
    (negb (SubmitOrder.positive_number (prop o "total")), "Invalid order total") ]%string.

Definition violated_messages (o : value) : list jsstring :=
  List.map (λ r, lit (snd r)) (List.filter fst (order_rules o)).

(** A payload the specification accepts. *)
Definition acceptable_order (o : value) : Prop :=
  truthy (prop o "orderId") = true
  ∧ truthy (prop o "userId") = true
  ∧ truthy (prop o "customer") = true
  ∧ truthy (prop (prop o "customer") "name") = true
  ∧ truthy (prop (prop o "customer") "phone") = true
  ∧ truthy (prop (prop o "customer") "address") = true
  ∧ (∃ xs, prop o "items" = VArr xs ∧ xs ≠ [])
  ∧ (∃ q, prop o "total" = VNum q ∧ (0 < q)%Q).

Definition sample_order (items : list value) : value :=
  VObj [ (lit "orderId", VStr (lit "ORD-20260212-001"));
         (lit "userId", VStr (lit "user-123"));
         (lit "customer",
          VObj [ (lit "name", VStr (lit "Asha Patil"));
                 (lit "email", VStr (lit "asha@example.com"));
                 (lit "phone", VStr (lit "9876543210"));
                 (lit "address", VStr (lit "12 Rambaugh Lane, Kalyan West")) ]);
         (lit "items", VArr items);
         (lit "total", VNum 1600%Q) ].

(** An order whose phone field is an object that has no conversion to a
    string. *)
Definition order_with_unprintable_phone (items : list value) : value :=
  VObj [ (lit "orderId", VStr (lit "ORD-20260212-001"));
         (lit "userId", VStr (lit "user-123"));
         (lit "customer",
          VObj [ (lit "name", VStr (lit "Asha Patil"));
                 (lit "email", VStr (lit "asha@example.com"));
                 (lit "phone", VObj [ (lit "toString", VNum 1%Q) ]);
                 (lit "address", VStr (lit "12 Rambaugh Lane, Kalyan West")) ]);
         (lit "items", VArr items);
         (lit "total", VNum 1600%Q) ].

Definition sample_line : value :=
  VObj [ (lit "productName", VStr (lit "Buffalo Ghee"));
         (lit "quantity", VNum 2%Q);
         (lit "unit", VStr (lit "1kg"));
         (lit "subtotal", VNum 1600%Q) ].

(** ** Runs of the rate limiter *)

(** The instants less than one hour before [now]. *)
Definition within_hour (now : Z) (instants : list Z) : list Z :=
  filter (λ timestamp, now - timestamp < SubmitOrder.windowMs) instants.

(** One check of a run: the identifier, the instant and the verdict are
    logged, the table goes on to the next check. *)
Definition step_check (st : list (jsstring * Z * bool) * gmap jsstring (list Z))
    (c : jsstring * Z) : list (jsstring * Z * bool) * gmap jsstring (list Z) :=
  let '(limited, store') := SubmitOrder.isRateLimited (snd c) (fst c) (snd st) in
  (fst st ++ [(fst c, snd c, limited)], store').

(** The checks of a process, from its start with an empty table. *)
Definition run_checks (checks : list (jsstring * Z))
  : list (jsstring * Z * bool) * gmap jsstring (list Z) :=
  fold_left step_check checks ([], ∅).

(** The instants at which requests of [ip] were accepted. *)
Definition accepted_instants (ip : jsstring) (log : list (jsstring * Z * bool)) : list Z :=
  List.map (λ x, snd (fst x))
    (List.filter (λ x, bool_decide (fst (fst x) = ip) && negb (snd x)) log).

Fixpoint clock_monotone (last : Z) (instants : list Z) : Prop :=
  match instants with
  | [] => True
  | t :: rest => last ≤ t ∧ clock_monotone t rest
  end.

(** The clock does not run backwards. *)
Definition nondecreasing (instants : list Z) : Prop :=
  match instants with
  | [] => True
  | t :: rest => clock_monotone t rest
  end.

(** What the table holds of an identifier, as far as any later check can
    tell: the accepted instants. *)
Definition table_tracks (store : gmap jsstring (list Z))
    (log : list (jsstring * Z * bool)) (last : Z) : Prop :=
  ∀ ip now, last ≤ now →
    within_hour now (default [] (store !! ip))
    = within_hour now (accepted_instants ip log).

Definition caller : jsstring := lit "203.0.113.7".

(** ** The endpoint as a function of what it is given *)

Definition renders_owner (o : value) : bool :=
  match SubmitOrder.render_owner_email o with
  | Some _ => true
  | None => false
  end.

Definition renders_customer (o : value) : bool :=
  match SubmitOrder.render_customer_email o with
  | Some _ => true
  | None => false
  end.

Definition customer_email (o : value) : value :=
  prop (prop o "customer") "email".

(** The sends the endpoint issues for an order. *)
Definition owner_mails (e : env) (o : value) : list event :=
  if resend_configured e && renders_owner o
  then [EvSendOwnerEmail (owner_send_ok e)] else [].

Definition customer_mails (e : env) (o : value) : list event :=
  if resend_configured e && truthy (customer_email o) && renders_customer o
  then [EvSendCustomerEmail (customer_send_ok e)] else [].

Definition passes_validation (o : value) : bool :=
  match SubmitOrder.validateOrderData o with
  | Some v => SubmitOrder.isValid v
  | None => false
  end.

(** A POST within the rate limit whose payload passes validation. *)
Definition admitted (req : SubmitOrder.request) (now : Z)
    (store : gmap jsstring (list Z)) : bool :=
  bool_decide (SubmitOrder.method req = lit "POST")
  && negb (fst (SubmitOrder.isRateLimited now (SubmitOrder.client_ip req) store))
  && passes_validation (SubmitOrder.req_body req).

Definition expected_status (req : SubmitOrder.request) (now : Z)
    (store : gmap jsstring (list Z)) : Z :=
  if bool_decide (SubmitOrder.method req = lit "OPTIONS") then 200
  else if negb (bool_decide (SubmitOrder.method req = lit "POST")) then 405
  else if fst (SubmitOrder.isRateLimited now (SubmitOrder.client_ip req) store) then 429
  else match SubmitOrder.validateOrderData (SubmitOrder.req_body req) with
       | None => 500
       | Some v =>
           if negb (SubmitOrder.isValid v) then 400
           else if truthy (customer_email (SubmitOrder.req_body req)) then 200
           else 500
       end.

Definition expected_store (req : SubmitOrder.request) (now : Z)
    (store : gmap jsstring (list Z)) : gmap jsstring (list Z) :=
  if bool_decide (SubmitOrder.method req = lit "OPTIONS") then store
  else if negb (bool_decide (SubmitOrder.method req = lit "POST")) then store
  else snd (SubmitOrder.isRateLimited now (SubmitOrder.client_ip req) store).

Definition expected_mails (e : env) (req : SubmitOrder.request)
    (store : gmap jsstring (list Z)) : list event :=
  if bool_decide (SubmitOrder.method req = lit "OPTIONS") then []
  else if admitted req (server_now e) store
  then owner_mails e (SubmitOrder.req_body req)
       ++ customer_mails e (SubmitOrder.req_body req)
  else [].

Definition is_2xx (status' : Z) : bool := (200 <=? status') && (status' <=? 299).

Definition post_request (e : env) (o : value) : SubmitOrder.request := {|
  SubmitOrder.method := lit "POST";
  SubmitOrder.header_x_forwarded_for := x_forwarded_for e;
  SubmitOrder.connection_remoteAddress := remoteAddress e;
  SubmitOrder.req_body := o
|}.

Definition returned {A} (r : outcome A) : bool :=
  match r with
  | Ok _ => true
  | Throw _ => false
  end.

(** ** A checkout attempt as a function of what it is given *)

(** The order record the attempt builds. *)
Definition checkout_order (f : Form.form) (u : Form.user) (e : env)
    (cat : list Products.product) (cart : list cart_item) : value :=
  Checkout.build_order f u
    (Utils.generateOrderId (clock_year e) (clock_month e) (clock_day e) (random1000 e))
    (details_of cat cart)
    {| totals_subtotal := expected_subtotal cat cart;
       totals_delivery := Config.DELIVERY_CHARGE (cfg e);
       totals_total := expected_subtotal cat cart + Config.DELIVERY_CHARGE (cfg e) |}
    (clock_iso e).

(** The attempt gets past its own checks: the form is valid and the cart,
    joined with the catalog, is not empty. *)
Definition checkout_proceeds (f : Form.form) (e : env) (w : world) : bool :=
  SubmitOrder.isValid (Checkout.validateCheckoutForm f)
  && match catalog e with
     | Some cat => negb (length (details_of cat (stored_cart w)) =? 0)%nat
     | None => false
     end.

Definition submission_status (o : value) (e : env) (w : world) : Z :=
  expected_status (post_request e o) (server_now e) (rateLimitStore w).

Definition user_updated (f : Form.form) (e : env) : bool :=
  negb (truthy (Checkout.field (Form.phone f))) || updateUser_ok e.

(** The calls of an attempt that leave the program, in order. *)
Definition checkout_events (f : Form.form) (u : Form.user) (e : env) (w : world)
  : list event :=
  match catalog e with
  | Some cat =>
      if checkout_proceeds f e w then
        let o := checkout_order f u e cat (stored_cart w) in
        EvCreateOrder o (createOrder_ok e) ::
        (if createOrder_ok e then
           EvSubmitOrder o ::
           (if network_ok e then
              expected_mails e (post_request e o) (rateLimitStore w)
              ++ (if is_2xx (submission_status o e w) then
                    (if truthy (Checkout.field (Form.phone f))
                     then [EvUpdateUser (updateUser_ok e)] else [])
                    ++ (if user_updated f e then [EvClearCart] else [])
                  else [])
            else [])
         else [])
      else []
  | None => []
  end.

Definition checkout_succeeds (f : Form.form) (u : Form.user) (e : env) (w : world)
  : bool :=
  match catalog e with
  | Some cat =>
      checkout_proceeds f e w
      && createOrder_ok e
      && network_ok e
      && is_2xx (submission_status (checkout_order f u e cat (stored_cart w)) e w)
      && user_updated f e
  | None => false
  end.

Definition is_create (ev : event) : bool :=
  match ev with
  | EvCreateOrder _ _ => true
  | _ => false
  end.

Definition is_created (ev : event) : bool :=
  match ev with
  | EvCreateOrder _ ok => ok
  | _ => false
  end.

(** The submission to the endpoint and the sends it issues. *)
Definition is_notification (ev : event) : bool :=
  match ev with
  | EvSubmitOrder _ | EvSendOwnerEmail _ | EvSendCustomerEmail _ => true
  | _ => false
  end.

Definition is_mail (ev : event) : bool :=
  match ev with
  | EvSendOwnerEmail _ | EvSendCustomerEmail _ => true
  | _ => false
  end.

(** No notification before a successful order creation. *)
Fixpoint ordered (created : bool) (evs : list event) : bool :=
  match evs with
  | [] => true
  | ev :: rest =>
      (if is_notification ev then created else true)
      && ordered (created || is_created ev) rest
  end.

(** The same environment with other outcomes of the sends. *)
Definition with_sends (e : env) (configured : bool) (owner customer : send_outcome)
  : env := {|
  cfg := cfg e;
  catalog := catalog e;
  storage_writable := storage_writable e;
  clock_iso := clock_iso e;
  clock_year := clock_year e;
  clock_month := clock_month e;
  clock_day := clock_day e;
  random1000 := random1000 e;
  createOrder_ok := createOrder_ok e;
  updateUser_ok := updateUser_ok e;
  network_ok := network_ok e;
  x_forwarded_for := x_forwarded_for e;
  remoteAddress := remoteAddress e;
  server_now := server_now e;
  resend_configured := configured;
  owner_send := owner;
  customer_send := customer
|}.

(** The same environment with the network up or down, and with another
    catalog. *)
Definition with_network (e : env) (up : bool) : env := {|
  cfg := cfg e;
  catalog := catalog e;
  storage_writable := storage_writable e;
  clock_iso := clock_iso e;
  clock_year := clock_year e;
  clock_month := clock_month e;
  clock_day := clock_day e;
  random1000 := random1000 e;
  createOrder_ok := createOrder_ok e;
  updateUser_ok := updateUser_ok e;
  network_ok := up;
  x_forwarded_for := x_forwarded_for e;
  remoteAddress := remoteAddress e;
  server_now := server_now e;
  resend_configured := resend_configured e;
  owner_send := owner_send e;
  customer_send := customer_send e
|}.

Definition with_catalog (e : env) (cat : list Products.product) : env := {|
  cfg := cfg e;
  catalog := Some cat;
  storage_writable := storage_writable e;
  clock_iso := clock_iso e;
  clock_year := clock_year e;
  clock_month := clock_month e;
  clock_day := clock_day e;
  random1000 := random1000 e;
  createOrder_ok := createOrder_ok e;
  updateUser_ok := updateUser_ok e;
  network_ok := network_ok e;
  x_forwarded_for := x_forwarded_for e;
  remoteAddress := remoteAddress e;
  server_now := server_now e;
  resend_configured := resend_configured e;
  owner_send := owner_send e;
  customer_send := customer_send e
|}.

(** Ghee that the catalog lists as out of stock. *)
Definition ghee_sold_out : Products.product := {|
  Products.id := lit "buffalo-ghee";
  Products.nameEnglish := lit "Buffalo Ghee";
  Products.nameHindi := lit "Bhains ka ghee";
  Products.price := 800;
  Products.unit := lit "1kg";
  Products.inStock := false
|}.

(** A product given away for nothing. *)
Definition free_sample : Products.product := {|
  Products.id := lit "free-sample";
  Products.nameEnglish := lit "Sample";
  Products.nameHindi := lit "Namuna";
  Products.price := 0;
  Products.unit := lit "100g";
  Products.inStock := true
|}.

(** A world in which the caller of [sample_env] has had five requests
    accepted in the last five minutes. *)
Definition world_after_five (cart : list cart_item) : world := {|
  cart_slot := Some cart;
  rateLimitStore :=
    {[ caller := [ 1770891900000; 1770891960000; 1770892020000;
                   1770892080000; 1770892140000 ] ]};
  trace := []
|}.

Definition status_of (r : outcome SubmitOrder.response) : option Z :=
  match r with
  | Ok resp => Some (SubmitOrder.status resp)
  | Throw _ => None
  end.

(** ** Further vocabulary: the rate limiter *)

(** The checks of one identifier. *)
Definition checks_of (ip : jsstring) (checks : list (jsstring * Z)) : list (jsstring * Z) :=
  List.filter (λ c, bool_decide (fst c = ip)) checks.

(** The part of a log that concerns one identifier. *)
Definition log_of (ip : jsstring) (log : list (jsstring * Z * bool))
  : list (jsstring * Z * bool) :=
  List.filter (λ x, bool_decide (fst (fst x) = ip)) log.

Definition sample_checks : list (jsstring * Z) :=
  [ (caller, 0); (caller, 1); (caller, 2); (caller, 3); (caller, 4);
    (caller, 10); (caller, 3599999); (caller, 3600000) ].

(** No identifier has more than five instants on record. *)
Definition table_bounded (store : gmap jsstring (list Z)) : Prop :=
  ∀ ip requests, store !! ip = Some requests → (length requests ≤ 5)%nat.

(** The caller that the endpoint sees behind a request of the browser. *)
Definition caller_ip (e : env) : jsstring :=
  SubmitOrder.or_text (x_forwarded_for e)
    (SubmitOrder.or_text (remoteAddress e) (lit "unknown")).

(** ** Further vocabulary: the endpoint *)

(** The message of the answer, by status. *)
Definition expected_message (status' : Z) : jsstring :=
  if status' =? 200 then lit "Order received successfully"
  else if status' =? 400 then lit "Invalid order data"
  else if status' =? 405 then lit "Method not allowed"
  else if status' =? 429 then lit "Too many requests. Please try again later."
  else lit "Failed to process order. Please try again.".

Definition get_request (e : env) : SubmitOrder.request := {|
  SubmitOrder.method := lit "GET";
  SubmitOrder.header_x_forwarded_for := x_forwarded_for e;
  SubmitOrder.connection_remoteAddress := remoteAddress e;
  SubmitOrder.req_body := VUndefined
|}.

(** ** Further vocabulary: the cart *)

(** The catalog answers, has the product and has it in stock. *)
Definition product_available (e : env) (p : jsstring) : bool :=
  match catalog e with
  | Some cat => from_option Products.inStock false (lookup_product cat p)
  | None => false
  end.

(** The lines of the cart for one product and the quantity they hold. *)
Definition lines_of (p : jsstring) (cart : list cart_item) : list cart_item :=
  List.filter (λ it, bool_decide (productId it = p)) cart.

Definition quantity_of (p : jsstring) (cart : list cart_item) : Z :=
  Zsum (List.map quantity (lines_of p cart)).

Definition in_cart (p : jsstring) (cart : list cart_item) : bool :=
  negb (length (lines_of p cart) =? 0)%nat.

(** One line per product. *)
Definition distinct_lines (cart : list cart_item) : Prop :=
  NoDup (List.map productId cart).

(** What [validateCart] accepts: a cart that is not empty, whose lines
    found in the catalog are all in stock and add up to the minimum. *)
Definition cart_acceptable (e : env) (cat : list Products.product)
    (cart : list cart_item) : bool :=
  negb (length cart =? 0)%nat
  && forallb (λ d, Products.inStock (product d)) (details_of cat cart)
  && (Config.MIN_ORDER_AMOUNT (cfg e) <=? expected_subtotal cat cart).

(** The same environment with the catalog out of reach. *)
Definition without_catalog (e : env) : env := {|
  cfg := cfg e;
  catalog := None;
  storage_writable := storage_writable e;
  clock_iso := clock_iso e;
  clock_year := clock_year e;
  clock_month := clock_month e;
  clock_day := clock_day e;
  random1000 := random1000 e;
  createOrder_ok := createOrder_ok e;
  updateUser_ok := updateUser_ok e;
  network_ok := network_ok e;
  x_forwarded_for := x_forwarded_for e;
  remoteAddress := remoteAddress e;
  server_now := server_now e;
  resend_configured := resend_configured e;
  owner_send := owner_send e;
  customer_send := customer_send e
|}.

(** ** Further vocabulary: patterns and text *)

(** The strings a pattern denotes. *)
Inductive matches : Regex.regex → jsstring → Prop :=
| MEps : matches Regex.Eps []
| MClass (p : N → bool) (c : N) : p c = true → matches (Regex.Class p) [c]
| MSeq (r1 r2 : Regex.regex) (s1 s2 : jsstring) :
    matches r1 s1 → matches r2 s2 → matches (Regex.Seq r1 r2) (s1 ++ s2)
| MAltL (r1 r2 : Regex.regex) (s : jsstring) :
    matches r1 s → matches (Regex.Alt r1 r2) s
| MAltR (r1 r2 : Regex.regex) (s : jsstring) :
    matches r2 s → matches (Regex.Alt r1 r2) s
| MStarNil (r : Regex.regex) : matches (Regex.Star r) []
| MStarApp (r : Regex.regex) (s1 s2 : jsstring) :
    matches r s1 → matches (Regex.Star r) s2 → matches (Regex.Star r) (s1 ++ s2).

(** A ten-digit mobile number: a first digit from 6 to 9, then nine
    digits. *)
Definition mobile_number (s : jsstring) : bool :=
  match s with
  | [] => false
  | c :: rest =>
      ((54 <=? c) && (c <=? 57))%N && forallb Config.digit rest
      && (length rest =? 9)%nat
  end.

(** A stretch of an e-mail address: not empty, no white space, no at
    sign. *)
Definition address_part (s : jsstring) : bool :=
  negb (length s =? 0)%nat && forallb Config.not_space_or_at s.

(** ** Totals on JavaScript numbers *)

Definition lookup_number_product (cat : list NumberCart.product) (productId' : jsstring)
  : option NumberCart.product :=
  List.find (λ p, bool_decide (NumberCart.id p = productId')) cat.

(** The items of the cart whose product the catalog has. *)
Definition number_kept_items (cat : list NumberCart.product)
    (cart : list NumberCart.cart_item) : list NumberCart.cart_item :=
  List.filter (λ it, match lookup_number_product cat (NumberCart.productId it) with
                     | Some _ => true
                     | None => false
                     end) cart.

(** Price times quantity of a kept item. *)
Definition number_line (cat : list NumberCart.product) (it : NumberCart.cart_item)
  : Number.number :=
  match lookup_number_product cat (NumberCart.productId it) with
  | Some p => Number.mul (NumberCart.price p) (NumberCart.quantity it)
  | None => Number.of_Z 0
  end.

(** A sum of numbers, added one after the other from zero. *)
Definition number_sum (l : list Number.number) : Number.number :=
  fold_left Number.add l (Number.of_Z 0).

Definition number_subtotal (cat : list NumberCart.product)
    (cart : list NumberCart.cart_item) : Number.number :=
  number_sum (List.map (number_line cat) (number_kept_items cat cart)).

(** Integer amounts as numbers. *)
Definition product_number (p : Products.product) : NumberCart.product := {|
  NumberCart.id := Products.id p;
  NumberCart.nameEnglish := Products.nameEnglish p;
  NumberCart.price := Number.of_Z (Products.price p);
  NumberCart.inStock := Products.inStock p
|}.

Definition item_number (it : cart_item) : NumberCart.cart_item := {|
  NumberCart.productId := productId it;
  NumberCart.quantity := Number.of_Z (quantity it);
  NumberCart.addedAt := addedAt it
|}.

Definition totals_number (t : totals) : NumberCart.totals := {|
  NumberCart.totals_subtotal := Number.of_Z (totals_subtotal t);
  NumberCart.totals_delivery := Number.of_Z (totals_delivery t);
  NumberCart.totals_total := Number.of_Z (totals_total t)
|}.

(** The largest integer up to which every integer is a number:
    [Number.MAX_SAFE_INTEGER], 2^53 - 1. *)
Definition MAX_SAFE_INTEGER : Z := 9007199254740991.

(** Amounts in whole rupees and whole units, none negative, whose total
    stays within the integers that numbers hold exactly. *)
Definition amounts_safe (c : Config.config) (cat : list Products.product)
    (cart : list cart_item) : Prop :=
  Forall (λ p, 0 ≤ Products.price p ≤ MAX_SAFE_INTEGER) cat
  ∧ Forall (λ it, 0 ≤ quantity it ≤ MAX_SAFE_INTEGER) cart
  ∧ 0 ≤ Config.DELIVERY_CHARGE c
  ∧ expected_subtotal cat cart + Config.DELIVERY_CHARGE c ≤ MAX_SAFE_INTEGER.

(** What [validateCart] accepts, on numbers: a subtotal that is not below
    the minimum, as numbers compare. *)
Definition number_cart_acceptable (c : Config.config) (cat : list NumberCart.product)
    (cart : list NumberCart.cart_item) : bool :=
  negb (length cart =? 0)%nat
  && forallb (λ it, match lookup_number_product cat (NumberCart.productId it) with
                    | Some p => NumberCart.inStock p
                    | None => true
                    end) cart
  && negb (Number.lt (number_subtotal cat cart)
                     (Number.of_Z (Config.MIN_ORDER_AMOUNT c))).

(** Prices of 14.2 and 17.9, and a price beyond the exact integers. *)
Definition number_14_2 : Number.number := SpecFloat.S754_finite false 7993889338582630 (-49).
Definition number_17_9 : Number.number := SpecFloat.S754_finite false 5038402083120742 (-48).

Definition priced (productId' : jsstring) (price' : Number.number) : NumberCart.product := {|
  NumberCart.id := productId';
  NumberCart.nameEnglish := productId';
  NumberCart.price := price';
  NumberCart.inStock := true
|}.

Definition one_of (productId' : jsstring) : NumberCart.cart_item := {|
  NumberCart.productId := productId';
  NumberCart.quantity := Number.of_Z 1;
  NumberCart.addedAt := lit "2026-02-12T10:00:00.000Z"
|}.

(** The join of the cart with the catalog, item by item. *)
Fixpoint number_details_of (cat : list NumberCart.product)
    (cart : list NumberCart.cart_item) : list NumberCart.cart_detail :=
  match cart with
  | [] => []
  | it :: rest =>
      match lookup_number_product cat (NumberCart.productId it) with
      | Some p =>
          {| NumberCart.item := it; NumberCart.product_of := p;
             NumberCart.subtotal :=
               Number.mul (NumberCart.price p) (NumberCart.quantity it) |}
          :: number_details_of cat rest
      | None => number_details_of cat rest
      end
  end.

(** The canonical form of a positive integer below 2^53. *)
Definition canon (s : bool) (n : positive) : Number.number :=
  SpecFloat.S754_finite s (Z.to_pos (Zpos n * 2 ^ (53 - Zpos (SpecFloat.digits2_pos n))))
              (Zpos (SpecFloat.digits2_pos n) - 53).


(** * Properties *)

(** ** Input sanitising *)

Section Sanitize.

Lemma entity_is_clean (c : N) :
  Utils.special c = true →
  Forall (λ x, x ∉ markup_chars) (Utils.entity Utils.entity_map c).
Proof.
  unfold Utils.special. cbn [existsb]. rewrite !orb_true_iff.
  intros H.
  repeat match goal with
         | H : _ ∨ _ |- _ => destruct H as [H | H]
         end;
    try discriminate;
    apply N.eqb_eq in H; rewrite H;
    apply (bool_decide_unpack _); vm_compute; exact I.
Qed.

Lemma plain_is_clean (c : N) :
  Utils.special c = false → c ∉ markup_chars.
Proof.
  unfold Utils.special, markup_chars. cbn [existsb].
  rewrite !orb_false_iff. intros (_ & Hlt & Hgt & Hdq & Hsq & Hsl & _) Hin.
  apply N.eqb_neq in Hlt, Hgt, Hdq, Hsq, Hsl.
  repeat match goal with
         | H : _ ∈ _ :: _ |- _ => apply elem_of_cons in H as [H | H]; [congruence |]
         | H : _ ∈ [] |- _ => apply elem_of_nil in H; contradiction
         end.
Qed.

Lemma replace_class_clean (s : jsstring) :
  Forall (λ x, x ∉ markup_chars)
         (Utils.replace_class Utils.special (Utils.entity Utils.entity_map) s).
Proof.
  induction s as [| c rest IH]; cbn [Utils.replace_class]; [constructor |].
  apply Forall_app. split; [| exact IH].
  destruct (Utils.special c) eqn:Hc.
  - by apply entity_is_clean.
  - constructor; [by apply plain_is_clean | constructor].
Qed.

(** C10. [sanitizeInput] is defined on every value: on anything that is not
    a string it returns the empty string, and on a string its result holds
    none of the characters less-than, greater-than, double quote, single
    quote and slash. *)
Theorem sanitizeInput_total_and_clean (input : value) :
  (is_string input = false → Utils.sanitizeInput input = []) ∧
  (∀ c, c ∈ Utils.sanitizeInput input → c ∉ markup_chars).
Proof.
  split.
  - destruct input; cbn; intros; congruence.
  - intros c Hc. destruct input; cbn in Hc;
      try (apply elem_of_nil in Hc; contradiction).
    pose proof (replace_class_clean s) as Hall.
    rewrite Forall_forall in Hall. by apply Hall.
Qed.

Lemma sanitizeInput_total_and_clean_witness :
  Utils.sanitizeInput (VNum 5%Q) = [] ∧
  ch "<" ∉ Utils.sanitizeInput (VStr (lit "<script>alert('XSS')</script>")).
Proof.
  split.
  - apply (sanitizeInput_total_and_clean (VNum 5%Q)). reflexivity.
  - intros Hin.
    apply (proj2 (sanitizeInput_total_and_clean
                    (VStr (lit "<script>alert('XSS')</script>"))) _ Hin).
    unfold markup_chars. apply elem_of_cons. by left.
Defined.

Example sanitizeInput_docstring :
  Utils.sanitizeInput (VStr (lit "<b>'a'/&</b>"))
  = lit "&lt;b&gt;&#x27;a&#x27;&#x2F;&amp;&lt;&#x2F;b&gt;".
Proof. vm_compute. reflexivity. Qed.

End Sanitize.

(** ** Cart totals *)

Section Totals.

Context (e : env) (cat : list Products.product).
Hypothesis catalog_loaded : catalog e = Some cat.

Lemma getProductById_loaded (productId' : jsstring) (w : world) :
  getProductById productId' e w = (Ok (lookup_product cat productId'), w).
Proof.
  unfold getProductById, fetchProducts, bind, ask.
  rewrite catalog_loaded. reflexivity.
Qed.

Lemma details_loop_loaded (cart : list cart_item) (acc : list cart_detail) (w : world) :
  Cart.details_loop cart acc e w = (Ok (acc ++ details_of cat cart), w).
Proof.
  revert acc. induction cart as [| it rest IH]; intros acc; cbn [Cart.details_loop details_of].
  - unfold ret. by rewrite app_nil_r.
  - unfold bind at 1. rewrite getProductById_loaded.
    destruct (lookup_product cat (productId it)) as [p |].
    + rewrite IH. by rewrite <- app_assoc.
    + apply IH.
Qed.

Lemma getCartWithDetails_loaded (w : world) :
  Cart.getCartWithDetails e w = (Ok (details_of cat (default [] (cart_slot w))), w).
Proof.
  unfold Cart.getCartWithDetails, Cart.getCart, bind, read_cart_slot, ret.
  apply details_loop_loaded.
Qed.

Lemma details_items (cart : list cart_item) :
  List.map item (details_of cat cart) = kept_items cat cart.
Proof.
  unfold kept_items, in_catalog.
  induction cart as [| it rest IH]; cbn [details_of List.filter List.map]; [done |].
  destruct (lookup_product cat (productId it)); cbn [List.map]; by rewrite IH.
Qed.

Lemma details_lines (cart : list cart_item) :
  Forall (λ d, lookup_product cat (productId (item d)) = Some (product d)
               ∧ subtotal d = Products.price (product d) * quantity (item d))
         (details_of cat cart).
Proof.
  induction cart as [| it rest IH]; cbn [details_of]; [constructor |].
  destruct (lookup_product cat (productId it)) as [p |] eqn:Hp; [| exact IH].
  constructor; [| exact IH]. cbn. by split.
Qed.

Lemma reduce_subtotals (ds : list cart_detail) (start : Z) :
  fold_left (λ sum d, sum + subtotal d) ds start
  = start + Zsum (List.map subtotal ds).
Proof.
  revert start. induction ds as [| d rest IH]; intros start; cbn.
  - lia.
  - rewrite IH. unfold Zsum. lia.
Qed.

Lemma details_subtotals (cart : list cart_item) :
  List.map subtotal (details_of cat cart)
  = List.map (λ it, unit_price cat it * quantity it) (kept_items cat cart).
Proof.
  unfold kept_items, in_catalog, unit_price.
  induction cart as [| it rest IH]; cbn [details_of List.filter List.map]; [done |].
  destruct (lookup_product cat (productId it)) as [p |] eqn:Hp; [| exact IH].
  cbn [List.map subtotal]. rewrite Hp. cbn. by rewrite IH.
Qed.

Lemma calculateSubtotal_loaded (w : world) :
  Cart.calculateSubtotal e w
  = (Ok (expected_subtotal cat (default [] (cart_slot w))), w).
Proof.
  unfold Cart.calculateSubtotal, bind. rewrite getCartWithDetails_loaded.
  unfold ret. rewrite reduce_subtotals, details_subtotals. reflexivity.
Qed.

Lemma calculateDeliveryCharge_flat (c : Config.config) (s : Z) :
  Cart.calculateDeliveryCharge c s = Config.DELIVERY_CHARGE c.
Proof. unfold Cart.calculateDeliveryCharge. by destruct (_ <=? _). Qed.

Lemma calculateTotal_loaded (w : world) :
  Cart.calculateTotal e w
  = (Ok {| totals_subtotal := expected_subtotal cat (default [] (cart_slot w));
           totals_delivery := Config.DELIVERY_CHARGE (cfg e);
           totals_total := expected_subtotal cat (default [] (cart_slot w))
                           + Config.DELIVERY_CHARGE (cfg e) |}, w).
Proof.
  unfold Cart.calculateTotal, bind. rewrite calculateSubtotal_loaded.
  unfold ask, ret. by rewrite calculateDeliveryCharge_flat.
Qed.

End Totals.

(** ** Numbers: integers below 2^53 are exact *)

Section Doubles.
Import SpecFloat Number.

Lemma iter_pos_nat {A} (f : A → A) (p : positive) (x : A) :
  iter_pos f p x = Nat.iter (Pos.to_nat p) f x.
Proof.
  revert x. induction p as [p IH | p IH |]; intros x; cbn [iter_pos].
  - rewrite !IH, Pos2Nat.inj_xI, <- Nat.iter_add, <- Nat.iter_succ_r.
    f_equal. lia.
  - rewrite !IH, Pos2Nat.inj_xO, <- Nat.iter_add. f_equal. lia.
  - done.
Qed.

Lemma shr_1_double (z : Z) :
  0 < z →
  shr_1 {| shr_m := 2 * z; shr_r := false; shr_s := false |}
  = {| shr_m := z; shr_r := false; shr_s := false |}.
Proof. destruct z; [lia | done | lia]. Qed.

Lemma iter_shr_1_exact (k : nat) (z : Z) :
  0 < z →
  Nat.iter k shr_1 {| shr_m := z * 2 ^ Z.of_nat k; shr_r := false; shr_s := false |}
  = {| shr_m := z; shr_r := false; shr_s := false |}.
Proof.
  intros Hz. induction k as [| k IH].
  - cbn [Nat.iter Z.of_nat]. by rewrite Z.pow_0_r, Z.mul_1_r.
  - rewrite Nat.iter_succ_r, Nat2Z.inj_succ, Z.pow_succ_r by lia.
    replace (z * (2 * 2 ^ Z.of_nat k)) with (2 * (z * 2 ^ Z.of_nat k)) by lia.
    rewrite shr_1_double; [exact IH |].
    apply Z.mul_pos_pos; [done | by apply Z.pow_pos_nonneg; lia].
Qed.

(** Shifting out [k] zero bits is exact. *)
Lemma shr_exact (z e k : Z) :
  0 < z → 0 ≤ k →
  shr {| shr_m := z * 2 ^ k; shr_r := false; shr_s := false |} e k
  = ({| shr_m := z; shr_r := false; shr_s := false |}, e + k).
Proof.
  intros Hz Hk. destruct k as [| p | p]; [| | lia].
  - cbn [shr]. by rewrite Z.pow_0_r, Z.mul_1_r, Z.add_0_r.
  - cbn [shr]. f_equal. rewrite iter_pos_nat.
    rewrite <- (positive_nat_Z p) at 1. by apply iter_shr_1_exact.
Qed.

Lemma digits2_pos_spec (p : positive) :
  2 ^ (Zpos (digits2_pos p) - 1) ≤ Zpos p < 2 ^ Zpos (digits2_pos p).
Proof.
  induction p as [p IH | p IH |]; cbn [digits2_pos].
  - rewrite Pos2Z.inj_succ.
    replace (Z.succ (Zpos (digits2_pos p)) - 1) with (Z.succ (Zpos (digits2_pos p) - 1)) by lia.
    rewrite !Z.pow_succ_r by lia. lia.
  - rewrite Pos2Z.inj_succ.
    replace (Z.succ (Zpos (digits2_pos p)) - 1) with (Z.succ (Zpos (digits2_pos p) - 1)) by lia.
    rewrite !Z.pow_succ_r by lia. lia.
  - cbn. lia.
Qed.

Lemma digits2_pos_unique (p : positive) (d : Z) :
  2 ^ (d - 1) ≤ Zpos p < 2 ^ d → Zpos (digits2_pos p) = d.
Proof.
  intros [Hlo Hhi]. pose proof (digits2_pos_spec p) as [Hlo' Hhi'].
  assert (0 < d) as Hd.
  { destruct (Z.lt_trichotomy d 0) as [Hneg | [-> | Hpos]]; [| cbn in Hhi; lia | done].
    rewrite Z.pow_neg_r in Hhi by done. lia. }
  destruct (Z.lt_trichotomy (Zpos (digits2_pos p)) d) as [Hlt | [Heq | Hgt]]; [| done |].
  - assert (2 ^ Zpos (digits2_pos p) ≤ 2 ^ (d - 1)) by (apply Z.pow_le_mono_r; lia). lia.
  - assert (2 ^ d ≤ 2 ^ (Zpos (digits2_pos p) - 1)) by (apply Z.pow_le_mono_r; lia). lia.
Qed.

Lemma digits2_pos_shift (p q : positive) (k : Z) :
  0 ≤ k → Zpos q = Zpos p * 2 ^ k →
  Zpos (digits2_pos q) = Zpos (digits2_pos p) + k.
Proof.
  intros Hk Hq. apply digits2_pos_unique. rewrite Hq.
  pose proof (digits2_pos_spec p) as [Hlo Hhi].
  replace (Zpos (digits2_pos p) + k - 1) with (Zpos (digits2_pos p) - 1 + k) by lia.
  rewrite !Z.pow_add_r by lia.
  assert (0 < 2 ^ k) by (apply Z.pow_pos_nonneg; lia). nia.
Qed.

Lemma digits_le_53 (n : positive) : Zpos n < 2 ^ 53 → Zpos (digits2_pos n) ≤ 53.
Proof.
  intros Hn. pose proof (digits2_pos_spec n) as [Hlo _].
  destruct (Z.le_gt_cases (Zpos (digits2_pos n)) 53) as [| Hgt]; [done |].
  assert (2 ^ 53 ≤ 2 ^ (Zpos (digits2_pos n) - 1)) by (apply Z.pow_le_mono_r; lia). lia.
Qed.

(** Rounding a mantissa of at least 53 digits whose value is an integer
    below 2^53 changes nothing. *)
Lemma binary_round_aux_exact (s : bool) (m n : positive) (e : Z) :
  e ≤ 0 → Zpos m = Zpos n * 2 ^ (- e) → Zpos n < 2 ^ 53 →
  53 ≤ Zpos (digits2_pos m) →
  binary_round_aux 53 1024 s (Zpos m) e loc_Exact = canon s n.
Proof.
  intros He Hm Hn Hdigits.
  pose proof (digits_le_53 n Hn) as Hd.
  pose proof (Pos2Z.is_pos (digits2_pos n)) as Hd0.
  assert (Zpos (digits2_pos m) = Zpos (digits2_pos n) + - e) as Hdm
    by (apply digits2_pos_shift; [lia | done]).
  unfold canon.
  set (d := Zpos (digits2_pos n)) in *.
  assert (0 < Zpos n * 2 ^ (53 - d)) as Hpos.
  { apply Z.mul_pos_pos; [done | apply Z.pow_pos_nonneg; lia]. }
  destruct (Zpos n * 2 ^ (53 - d)) as [| pm | pm] eqn:Hpm; [lia | | lia].
  cbn [Z.to_pos].
  assert (Zpos (digits2_pos pm) = 53) as Hdpm.
  { rewrite (digits2_pos_shift n pm (53 - d)); [fold d; lia | lia | done]. }
  unfold binary_round_aux, shr_fexp. cbn [Zdigits2 shr_record_of_loc].
  rewrite Hdm. unfold fexp, emin.
  replace (Z.max (d + - e + e - 53) (3 - 1024 - 53) - e) with (d - 53 - e) by lia.
  assert (Zpos m = Zpos pm * 2 ^ (d - 53 - e)) as ->.
  { rewrite Hm, <- Hpm, <- Z.mul_assoc, <- Z.pow_add_r by lia.
    do 2 f_equal. lia. }
  rewrite shr_exact by lia.
  cbn [shr_m shr_r shr_s loc_of_shr_record round_nearest_even Zdigits2].
  rewrite Hdpm.
  replace (Z.max (53 + (e + (d - 53 - e)) - 53) (3 - 1024 - 53) - (e + (d - 53 - e)))
    with 0 by lia.
  cbn [shr shr_m].
  assert ((e + (d - 53 - e) <=? 1024 - 53) = true) as -> by (apply Z.leb_le; lia).
  f_equal. lia.
Qed.

Lemma iter_xO (m : positive) (k : positive) :
  Zpos (Pos.iter xO m k) = Zpos m * 2 ^ Zpos k.
Proof.
  rewrite Pos2Nat.inj_iter, <- (positive_nat_Z k).
  induction (Pos.to_nat k) as [| j IH]; cbn [nat_rect].
  - cbn [Z.of_nat]. by rewrite Z.pow_0_r, Z.mul_1_r.
  - rewrite Nat2Z.inj_succ, Z.pow_succ_r, Pos2Z.inj_xO, IH by lia. lia.
Qed.

Lemma binary_round_exact (s : bool) (m n : positive) (e : Z) :
  e ≤ 0 → Zpos m = Zpos n * 2 ^ (- e) → Zpos n < 2 ^ 53 →
  binary_round 53 1024 s m e = canon s n.
Proof.
  intros He Hm Hn.
  pose proof (digits_le_53 n Hn) as Hd.
  pose proof (Pos2Z.is_pos (digits2_pos n)) as Hd0.
  assert (Zpos (digits2_pos m) = Zpos (digits2_pos n) + - e) as Hdm
    by (apply digits2_pos_shift; [lia | done]).
  unfold binary_round, shl_align. rewrite Hdm. unfold fexp, emin.
  set (d := Zpos (digits2_pos n)) in *.
  replace (Z.max (d + - e + e - 53) (3 - 1024 - 53)) with (d - 53) by lia.
  destruct (d - 53 - e) as [| k | k] eqn:Hk.
  - apply binary_round_aux_exact; try done. lia.
  - apply binary_round_aux_exact; try done. lia.
  - pose proof (iter_xO m k) as Hshift.
    apply binary_round_aux_exact; try done; [lia | |].
    + rewrite Hshift, Hm, <- Z.mul_assoc, <- Z.pow_add_r by lia.
      do 2 f_equal. lia.
    + rewrite (digits2_pos_shift m _ (Zpos k)); [lia | lia | done].
Qed.

Lemma of_Z_canon (n : positive) :
  Zpos n < 2 ^ 53 → of_Z (Zpos n) = canon false n.
Proof.
  intros Hn. unfold of_Z, binary_normalize.
  apply binary_round_exact; [lia | | done].
  cbn. lia.
Qed.

(** Addition and multiplication of non-negative integers are exact as long
    as the result stays below 2^53. *)
Lemma mul_exact (a b : Z) :
  0 ≤ a < 2 ^ 53 → 0 ≤ b < 2 ^ 53 → a * b < 2 ^ 53 →
  mul (of_Z a) (of_Z b) = of_Z (a * b).
Proof.
  intros Ha Hb Hab.
  destruct a as [| a | a]; [| | lia].
  { destruct b as [| b | b]; [done | | lia].
    rewrite of_Z_canon by lia. done. }
  destruct b as [| b | b]; [| | lia].
  { rewrite Z.mul_0_r, of_Z_canon by lia. done. }
  rewrite !of_Z_canon by lia.
  change (Zpos a * Zpos b) with (Zpos (a * b)) in *.
  rewrite of_Z_canon by lia.
  unfold mul, SFmul, canon. cbn [xorb].
  pose proof (digits_le_53 a ltac:(lia)) as Hda.
  pose proof (digits_le_53 b ltac:(lia)) as Hdb.
  pose proof (Pos2Z.is_pos (digits2_pos a)) as Hda0.
  pose proof (Pos2Z.is_pos (digits2_pos b)) as Hdb0.
  set (da := Zpos (digits2_pos a)) in *. set (db := Zpos (digits2_pos b)) in *.
  assert (0 < 2 ^ (53 - da)) as Hpa by (apply Z.pow_pos_nonneg; lia).
  assert (0 < 2 ^ (53 - db)) as Hpb by (apply Z.pow_pos_nonneg; lia).
  apply binary_round_aux_exact; [lia | | done |].
  - rewrite Pos2Z.inj_mul, !Z2Pos.id by nia.
    replace (- (da - 53 + (db - 53))) with ((53 - da) + (53 - db)) by lia.
    rewrite Z.pow_add_r by lia. rewrite Pos2Z.inj_mul. lia.
  - rewrite (digits2_pos_shift (a * b) _ ((53 - da) + (53 - db))); [| lia |].
    + pose proof (digits2_pos_spec a) as [Hloa _].
      pose proof (digits2_pos_spec b) as [Hlob _].
      fold da in Hloa. fold db in Hlob.
      pose proof (digits2_pos_spec (a * b)) as [_ Hhi].
      destruct (Z.le_gt_cases (da + db - 1) (Zpos (digits2_pos (a * b)))) as [| Hgt]; [lia |].
      assert (2 ^ Zpos (digits2_pos (a * b)) ≤ 2 ^ (da + db - 2)) as Hle
        by (apply Z.pow_le_mono_r; lia).
      replace (da + db - 2) with ((da - 1) + (db - 1)) in Hle by lia.
      rewrite Z.pow_add_r in Hle by lia.
      rewrite Pos2Z.inj_mul in Hhi. nia.
    + rewrite Pos2Z.inj_mul, !Z2Pos.id by nia.
      rewrite Z.pow_add_r by lia. rewrite Pos2Z.inj_mul. lia.
Qed.

Lemma add_exact (a b : Z) :
  0 ≤ a → 0 ≤ b → a + b < 2 ^ 53 →
  add (of_Z a) (of_Z b) = of_Z (a + b).
Proof.
  intros Ha Hb Hab.
  destruct a as [| a | a]; [| | lia].
  { destruct b as [| b | b]; [done | | lia].
    rewrite Z.add_0_l, of_Z_canon by lia. done. }
  destruct b as [| b | b]; [| | lia].
  { rewrite Z.add_0_r, of_Z_canon by lia. done. }
  rewrite !of_Z_canon by lia.
  change (Zpos a + Zpos b) with (Zpos (a + b)) in *.
  rewrite of_Z_canon by lia.
  unfold add, SFadd, canon. cbn [cond_Zopp].
  pose proof (digits_le_53 a ltac:(lia)) as Hda.
  pose proof (digits_le_53 b ltac:(lia)) as Hdb.
  pose proof (Pos2Z.is_pos (digits2_pos a)) as Hda0.
  pose proof (Pos2Z.is_pos (digits2_pos b)) as Hdb0.
  set (da := Zpos (digits2_pos a)) in *. set (db := Zpos (digits2_pos b)) in *.
  assert (0 < 2 ^ (53 - da)) as Hpa by (apply Z.pow_pos_nonneg; lia).
  assert (0 < 2 ^ (53 - db)) as Hpb by (apply Z.pow_pos_nonneg; lia).
  set (ez := Z.min (da - 53) (db - 53)).
  assert (∀ (x : positive) dx, 0 < dx ≤ 53 → ez ≤ dx - 53 →
            Zpos (fst (shl_align (Z.to_pos (Zpos x * 2 ^ (53 - dx))) (dx - 53) ez))
            = Zpos x * 2 ^ (- ez)) as Halign.
  { intros x dx Hdx Hez.
    assert (0 < 2 ^ (53 - dx)) by (apply Z.pow_pos_nonneg; lia).
    unfold shl_align. destruct (ez - (dx - 53)) as [| k | k] eqn:Hk; cbn [fst].
    - rewrite Z2Pos.id by nia. do 2 f_equal. lia.
    - lia.
    - rewrite iter_xO, Z2Pos.id by nia.
      rewrite <- Z.mul_assoc, <- Z.pow_add_r by lia. do 2 f_equal. lia. }
  rewrite (Halign a da), (Halign b db) by lia.
  assert (0 < 2 ^ (- ez)) as Hpz by (apply Z.pow_pos_nonneg; lia).
  destruct (Zpos a * 2 ^ (- ez) + Zpos b * 2 ^ (- ez)) as [| pm | pm] eqn:Hpm; [nia | | nia].
  cbn [binary_normalize].
  apply binary_round_exact; [lia | | done].
  rewrite <- Hpm, Pos2Z.inj_add. lia.
Qed.

Lemma of_Z_compare (a b : Z) :
  0 ≤ a < 2 ^ 53 → 0 ≤ b < 2 ^ 53 →
  SFcompare (of_Z a) (of_Z b) = Some (a ?= b).
Proof.
  intros Ha Hb.
  destruct a as [| a | a]; [| | lia].
  { destruct b as [| b | b]; [done | | lia]. by rewrite of_Z_canon by lia. }
  destruct b as [| b | b]; [| | lia].
  { by rewrite of_Z_canon by lia. }
  rewrite !of_Z_canon by lia. unfold canon. cbn [SFcompare].
  pose proof (digits_le_53 a ltac:(lia)) as Hda.
  pose proof (digits_le_53 b ltac:(lia)) as Hdb.
  pose proof (digits2_pos_spec a) as [Hloa Hhia].
  pose proof (digits2_pos_spec b) as [Hlob Hhib].
  set (da := Zpos (digits2_pos a)) in *. set (db := Zpos (digits2_pos b)) in *.
  f_equal. change (Zpos a ?= Zpos b) with (a ?= b)%positive.
  destruct (Z.compare_spec (da - 53) (db - 53)) as [Heq | Hlt | Hgt].
  - assert (da = db) as Hd by lia. rewrite Hd.
    assert (0 < 2 ^ (53 - db)) as Hp by (apply Z.pow_pos_nonneg; lia).
    change (Pos.compare_cont Eq) with Pos.compare.
    rewrite !Z2Pos.inj_mul by lia. cbn [Z.to_pos].
    apply Pos.mul_compare_mono_r.
  - symmetry. apply Pos.compare_lt_iff.
    assert (2 ^ da ≤ 2 ^ (db - 1)) by (apply Z.pow_le_mono_r; lia). lia.
  - symmetry. apply Pos.compare_gt_iff.
    assert (2 ^ db ≤ 2 ^ (da - 1)) by (apply Z.pow_le_mono_r; lia). lia.
Qed.

Lemma lt_exact (a b : Z) :
  0 ≤ a < 2 ^ 53 → 0 ≤ b < 2 ^ 53 → lt (of_Z a) (of_Z b) = (a <? b).
Proof.
  intros Ha Hb. unfold lt, SFltb. rewrite of_Z_compare by done.
  unfold Z.ltb. by destruct (a ?= b).
Qed.

End Doubles.

Section NumberTotals.
Import Number.

Implicit Types (cat : list NumberCart.product) (cart : list NumberCart.cart_item).

Lemma number_details_loop cat cart (acc : list NumberCart.cart_detail) :
  NumberCart.details_loop (Some cat) cart acc = Ok (acc ++ number_details_of cat cart).
Proof.
  revert acc.
  induction cart as [| it rest IH]; intros acc;
    cbn [NumberCart.details_loop number_details_of NumberCart.getProductById].
  - by rewrite app_nil_r.
  - fold (lookup_number_product cat (NumberCart.productId it)).
    destruct (lookup_number_product cat (NumberCart.productId it)) as [p |].
    + rewrite IH. by rewrite <- app_assoc.
    + apply IH.
Qed.

Lemma number_getCartWithDetails cat (stored : option (list NumberCart.cart_item)) :
  NumberCart.getCartWithDetails (Some cat) stored
  = Ok (number_details_of cat (default [] stored)).
Proof. unfold NumberCart.getCartWithDetails. apply number_details_loop. Qed.

Lemma number_details_items cat cart :
  List.map NumberCart.item (number_details_of cat cart) = number_kept_items cat cart.
Proof.
  unfold number_kept_items.
  induction cart as [| it rest IH]; cbn [number_details_of List.filter List.map]; [done |].
  destruct (lookup_number_product cat (NumberCart.productId it));
    cbn [List.map NumberCart.item]; by rewrite IH.
Qed.

Lemma number_details_lines cat cart :
  Forall (λ d, lookup_number_product cat (NumberCart.productId (NumberCart.item d))
               = Some (NumberCart.product_of d)
               ∧ NumberCart.subtotal d
                 = mul (NumberCart.price (NumberCart.product_of d))
                       (NumberCart.quantity (NumberCart.item d)))
         (number_details_of cat cart).
Proof.
  induction cart as [| it rest IH]; cbn [number_details_of]; [constructor |].
  destruct (lookup_number_product cat (NumberCart.productId it)) as [p |] eqn:Hp;
    [| exact IH].
  constructor; [| exact IH]. cbn. by split.
Qed.

Lemma number_details_subtotals cat cart :
  List.map NumberCart.subtotal (number_details_of cat cart)
  = List.map (number_line cat) (number_kept_items cat cart).
Proof.
  unfold number_kept_items, number_line.
  induction cart as [| it rest IH]; cbn [number_details_of List.filter List.map]; [done |].
  destruct (lookup_number_product cat (NumberCart.productId it)) as [p |] eqn:Hp;
    [| exact IH].
  cbn [List.map NumberCart.subtotal]. by rewrite Hp, IH.
Qed.

Lemma number_reduce (ds : list NumberCart.cart_detail) (start : number) :
  fold_left (λ sum d, add sum (NumberCart.subtotal d)) ds start
  = fold_left add (List.map NumberCart.subtotal ds) start.
Proof.
  revert start. induction ds as [| d rest IH]; intros start; cbn [fold_left List.map];
    [done | apply IH].
Qed.

Lemma number_calculateSubtotal cat (stored : option (list NumberCart.cart_item)) :
  NumberCart.calculateSubtotal (Some cat) stored
  = Ok (number_subtotal cat (default [] stored)).
Proof.
  unfold NumberCart.calculateSubtotal. rewrite number_getCartWithDetails.
  by rewrite number_reduce, number_details_subtotals.
Qed.

Lemma number_calculateDeliveryCharge (c : Config.config) (s : number) :
  NumberCart.calculateDeliveryCharge c s = of_Z (Config.DELIVERY_CHARGE c).
Proof. unfold NumberCart.calculateDeliveryCharge. by destruct (ge _ _). Qed.

Lemma number_calculateTotal (c : Config.config) cat
    (stored : option (list NumberCart.cart_item)) :
  NumberCart.calculateTotal c (Some cat) stored
  = Ok {| NumberCart.totals_subtotal := number_subtotal cat (default [] stored);
          NumberCart.totals_delivery := of_Z (Config.DELIVERY_CHARGE c);
          NumberCart.totals_total :=
            add (number_subtotal cat (default [] stored))
                (of_Z (Config.DELIVERY_CHARGE c)) |}.
Proof.
  unfold NumberCart.calculateTotal. rewrite number_calculateSubtotal.
  by rewrite number_calculateDeliveryCharge.
Qed.

(** *** Integer amounts *)

Lemma safe_bound : 2 ^ 53 = MAX_SAFE_INTEGER + 1.
Proof. done. Qed.

Lemma lookup_product_number (zcat : list Products.product) (p : jsstring) :
  lookup_number_product (List.map product_number zcat) p
  = option_map product_number (lookup_product zcat p).
Proof.
  unfold lookup_number_product, lookup_product.
  induction zcat as [| x rest IH]; cbn [List.map List.find]; [done |].
  cbn [product_number NumberCart.id]. by case_bool_decide.
Qed.

Lemma kept_items_number (zcat : list Products.product) (zcart : list cart_item) :
  number_kept_items (List.map product_number zcat) (List.map item_number zcart)
  = List.map item_number (kept_items zcat zcart).
Proof.
  unfold number_kept_items, kept_items, in_catalog.
  induction zcart as [| it rest IH]; cbn [List.map List.filter]; [done |].
  cbn [item_number NumberCart.productId]. rewrite lookup_product_number.
  destruct (lookup_product zcat (productId it)); cbn [option_map List.map]; by rewrite IH.
Qed.

Lemma lookup_product_in (zcat : list Products.product) (p : jsstring)
    (x : Products.product) :
  lookup_product zcat p = Some x → In x zcat.
Proof. unfold lookup_product. intros H. by apply find_some in H as [H _]. Qed.

Lemma Zsum_nonneg (l : list Z) : Forall (λ x, 0 ≤ x) l → 0 ≤ Zsum l.
Proof.
  induction 1 as [| x l Hx _ IH]; [done |].
  change (Zsum (x :: l)) with (x + Zsum l). lia.
Qed.

Lemma number_sum_exact (l : list Z) (acc : Z) :
  0 ≤ acc → Forall (λ x, 0 ≤ x) l → acc + Zsum l < 2 ^ 53 →
  fold_left add (List.map of_Z l) (of_Z acc) = of_Z (acc + Zsum l).
Proof.
  revert acc. induction l as [| x l IH]; intros acc Hacc Hl Hsum.
  - cbn [List.map fold_left]. f_equal. unfold Zsum. cbn. lia.
  - apply Forall_cons in Hl as [Hx Hl].
    pose proof (Zsum_nonneg l Hl) as Hnn.
    change (Zsum (x :: l)) with (x + Zsum l) in *.
    cbn [List.map fold_left]. rewrite add_exact by lia.
    rewrite IH by (done || lia). f_equal. lia.
Qed.

Lemma lines_exact (c : Config.config) (zcat : list Products.product)
    (zcart : list cart_item) :
  amounts_safe c zcat zcart →
  Forall (λ x, 0 ≤ x)
    (List.map (λ it, unit_price zcat it * quantity it) (kept_items zcat zcart))
  ∧ List.map (number_line (List.map product_number zcat))
      (List.map item_number (kept_items zcat zcart))
    = List.map of_Z
        (List.map (λ it, unit_price zcat it * quantity it) (kept_items zcat zcart)).
Proof.
  intros (Hprices & Hquantities & Hdelivery & Htotal).
  unfold expected_subtotal in Htotal.
  assert (Forall (λ it, 0 ≤ unit_price zcat it ≤ MAX_SAFE_INTEGER
                        ∧ 0 ≤ quantity it ≤ MAX_SAFE_INTEGER)
            (kept_items zcat zcart)) as Hkept.
  { apply Forall_forall. intros it Hit.
    apply list_elem_of_In, filter_In in Hit as [Hit Hin].
    split.
    - unfold unit_price, in_catalog in *.
      destruct (lookup_product zcat (productId it)) as [p |] eqn:Hp; [| done].
      cbn [from_option]. rewrite Forall_forall in Hprices.
      apply Hprices, list_elem_of_In. by apply (lookup_product_in _ _ _ Hp).
    - rewrite Forall_forall in Hquantities. by apply Hquantities, list_elem_of_In. }
  assert (Forall (λ it, in_catalog zcat it = true) (kept_items zcat zcart)) as Hfound.
  { apply Forall_forall. intros it Hit.
    by apply list_elem_of_In, filter_In in Hit as [_ Hit]. }
  revert Htotal Hkept Hfound.
  generalize (kept_items zcat zcart) as kept. intros kept.
  induction kept as [| it rest IH]; intros Htotal Hkept Hfound; [by split |].
  apply Forall_cons in Hkept as [[Hprice Hquantity] Hkept].
  apply Forall_cons in Hfound as [Hit Hfound].
  cbn [List.map] in *.
  change (Zsum (?x :: ?l)) with (x + Zsum l) in Htotal.
  assert (0 ≤ unit_price zcat it * quantity it) as Hline by nia.
  destruct IH as [IHnn IHeq]; [| done | done |].
  { lia. }
  pose proof (Zsum_nonneg _ IHnn) as Hrest.
  split; [by constructor |]. f_equal; [| exact IHeq].
  unfold number_line, unit_price, in_catalog in *.
  cbn [item_number NumberCart.productId NumberCart.quantity].
  rewrite lookup_product_number.
  destruct (lookup_product zcat (productId it)) as [p |]; [| done].
  cbn [option_map product_number NumberCart.price from_option] in *.
  apply mul_exact; rewrite safe_bound; lia.
Qed.

Lemma number_subtotal_exact (c : Config.config) (zcat : list Products.product)
    (zcart : list cart_item) :
  amounts_safe c zcat zcart →
  number_subtotal (List.map product_number zcat) (List.map item_number zcart)
  = of_Z (expected_subtotal zcat zcart)
  ∧ 0 ≤ expected_subtotal zcat zcart.
Proof.
  intros Hsafe. destruct (lines_exact c zcat zcart Hsafe) as [Hnn Heq].
  destruct Hsafe as (_ & _ & Hdelivery & Htotal).
  pose proof (Zsum_nonneg _ Hnn) as Hsum. fold (expected_subtotal zcat zcart) in Hsum.
  split; [| done].
  unfold number_subtotal, number_sum. rewrite kept_items_number, Heq.
  rewrite number_sum_exact; [done | done | done |].
  fold (expected_subtotal zcat zcart). rewrite safe_bound. lia.
Qed.

(** The totals that [Cart] computes on integers are the totals on
    numbers. *)
Lemma calculateTotal_on_integers (e : env) (w : world) (zcat : list Products.product) :
  catalog e = Some zcat →
  amounts_safe (cfg e) zcat (stored_cart w) →
  ∃ t, Cart.calculateTotal e w = (Ok t, w)
       ∧ NumberCart.calculateTotal (cfg e) (Some (List.map product_number zcat))
           (Some (List.map item_number (stored_cart w)))
         = Ok (totals_number t).
Proof.
  intros Hcat Hsafe. eexists. split; [by apply calculateTotal_loaded |].
  rewrite number_calculateTotal. cbn [default from_option id].
  destruct (number_subtotal_exact (cfg e) zcat (stored_cart w) Hsafe) as [-> Hnn].
  destruct Hsafe as (_ & _ & Hdelivery & Htotal).
  unfold totals_number. cbn [totals_subtotal totals_delivery totals_total].
  rewrite add_exact; [done | done | done |]. rewrite safe_bound. lia.
Qed.

End NumberTotals.

(** C2. For every cart and every catalog of JavaScript numbers, the join
    drops exactly the items whose product the catalog lacks and keeps the
    others in order, each line carrying price times quantity; the subtotal
    is the sum of these lines, added in the order of the cart, the delivery
    charge is the configured flat value whatever the subtotal, and the total
    is their sum.  Products and sums are those of the numbers; when prices
    and quantities are non-negative integers and the total does not exceed
    2^53 - 1, they are the exact ones. *)
Theorem computeTotals_correct (c : Config.config) (cat : list NumberCart.product)
    (stored : option (list NumberCart.cart_item)) :
  (∃ details,
      NumberCart.getCartWithDetails (Some cat) stored = Ok details
      ∧ List.map NumberCart.item details = number_kept_items cat (default [] stored)
      ∧ Forall (λ d, lookup_number_product cat (NumberCart.productId (NumberCart.item d))
                     = Some (NumberCart.product_of d)
                     ∧ NumberCart.subtotal d
                       = Number.mul (NumberCart.price (NumberCart.product_of d))
                                    (NumberCart.quantity (NumberCart.item d)))
               details)
  ∧ (∀ s, NumberCart.calculateDeliveryCharge c s
          = Number.of_Z (Config.DELIVERY_CHARGE c))
  ∧ NumberCart.calculateTotal c (Some cat) stored
    = Ok {| NumberCart.totals_subtotal := number_subtotal cat (default [] stored);
            NumberCart.totals_delivery := Number.of_Z (Config.DELIVERY_CHARGE c);
            NumberCart.totals_total :=
              Number.add (number_subtotal cat (default [] stored))
                         (Number.of_Z (Config.DELIVERY_CHARGE c)) |}
  ∧ (∀ (zcat : list Products.product) (zcart : list cart_item),
       cat = List.map product_number zcat →
       default [] stored = List.map item_number zcart →
       amounts_safe c zcat zcart →
       NumberCart.calculateTotal c (Some cat) stored
       = Ok {| NumberCart.totals_subtotal := Number.of_Z (expected_subtotal zcat zcart);
               NumberCart.totals_delivery := Number.of_Z (Config.DELIVERY_CHARGE c);
               NumberCart.totals_total :=
                 Number.of_Z (expected_subtotal zcat zcart
                              + Config.DELIVERY_CHARGE c) |}).
Proof.
  split; [| split; [| split]].
  - exists (number_details_of cat (default [] stored)). split; [| split].
    + apply number_getCartWithDetails.
    + apply number_details_items.
    + apply number_details_lines.
  - intros s. apply number_calculateDeliveryCharge.
  - apply number_calculateTotal.
  - intros zcat zcart -> Hcart Hsafe.
    rewrite number_calculateTotal, Hcart.
    destruct (number_subtotal_exact c zcat zcart Hsafe) as [-> Hnn].
    destruct Hsafe as (_ & _ & Hdelivery & Htotal).
    rewrite add_exact; [done | done | done |]. rewrite safe_bound. lia.
Qed.

(** The scenario of the specification: two units of ghee at 800 with a
    delivery charge of 0; an item of a product that left the catalog does
    not count. *)
Lemma computeTotals_correct_witness :
  NumberCart.calculateTotal Config.CONFIG (Some (List.map product_number [ghee; milk]))
    (Some (List.map item_number
             [cart_of (lit "buffalo-ghee") 2; cart_of (lit "paneer") 3]))
  = Ok {| NumberCart.totals_subtotal := Number.of_Z 1600;
          NumberCart.totals_delivery := Number.of_Z 0;
          NumberCart.totals_total := Number.of_Z 1600 |}.
Proof.
  destruct (computeTotals_correct Config.CONFIG (List.map product_number [ghee; milk])
              (Some (List.map item_number
                       [cart_of (lit "buffalo-ghee") 2; cart_of (lit "paneer") 3])))
    as (_ & _ & _ & Hexact).
  apply (Hexact [ghee; milk] [cart_of (lit "buffalo-ghee") 2; cart_of (lit "paneer") 3]);
    [reflexivity | reflexivity |].
  unfold amounts_safe, MAX_SAFE_INTEGER.
  split; [| split; [| split]]; [repeat constructor; cbn; lia.. | done | by vm_compute].
Defined.

(** Beyond 2^53 the products and sums are rounded: three units at
    3002399751580331 come to 9007199254740992, one less than the exact
    product.  With fractional prices the order of the additions shows:
    14.2, 17.9 and 17.9 add up to 49.99999999999999. *)
Example totals_are_rounded :
  NumberCart.calculateSubtotal
    (Some [priced (lit "gold") (Number.of_Z 3002399751580331)])
    (Some [ {| NumberCart.productId := lit "gold";
               NumberCart.quantity := Number.of_Z 3;
               NumberCart.addedAt := [] |} ])
  = Ok (Number.of_Z 9007199254740992)
  ∧ 3002399751580331 * 3 = 9007199254740993
  ∧ NumberCart.calculateSubtotal
      (Some [priced (lit "a") number_14_2; priced (lit "b") number_17_9;
             priced (lit "c") number_17_9])
      (Some [one_of (lit "a"); one_of (lit "b"); one_of (lit "c")])
    = Ok (SpecFloat.S754_finite false 7036874417766399 (-47)).
Proof. vm_compute. repeat split. Qed.

(** ** Cart quantities *)

Section Quantities.








End Quantities.

Section QuantityClaims.

Lemma filter_length_le_cart (keep : cart_item → bool) (cart : list cart_item) :
  (length (List.filter keep cart) ≤ length cart)%nat.
Proof.
  induction cart as [| it rest IH]; cbn; [lia |].
  destruct (keep it); cbn; lia.
Qed.








End QuantityClaims.

(** ** The checkout form *)

Section CheckoutForm.
Import SubmitOrder Checkout.

Lemma push_if_true_invalid (message : string) (errs : list jsstring) :
  (length (push_if true message errs) =? 0)%nat = false
  ∧ lit message ∈ push_if true message errs.
Proof.
  unfold push_if. split.
  - apply Nat.eqb_neq. rewrite length_app. cbn. lia.
  - apply elem_of_app. right. apply elem_of_cons. by left.
Qed.

(** C9, as the code has it.  A form without a delivery slot, or with the
    empty one, is invalid and is told to select a slot; for any two
    non-empty slots, listed in the configuration or not, the validation
    gives the same result. *)
Theorem deliverySlot_only_required (f : Form.form) :
  (truthy (field (Form.deliverySlot f)) = false →
     isValid (validateCheckoutForm f) = false
     ∧ lit "Please select a delivery time slot" ∈ errors (validateCheckoutForm f))
  ∧ (∀ slot slot', slot ≠ [] → slot' ≠ [] →
       validateCheckoutForm (form_with_slot f (Some slot))
       = validateCheckoutForm (form_with_slot f (Some slot'))).
Proof.
  split.
  - intros Hslot. unfold validateCheckoutForm. cbn [isValid errors].
    rewrite Hslot. cbn [negb]. apply push_if_true_invalid.
  - intros slot slot' Hs Hs'. unfold validateCheckoutForm, form_with_slot.
    cbn [Form.name Form.phone Form.email Form.address Form.deliverySlot field truthy].
    rewrite !bool_decide_eq_false_2 by done. reflexivity.
Qed.

Lemma deliverySlot_only_required_witness :
  isValid (validateCheckoutForm (form_with_slot sample_form (Some []))) = false
  ∧ validateCheckoutForm (form_with_slot sample_form (Some (lit "Midnight")))
    = validateCheckoutForm
        (form_with_slot sample_form (Some (lit "Evening (5 PM - 8 PM)"))).
Proof.
  split.
  - apply (deliverySlot_only_required (form_with_slot sample_form (Some []))).
    reflexivity.
  - apply (deliverySlot_only_required sample_form); discriminate.
Defined.

(** C9 fails as stated: a slot outside the configured list passes. *)
Lemma deliverySlot_enumeration_counterexample :
  lit "Midnight" ≠ []
  ∧ (lit "Midnight" ∉ Config.DELIVERY_SLOTS Config.CONFIG)
  ∧ isValid (validateCheckoutForm (form_with_slot sample_form (Some (lit "Midnight"))))
    = true.
Proof.
  split; [discriminate |]. split; [| by vm_compute].
  apply (bool_decide_unpack _). by vm_compute.
Qed.

End CheckoutForm.

(** ** The order validator *)

Section OrderValidator.
Import SubmitOrder.

Lemma truthy_non_nullish (v : value) : truthy v = true → non_nullish v = true.
Proof. by destruct v. Qed.

Lemma get_prop (v : value) (k : string) :
  non_nullish v = true → get v (lit k) = Some (prop v k).
Proof. unfold prop. by destruct v. Qed.

Lemma items_condition (v : value) :
  negb (truthy v) || negb (isArray v) || negb (nonempty_array v)
  = negb (nonempty_array v).
Proof. destruct v; cbn; by rewrite ?orb_true_r. Qed.

Lemma nonempty_array_iff (v : value) :
  nonempty_array v = true ↔ ∃ xs, v = VArr xs ∧ xs ≠ [].
Proof.
  split.
  - destruct v as [| | | | | xs |]; cbn; try discriminate.
    destruct xs; [discriminate |]. eauto.
  - intros (xs & -> & Hxs). by destruct xs.
Qed.

Lemma positive_number_iff (v : value) :
  positive_number v = true ↔ ∃ q, v = VNum q ∧ (0 < q)%Q.
Proof.
  split.
  - destruct v as [| | | q | | |]; cbn; try discriminate.
    intros Hq. exists q. split; [done |].
    apply negb_true_iff in Hq. apply Qnot_le_lt. intros Hle.
    apply Qle_bool_iff in Hle. congruence.
  - intros (q & -> & Hq). cbn. apply negb_true_iff.
    destruct (Qle_bool q 0) eqn:Hle; [| done].
    apply Qle_bool_iff in Hle. exfalso. by apply (Qlt_not_le 0 q).
Qed.

(** The validator as a list of rules: one message per violated rule, in
    the order of the rules. *)
Lemma validateOrderData_rules (o : value) :
  non_nullish o = true →
  validateOrderData o
  = Some {| isValid := (length (violated_messages o) =? 0)%nat;
            errors := violated_messages o |}.
Proof.
  intros Ho. unfold validateOrderData.
  rewrite !(get_prop o) by done. cbn [mbind option_bind].
  rewrite items_condition.
  unfold violated_messages, order_rules.
  destruct (truthy (prop o "customer")) eqn:Hc.
  - rewrite !(get_prop (prop o "customer")) by by apply truthy_non_nullish.
    cbn [mbind option_bind].
    destruct (truthy (prop o "orderId")), (truthy (prop o "userId")),
      (nonempty_array (prop o "items")),
      (truthy (prop (prop o "customer") "name")),
      (truthy (prop (prop o "customer") "phone")),
      (truthy (prop (prop o "customer") "address")),
      (positive_number (prop o "total")); reflexivity.
  - cbn [mbind option_bind].
    destruct (truthy (prop o "orderId")), (truthy (prop o "userId")),
      (nonempty_array (prop o "items")),
      (positive_number (prop o "total")); reflexivity.
Qed.

Lemma no_violation_iff (o : value) :
  (length (violated_messages o) =? 0)%nat = true ↔ acceptable_order o.
Proof.
  unfold acceptable_order.
  rewrite <- nonempty_array_iff, <- positive_number_iff.
  unfold violated_messages, order_rules.
  destruct (truthy (prop o "orderId")), (truthy (prop o "userId")),
    (truthy (prop o "customer")),
    (nonempty_array (prop o "items")),
    (truthy (prop (prop o "customer") "name")),
    (truthy (prop (prop o "customer") "phone")),
    (truthy (prop (prop o "customer") "address")),
    (positive_number (prop o "total")); cbn; intuition congruence.
Qed.

(** C6. On every payload that is an object (or any value other than
    [null] and [undefined]) the validator returns; it reports the payload
    valid exactly when order identifier, requester identifier, customer
    block with name, phone and address, a non-empty list of items and a
    total that is a number above zero are all there; its errors are the
    messages of the violated rules, one each and in order, none skipped;
    and a payload whose items are missing, not a list or an empty list is
    told that the order must contain at least one item. *)
Theorem validateOrderData_spec (o : value) :
  non_nullish o = true →
  ∃ v, validateOrderData o = Some v
       ∧ (isValid v = true ↔ acceptable_order o)
       ∧ errors v = violated_messages o
       ∧ length (errors v) = length (List.filter fst (order_rules o))
       ∧ (nonempty_array (prop o "items") = false →
            lit "Order must contain at least one item" ∈ errors v).
Proof.
  intros Ho. eexists. split; [by apply validateOrderData_rules |].
  cbn [isValid errors]. split; [apply no_violation_iff |].
  split; [done |]. split.
  - unfold violated_messages. by rewrite length_map.
  - intros Hitems. unfold violated_messages, order_rules. rewrite Hitems.
    cbn [negb]. apply list_elem_of_In, in_map_iff.
    exists (true, "Order must contain at least one item"%string).
    split; [done |]. apply filter_In. split; [| done].
    cbn. tauto.
Qed.

Lemma validateOrderData_spec_witness :
  ∃ v, validateOrderData (sample_order []) = Some v
       ∧ (isValid v = true ↔ acceptable_order (sample_order []))
       ∧ errors v = violated_messages (sample_order [])
       ∧ length (errors v) = length (List.filter fst (order_rules (sample_order [])))
       ∧ (nonempty_array (prop (sample_order []) "items") = false →
            lit "Order must contain at least one item" ∈ errors v).
Proof. apply (validateOrderData_spec (sample_order [])). reflexivity. Defined.

Example validateOrderData_empty_items :
  validateOrderData (sample_order [])
  = Some {| isValid := false;
            errors := [lit "Order must contain at least one item"] |}
  ∧ validateOrderData (sample_order [sample_line])
    = Some {| isValid := true; errors := [] |}
  ∧ validateOrderData (VObj [])
    = Some {| isValid := false;
              errors := [ lit "Order ID is required";
                          lit "User ID is required";
                          lit "Customer details are required";
                          lit "Order must contain at least one item";
                          lit "Invalid order total" ] |}
  ∧ validateOrderData VNull = None.
Proof. by vm_compute. Qed.

End OrderValidator.

(** ** The rate limiter *)

Section RateLimiter.
Import SubmitOrder.

Implicit Types (store : gmap jsstring (list Z)) (ip : jsstring) (now : Z).

Lemma isRateLimited_reject now ip store :
  (5 ≤ length (within_hour now (default [] (store !! ip))))%nat →
  isRateLimited now ip store = (true, store).
Proof.
  unfold isRateLimited, within_hour. intros Hfull.
  destruct (store !! ip) as [requests |] eqn:Hip; cbn in Hfull; [| lia].
  rewrite bool_decide_eq_true_2 by eauto. rewrite Hip. cbn [default from_option id].
  unfold maxRequests. destruct (_ <=? _)%nat eqn:Hleb; [done |].
  apply Nat.leb_gt in Hleb. lia.
Qed.

Lemma isRateLimited_accept now ip store :
  (length (within_hour now (default [] (store !! ip))) < 5)%nat →
  isRateLimited now ip store
  = (false, <[ip := within_hour now (default [] (store !! ip)) ++ [now]]> store).
Proof.
  unfold isRateLimited, within_hour, maxRequests. intros Hroom.
  destruct (store !! ip) as [requests |] eqn:Hip; cbn in Hroom.
  - rewrite bool_decide_eq_true_2 by eauto. rewrite Hip. cbn [default from_option id].
    destruct (_ <=? _)%nat eqn:Hleb; [| done].
    apply Nat.leb_le in Hleb. lia.
  - rewrite bool_decide_eq_false_2 by (intros [? ?]; congruence).
    rewrite lookup_insert_eq. cbn [default from_option id]. rewrite filter_nil.
    cbn [length Nat.leb app]. by rewrite insert_insert_eq.
Qed.

Lemma isRateLimited_verdict now ip store :
  fst (isRateLimited now ip store)
  = bool_decide (5 ≤ length (within_hour now (default [] (store !! ip))))%nat.
Proof.
  case_bool_decide as Hlen.
  - by rewrite isRateLimited_reject.
  - rewrite isRateLimited_accept by lia. done.
Qed.

Lemma within_hour_later now t (instants : list Z) :
  t ≤ now → within_hour now (within_hour t instants) = within_hour now instants.
Proof.
  intros Hle. unfold within_hour. apply list_filter_filter_l. intros x. lia.
Qed.

Lemma within_hour_app now (l1 l2 : list Z) :
  within_hour now (l1 ++ l2) = within_hour now l1 ++ within_hour now l2.
Proof. unfold within_hour. apply filter_app. Qed.

Lemma accepted_instants_snoc ip ip' t (limited : bool)
    (log : list (jsstring * Z * bool)) :
  accepted_instants ip (log ++ [(ip', t, limited)])
  = accepted_instants ip log
    ++ (if bool_decide (ip' = ip) && negb limited then [t] else []).
Proof.
  unfold accepted_instants. rewrite List.filter_app, List.map_app. cbn.
  by destruct (bool_decide (ip' = ip) && negb limited).
Qed.

Lemma last_cons_default (rest : list Z) (t d : Z) :
  List.last (t :: rest) d = List.last rest t.
Proof.
  revert t d. induction rest as [| t' rest IH]; intros t d; [done |].
  change (List.last (t :: t' :: rest) d) with (List.last (t' :: rest) d).
  by rewrite !IH.
Qed.

(** A check keeps the table in step with the accepted instants. *)
Lemma step_check_tracks store (log : list (jsstring * Z * bool)) (last : Z)
    (c : jsstring * Z) :
  table_tracks store log last → last ≤ snd c →
  table_tracks (snd (step_check (log, store) c)) (fst (step_check (log, store) c))
               (snd c).
Proof.
  destruct c as [ip0 t]. cbn [fst snd]. intros Htracks Hlast ip now Hnow.
  unfold step_check. cbn [fst snd].
  destruct (decide (5 ≤ length (within_hour t (default [] (store !! ip0))))%nat)
    as [Hfull | Hroom].
  - rewrite isRateLimited_reject by done. cbn [fst snd].
    rewrite accepted_instants_snoc. cbn [negb]. rewrite andb_false_r, app_nil_r.
    apply Htracks. lia.
  - rewrite isRateLimited_accept by lia. cbn [fst snd].
    rewrite accepted_instants_snoc. cbn [negb]. rewrite andb_true_r.
    destruct (decide (ip0 = ip)) as [-> | Hne].
    + rewrite lookup_insert_eq, bool_decide_eq_true_2 by done.
      cbn [default from_option id].
      rewrite !within_hour_app, within_hour_later by done.
      f_equal. apply Htracks. lia.
    + rewrite lookup_insert_ne, bool_decide_eq_false_2 by done.
      rewrite app_nil_r. apply Htracks. lia.
Qed.

Lemma fold_checks_tracks (checks : list (jsstring * Z)) store
    (log : list (jsstring * Z * bool)) (last : Z) :
  table_tracks store log last →
  clock_monotone last (List.map snd checks) →
  table_tracks (snd (fold_left step_check checks (log, store)))
               (fst (fold_left step_check checks (log, store)))
               (List.last (List.map snd checks) last).
Proof.
  revert store log last.
  induction checks as [| c rest IH]; intros store log last Htracks Hclock.
  - exact Htracks.
  - cbn [List.map clock_monotone] in Hclock. destruct Hclock as [Hlast Hrest].
    cbn [fold_left].
    pose proof (step_check_tracks store log last c Htracks Hlast) as Hstep.
    destruct (step_check (log, store) c) as [log' store'].
    cbn [fst snd] in Hstep.
    specialize (IH store' log' (snd c) Hstep Hrest).
    cbn [List.map]. by rewrite last_cons_default.
Qed.

Lemma clock_monotone_snoc (last : Z) (instants : list Z) (now : Z) :
  clock_monotone last (instants ++ [now]) →
  clock_monotone last instants ∧ List.last instants last ≤ now.
Proof.
  revert last. induction instants as [| t rest IH]; intros last;
    cbn [app clock_monotone].
  - intros [H _]. done.
  - intros [Hlast Hrest]. apply IH in Hrest as [Hrest Hnow].
    by rewrite last_cons_default.
Qed.

(** After any run of a process whose clock does not run backwards, the
    table tells a new check exactly the accepted instants of the last
    hour. *)
Lemma run_checks_tracks (checks : list (jsstring * Z)) ip now :
  nondecreasing (List.map snd checks ++ [now]) →
  within_hour now (default [] (snd (run_checks checks) !! ip))
  = within_hour now (accepted_instants ip (fst (run_checks checks))).
Proof.
  intros Hclock. unfold run_checks.
  destruct checks as [| c rest]; [done |].
  cbn [List.map app nondecreasing] in Hclock.
  assert (clock_monotone (snd c) (List.map snd (c :: rest) ++ [now])) as Hclock'.
  { cbn. split; [lia | done]. }
  apply clock_monotone_snoc in Hclock' as [Hrun Hnow].
  apply (fold_checks_tracks (c :: rest) ∅ [] (snd c)); [| done | done].
  intros ip' now' _. by rewrite lookup_empty.
Qed.

(** C1. A check keeps the recorded instants of the identifier that are
    less than one hour old; when five or more remain it rejects and leaves
    the table as it was, otherwise it records the current instant after
    them and accepts.  Hence, in any run of a process whose clock does not
    run backwards and for any identifier: what remains is what was accepted
    in the last hour (a rejected attempt was never recorded), a request
    that finds five requests accepted within the last hour is rejected,
    and a request that finds every accepted request at least one hour old
    is accepted. *)
Theorem rate_limiter_window (checks : list (jsstring * Z)) ip now :
  nondecreasing (List.map snd checks ++ [now]) →
  (∀ store,
      ((5 ≤ length (within_hour now (default [] (store !! ip))))%nat →
         isRateLimited now ip store = (true, store))
      ∧ ((length (within_hour now (default [] (store !! ip))) < 5)%nat →
           isRateLimited now ip store
           = (false,
              <[ip := within_hour now (default [] (store !! ip)) ++ [now]]> store)))
  ∧ within_hour now (default [] (snd (run_checks checks) !! ip))
    = within_hour now (accepted_instants ip (fst (run_checks checks)))
  ∧ ((5 ≤ length (within_hour now (accepted_instants ip (fst (run_checks checks)))))%nat →
       fst (isRateLimited now ip (snd (run_checks checks))) = true)
  ∧ ((∀ t, t ∈ accepted_instants ip (fst (run_checks checks)) → windowMs ≤ now - t) →
       fst (isRateLimited now ip (snd (run_checks checks))) = false).
Proof.
  intros Hclock. split; [| split; [| split]].
  - intros store. split.
    + apply isRateLimited_reject.
    + apply isRateLimited_accept.
  - by apply run_checks_tracks.
  - intros Hfive. rewrite <- run_checks_tracks in Hfive by done.
    by rewrite isRateLimited_reject.
  - intros Hold. rewrite isRateLimited_verdict.
    rewrite run_checks_tracks by done.
    apply bool_decide_eq_false_2.
    assert (within_hour now (accepted_instants ip (fst (run_checks checks))) = [])
      as ->; [| cbn; lia].
    unfold within_hour.
    destruct (filter _ _) as [| t ts] eqn:Hfilter; [done |].
    assert (t ∈ filter (λ timestamp, now - timestamp < windowMs)
                  (accepted_instants ip (fst (run_checks checks)))) as Hin.
    { rewrite Hfilter. apply elem_of_cons. by left. }
    apply list_elem_of_filter in Hin as [Hrecent Hin].
    apply Hold in Hin. lia.
Qed.

(** Five requests within five milliseconds are accepted; the sixth, while
    the hour runs, is rejected; the request one hour after the fifth is
    accepted. *)
Lemma rate_limiter_window_witness :
  fst (isRateLimited 5 caller
         (snd (run_checks [(caller, 0); (caller, 1); (caller, 2);
                           (caller, 3); (caller, 4)]))) = true
  ∧ fst (isRateLimited (windowMs + 4) caller
           (snd (run_checks [(caller, 0); (caller, 1); (caller, 2);
                             (caller, 3); (caller, 4); (caller, 5)]))) = false.
Proof.
  split.
  - apply (rate_limiter_window
             [(caller, 0); (caller, 1); (caller, 2); (caller, 3); (caller, 4)]
             caller 5).
    + cbn. lia.
    + vm_compute. lia.
  - apply (rate_limiter_window
             [(caller, 0); (caller, 1); (caller, 2); (caller, 3); (caller, 4);
              (caller, 5)]
             caller (windowMs + 4)).
    + cbn. unfold windowMs. lia.
    + intros t Ht. vm_compute in Ht.
      repeat (apply elem_of_cons in Ht as [-> | Ht]; [unfold windowMs; lia |]).
      by apply elem_of_nil in Ht.
Defined.

(** A run of one caller: five accepted, five rejected while the hour runs,
    one accepted once the five have aged out.  The rejected attempts were
    not recorded and do not prolong the refusal. *)
Example rate_limiter_run :
  List.map snd
    (fst (run_checks [ (caller, 0); (caller, 1); (caller, 2); (caller, 3);
                       (caller, 4); (caller, 10); (caller, 11); (caller, 12);
                       (caller, 13); (caller, 14); (caller, 3600004) ]))
  = [false; false; false; false; false; true; true; true; true; true; false]
  ∧ snd (run_checks [ (caller, 0); (caller, 1); (caller, 2); (caller, 3);
                      (caller, 4); (caller, 10); (caller, 3599999);
                      (caller, 3600000) ]) !! caller
    = Some [1; 2; 3; 4; 3600000].
Proof. by vm_compute. Qed.

End RateLimiter.

(** ** The submission endpoint *)

Section Endpoint.
Import SubmitOrder.

Lemma log_events_nil (w : world) : log_events w [] = w.
Proof. destruct w. unfold log_events. cbn. by rewrite app_nil_r. Qed.

Lemma log_events_app (w : world) (a b : list event) :
  log_events (log_events w a) b = log_events w (a ++ b).
Proof. unfold log_events. cbn. by rewrite app_assoc. Qed.

Lemma set_store_same (w : world) : set_store w (rateLimitStore w) = w.
Proof. by destruct w. Qed.

Lemma validateOrderData_non_nullish (o : value) (v : validation) :
  validateOrderData o = Some v → non_nullish o = true.
Proof. by destruct o. Qed.

Lemma valid_has_customer (o : value) (v : validation) :
  validateOrderData o = Some v → isValid v = true →
  truthy (prop o "customer") = true.
Proof.
  intros Hv Hvalid. pose proof (validateOrderData_non_nullish o v Hv) as Ho.
  rewrite validateOrderData_rules in Hv by done. injection Hv as <-.
  cbn [isValid] in Hvalid. apply no_violation_iff in Hvalid.
  by destruct Hvalid as (_ & _ & Hc & _).
Qed.

Lemma sendEmailToOwner_run (o : value) (e : env) (w : world) :
  ∃ sent, sendEmailToOwner o e w = (Ok sent, log_events w (owner_mails e o)).
Proof.
  unfold sendEmailToOwner, owner_mails, renders_owner, must. unfold_m.
  destruct (resend_configured e); cbn.
  - destruct (render_owner_email o); cbn.
    + destruct (owner_send_ok e); eauto.
    + rewrite log_events_nil. eauto.
  - rewrite log_events_nil. eauto.
Qed.

Lemma sendEmailConfirmation_run (o : value) (e : env) (w : world) :
  ∃ r, sendEmailConfirmation o e w = (r, log_events w (customer_mails e o)).
Proof.
  unfold sendEmailConfirmation, customer_mails, customer_email, renders_customer,
    must, prop.
  unfold_m.
  destruct (resend_configured e); cbn; [| rewrite log_events_nil; eauto].
  destruct (get o (lit "customer")) as [customer |]; cbn;
    [| rewrite log_events_nil; eauto].
  destruct (get customer (lit "email")) as [email |]; cbn;
    [| rewrite log_events_nil; eauto].
  destruct (truthy email); cbn; [| rewrite log_events_nil; eauto].
  destruct (render_customer_email o); cbn; [| rewrite log_events_nil; eauto].
  destruct (customer_send_ok e); eauto.
Qed.

Lemma settled_run (m : M bool) (e : env) (w : world) :
  settled m e w = (Ok (), snd (m e w)).
Proof. unfold settled. unfold_m. by destruct (m e w) as [[b | err] w']. Qed.

(** What the endpoint answers and what it leaves behind. *)
Lemma handler_run (req : request) (e : env) (w : world) :
  ∃ body',
    handler req e w
    = (Ok {| status := expected_status req (server_now e) (rateLimitStore w);
             body := body' |},
       log_events
         (set_store w (expected_store req (server_now e) (rateLimitStore w)))
         (expected_mails e req (rateLimitStore w))).
Proof.
  unfold handler, expected_status, expected_store, expected_mails, admitted,
    passes_validation.
  case_bool_decide as Hoptions.
  { rewrite set_store_same, log_events_nil. unfold ret. eauto. }
  case_bool_decide as Hpost; cbn [negb andb].
  2:{ rewrite set_store_same, log_events_nil. unfold json, ret. eauto. }
  unfold check_rate_limit, json, must. unfold_m. cbn.
  destruct (isRateLimited (server_now e) (client_ip req) (rateLimitStore w))
    as [limited store'] eqn:Hrate.
  cbn [fst snd negb].
  destruct limited; cbn.
  { rewrite log_events_nil. eauto. }
  destruct (validateOrderData (req_body req)) as [v |] eqn:Hv; cbn.
  2:{ rewrite log_events_nil. eauto. }
  destruct (isValid v) eqn:Hvalid; cbn.
  2:{ rewrite log_events_nil. eauto. }
  pose proof (validateOrderData_non_nullish _ _ Hv) as Ho.
  pose proof (valid_has_customer _ _ Hv Hvalid) as Hc.
  rewrite settled_run.
  destruct (sendEmailToOwner_run (req_body req) e (set_store w store')) as [sent ->].
  cbn [snd].
  rewrite (get_prop (req_body req) "customer") by done. cbn.
  rewrite (get_prop (prop (req_body req) "customer") "email")
    by by apply truthy_non_nullish.
  cbn. fold (customer_email (req_body req)).
  destruct (truthy (customer_email (req_body req))) eqn:Hemail; cbn.
  - rewrite settled_run.
    destruct (sendEmailConfirmation_run (req_body req) e
                (log_events (set_store w store') (owner_mails e (req_body req))))
      as [r ->].
    cbn [snd]. rewrite log_events_app.
    rewrite (get_prop (req_body req) "orderId") by done. cbn. eauto.
  - unfold customer_mails. rewrite Hemail, andb_false_r. cbn.
    rewrite app_nil_r. eauto.
Qed.

End Endpoint.

(** ** A checkout attempt *)

Section CheckoutAttempt.
Import SubmitOrder Checkout.

Lemma submitOrder_run (o : value) (e : env) (w : world) :
  ∃ r,
    submitOrder o e w
    = (r,
       if network_ok e
       then log_events
              (set_store (log_events w [EvSubmitOrder o])
                 (expected_store (post_request e o) (server_now e) (rateLimitStore w)))
              (expected_mails e (post_request e o) (rateLimitStore w))
       else log_events w [EvSubmitOrder o])
    ∧ returned r = network_ok e && is_2xx (submission_status o e w).
Proof.
  unfold submitOrder, fetch_submit_order, submission_status. unfold_m. cbn.
  destruct (network_ok e); cbn; [| eauto].
  fold (post_request e o).
  destruct (handler_run (post_request e o) e (log_events w [EvSubmitOrder o]))
    as [body' Hrun].
  cbn [rateLimitStore log_events] in Hrun. rewrite Hrun. cbn.
  unfold response_ok. cbn [status]. fold (is_2xx (expected_status (post_request e o)
    (server_now e) (rateLimitStore w))).
  destruct (is_2xx _); cbn; [eauto |].
  unfold must. destruct (get body' (lit "message")); cbn; eauto.
Qed.

Lemma getCartWithDetails_unloaded (e : env) (w : world) :
  catalog e = None →
  ∃ r, Cart.getCartWithDetails e w = (r, w) ∧ ∀ ds, r = Ok ds → ds = [].
Proof.
  intros Hcat.
  unfold Cart.getCartWithDetails, Cart.getCart. unfold_m. cbn.
  destruct (default [] (cart_slot w)) as [| it rest]; cbn.
  - eexists. split; [done |]. by intros ds [= <-].
  - unfold getProductById, fetchProducts. unfold_m. rewrite Hcat.
    eexists. split; [done |]. intros ds. discriminate.
Qed.

(** What an attempt returns and what it leaves behind. *)
Lemma processCheckout_run (f : Form.form) (u : Form.user) (e : env) (w : world) :
  returned (fst (processCheckout f u e w)) = checkout_succeeds f u e w
  ∧ trace (snd (processCheckout f u e w)) = trace w ++ checkout_events f u e w
  ∧ cart_slot (snd (processCheckout f u e w))
    = if checkout_succeeds f u e w then None else cart_slot w.
Proof.
  remember (processCheckout f u e w) as run eqn:Hrun.
  unfold processCheckout in Hrun.
  unfold checkout_succeeds, checkout_events, checkout_proceeds.
  destruct (catalog e) as [cat |] eqn:Hcat;
    destruct (isValid (validateCheckoutForm f)) eqn:Hform; cbn [negb andb] in Hrun |- *;
    try (subst run; unfold throw; cbn; by rewrite app_nil_r).
  2:{ unfold bind at 1 in Hrun.
      destruct (getCartWithDetails_unloaded e w Hcat) as (r & Hr' & Hr).
      rewrite Hr' in Hrun.
      destruct r as [ds | err]; subst run; cbn; [| by rewrite app_nil_r].
      rewrite (Hr ds eq_refl). cbn. by rewrite app_nil_r. }
  unfold bind at 1 in Hrun. rewrite (getCartWithDetails_loaded e cat Hcat) in Hrun.
  fold (stored_cart w) in Hrun.
  destruct (length (details_of cat (stored_cart w)) =? 0)%nat eqn:Hempty;
    cbn [negb] in Hrun |- *.
  { subst run. unfold throw. cbn. by rewrite app_nil_r. }
  unfold bind at 1 in Hrun. rewrite (calculateTotal_loaded e cat Hcat) in Hrun.
  fold (stored_cart w) in Hrun. unfold bind at 1 in Hrun. unfold ask at 1 in Hrun.
  fold (checkout_order f u e cat (stored_cart w)) in Hrun.
  set (o := checkout_order f u e cat (stored_cart w)) in *.
  unfold try_catch, DatabaseService.createOrder in Hrun.
  unfold bind at 1 in Hrun. unfold bind at 1 in Hrun. unfold ask at 1 in Hrun.
  unfold bind at 1 in Hrun. unfold emit at 1 in Hrun.
  destruct (createOrder_ok e) eqn:Hcreate; cbn [andb].
  2:{ subst run. unfold throw. cbn. done. }
  unfold ret at 1 in Hrun. unfold bind at 1 in Hrun.
  destruct (submitOrder_run o e (log_events w [EvCreateOrder o true]))
    as (r & Hsub & Hret).
  rewrite Hsub in Hrun. clear Hsub.
  cbn [rateLimitStore log_events] in Hret, Hrun.
  unfold submission_status in *. cbn [rateLimitStore log_events] in Hret.
  destruct (network_ok e) eqn:Hnet; cbn [andb] in Hret |- *.
  2:{ destruct r; [discriminate |]. subst run. unfold throw. cbn.
      by rewrite <- app_assoc. }
  destruct (is_2xx _) eqn:Hstatus; cbn [andb] in Hret |- *.
  2:{ destruct r; [discriminate |]. subst run. unfold throw. cbn.
      rewrite app_nil_r. by rewrite <- !app_assoc. }
  destruct r as [b | err]; [| discriminate].
  unfold user_updated, DatabaseService.updateUser, Cart.clearCart in *.
  destruct (truthy (field (Form.phone f))); cbn [negb orb]; subst run.
  - unfold_m. cbn. destruct (updateUser_ok e); cbn; by rewrite <- !app_assoc.
  - unfold_m. cbn. by rewrite <- !app_assoc.
Qed.
Lemma owner_mails_only (e : env) (o : value) :
  Forall (λ ev, is_mail ev = true) (owner_mails e o).
Proof. unfold owner_mails. destruct (_ && _); repeat constructor. Qed.

Lemma customer_mails_only (e : env) (o : value) :
  Forall (λ ev, is_mail ev = true) (customer_mails e o).
Proof. unfold customer_mails. destruct (_ && _); repeat constructor. Qed.

Lemma expected_mails_only (e : env) (req : request) (store : gmap jsstring (list Z)) :
  Forall (λ ev, is_mail ev = true) (expected_mails e req store).
Proof.
  unfold expected_mails. case_bool_decide; [constructor |].
  destruct (admitted _ _ _); [| constructor].
  apply Forall_app. split; [apply owner_mails_only | apply customer_mails_only].
Qed.

Lemma mails_no_create (evs : list event) :
  Forall (λ ev, is_mail ev = true) evs → List.filter is_create evs = [].
Proof.
  induction 1 as [| ev rest Hev _ IH]; [done |].
  cbn. by destruct ev.
Qed.

Lemma ordered_after_creation (evs : list event) :
  Forall (λ ev, is_create ev = false) evs → ordered true evs = true.
Proof.
  induction 1 as [| ev rest Hev _ IH]; [done |].
  cbn. rewrite IH. by destruct (is_notification ev).
Qed.

Lemma mails_are_not_create (evs : list event) :
  Forall (λ ev, is_mail ev = true) evs → Forall (λ ev, is_create ev = false) evs.
Proof. intros H. eapply Forall_impl; [exact H |]. by intros []. Qed.

(** The events of an attempt: at most one order creation, and nothing
    that notifies before a creation that succeeded. *)
Lemma checkout_events_shape (f : Form.form) (u : Form.user) (e : env) (w : world) :
  (length (List.filter is_create (checkout_events f u e w)) ≤ 1)%nat
  ∧ ordered false (checkout_events f u e w) = true.
Proof.
  unfold checkout_events.
  destruct (catalog e) as [cat |]; [| cbn; split; [lia | done]].
  destruct (checkout_proceeds f e w); [| cbn; split; [lia | done]].
  set (o := checkout_order f u e cat (stored_cart w)).
  destruct (createOrder_ok e); [| cbn; split; [lia | done]].
  destruct (network_ok e); [| cbn; split; [lia | done]].
  pose proof (expected_mails_only e (post_request e o) (rateLimitStore w)) as Hmails.
  assert (Forall (λ ev, is_create ev = false)
            ((if is_2xx (submission_status o e w)
              then (if truthy (field (Form.phone f))
                    then [EvUpdateUser (updateUser_ok e)] else [])
                   ++ (if user_updated f e then [EvClearCart] else [])
              else [])) ) as Htail.
  { destruct (is_2xx _); [| constructor].
    destruct (truthy _), (user_updated f e); repeat constructor. }
  split.
  - cbn. rewrite List.filter_app, (mails_no_create _ Hmails). cbn.
    assert (List.filter is_create
              (if is_2xx (submission_status o e w)
               then (if truthy (field (Form.phone f))
                     then [EvUpdateUser (updateUser_ok e)] else [])
                    ++ (if user_updated f e then [EvClearCart] else [])
               else []) = []) as ->; [| cbn; lia].
    destruct (is_2xx _); [| done].
    by destruct (truthy _), (user_updated f e).
  - cbn. apply ordered_after_creation, Forall_app.
    split; [by apply mails_are_not_create | done].
Qed.

Lemma ordered_split (created : bool) (evs before after : list event) (ev : event) :
  ordered created evs = true → evs = before ++ ev :: after →
  is_notification ev = true →
  created = true ∨ ∃ o, EvCreateOrder o true ∈ before.
Proof.
  revert created evs. induction before as [| b before IH]; intros created evs Hord ->.
  - cbn in Hord. intros Hev. rewrite Hev in Hord.
    apply andb_true_iff in Hord as [-> _]. by left.
  - intros Hev. cbn in Hord. apply andb_true_iff in Hord as [_ Hord].
    destruct (IH _ _ Hord eq_refl Hev) as [Hc | [o Ho]].
    + apply orb_true_iff in Hc as [-> | Hb]; [by left |]. right.
      destruct b as [o [] | | | | |]; try discriminate.
      exists o. apply elem_of_cons. by left.
    + right. exists o. apply elem_of_cons. by right.
Qed.

(** C4. In every checkout attempt, whatever the form, the cart and the
    outcome of every external call (a submission or a send that fails
    included), the order-creation write is issued at most once, and every
    notification call, the submission to the endpoint as well as each send
    of the endpoint, comes after an order-creation write that succeeded. *)
Theorem checkout_creates_once_then_notifies
    (f : Form.form) (u : Form.user) (e : env) (w : world) :
  ∃ evs,
    trace (snd (processCheckout f u e w)) = trace w ++ evs
    ∧ (length (List.filter is_create evs) ≤ 1)%nat
    ∧ ordered false evs = true
    ∧ ∀ before ev after,
        evs = before ++ ev :: after → is_notification ev = true →
        ∃ o, EvCreateOrder o true ∈ before.
Proof.
  exists (checkout_events f u e w).
  destruct (processCheckout_run f u e w) as (_ & Htrace & _).
  destruct (checkout_events_shape f u e w) as [Honce Hord].
  repeat split; try done.
  intros before ev after Hsplit Hev.
  destruct (ordered_split false _ before after ev Hord Hsplit Hev) as [? | ?];
    [discriminate | done].
Qed.

Lemma checkout_creates_once_then_notifies_witness :
  ∃ evs,
    trace (snd (processCheckout sample_form sample_user
                  (with_sends sample_env true Rejected Rejected)
                  (world_with [cart_of (lit "buffalo-ghee") 2]))) = [] ++ evs
    ∧ (length (List.filter is_create evs) ≤ 1)%nat
    ∧ ordered false evs = true.
Proof.
  destruct (checkout_creates_once_then_notifies sample_form sample_user
              (with_sends sample_env true Rejected Rejected)
              (world_with [cart_of (lit "buffalo-ghee") 2]))
    as (evs & Htrace & Honce & Hord & _).
  exists evs. split; [exact Htrace |]. split; [exact Honce | exact Hord].
Defined.

Example checkout_trace_when_all_goes_well :
  List.map (λ ev, (is_create ev, is_notification ev))
    (trace (snd (processCheckout sample_form sample_user sample_env
                   (world_with [cart_of (lit "buffalo-ghee") 2]))))
  = [(true, false); (false, true); (false, true); (false, true);
     (false, false); (false, false)].
Proof. by vm_compute. Qed.

(** C5, as the code has it.  An attempt returns the order identifier
    exactly when the form and the cart pass, the order-creation write
    succeeds, the submission reaches the endpoint and is answered 2xx, and
    the user-profile update succeeds; it clears the cart when it returns
    and leaves the cart as it was when it throws.  How the sends of the
    endpoint turn out, or whether the mail service is configured at all,
    changes neither the result nor the cart. *)
Theorem cart_cleared_when_checkout_returns
    (f : Form.form) (u : Form.user) (e : env) (w : world) :
  (returned (fst (processCheckout f u e w)) = true ↔
     ∃ cat, catalog e = Some cat
            ∧ checkout_proceeds f e w = true
            ∧ createOrder_ok e = true
            ∧ network_ok e = true
            ∧ is_2xx (submission_status (checkout_order f u e cat (stored_cart w)) e w)
              = true
            ∧ user_updated f e = true)
  ∧ (returned (fst (processCheckout f u e w)) = true →
       cart_slot (snd (processCheckout f u e w)) = None)
  ∧ (returned (fst (processCheckout f u e w)) = false →
       cart_slot (snd (processCheckout f u e w)) = cart_slot w)
  ∧ (∀ configured owner customer,
       returned (fst (processCheckout f u (with_sends e configured owner customer) w))
       = returned (fst (processCheckout f u e w))
       ∧ cart_slot (snd (processCheckout f u (with_sends e configured owner customer) w))
         = cart_slot (snd (processCheckout f u e w))).
Proof.
  destruct (processCheckout_run f u e w) as (Hret & _ & Hcart).
  rewrite Hret, Hcart. split; [| split; [| split]].
  - unfold checkout_succeeds. destruct (catalog e) as [cat |].
    + rewrite !andb_true_iff. split.
      * intros ((((? & ?) & ?) & ?) & ?). exists cat. by repeat split.
      * intros (cat' & [= <-] & ? & ? & ? & ? & ?). by repeat split.
    + split; [discriminate |]. by intros (cat & ? & _).
  - by intros ->.
  - by intros ->.
  - intros configured owner customer.
    destruct (processCheckout_run f u (with_sends e configured owner customer) w)
      as (Hret' & _ & Hcart').
    rewrite Hret', Hcart'. by split.
Qed.

Lemma cart_cleared_when_checkout_returns_witness :
  cart_slot (snd (processCheckout sample_form sample_user sample_env
                    (world_with [cart_of (lit "buffalo-ghee") 2]))) = None
  ∧ cart_slot (snd (processCheckout sample_form sample_user
                      (with_network sample_env false)
                      (world_with [cart_of (lit "buffalo-ghee") 2])))
    = Some [cart_of (lit "buffalo-ghee") 2].
Proof.
  split.
  - destruct (cart_cleared_when_checkout_returns sample_form sample_user sample_env
                (world_with [cart_of (lit "buffalo-ghee") 2]))
      as (_ & Hcleared & _).
    apply Hcleared. by vm_compute.
  - destruct (cart_cleared_when_checkout_returns sample_form sample_user
                (with_network sample_env false)
                (world_with [cart_of (lit "buffalo-ghee") 2]))
      as (_ & _ & Hkept & _).
    apply Hkept. by vm_compute.
Defined.

(** C5 fails as stated: the order is written, the submission for the
    notifications fails (the network is down, or the endpoint refuses the
    sixth request of the hour), and the attempt throws with the cart
    still full. *)
Lemma cart_kept_after_write_counterexample :
  List.map is_created
    (trace (snd (processCheckout sample_form sample_user
                   (with_network sample_env false)
                   (world_with [cart_of (lit "buffalo-ghee") 2]))))
  = [true; false]
  ∧ returned (fst (processCheckout sample_form sample_user
                     (with_network sample_env false)
                     (world_with [cart_of (lit "buffalo-ghee") 2]))) = false
  ∧ cart_slot (snd (processCheckout sample_form sample_user
                      (with_network sample_env false)
                      (world_with [cart_of (lit "buffalo-ghee") 2])))
    = Some [cart_of (lit "buffalo-ghee") 2]
  ∧ List.map is_created
      (trace (snd (processCheckout sample_form sample_user sample_env
                     (world_after_five [cart_of (lit "buffalo-ghee") 2]))))
    = [true; false]
  ∧ returned (fst (processCheckout sample_form sample_user sample_env
                     (world_after_five [cart_of (lit "buffalo-ghee") 2]))) = false
  ∧ cart_slot (snd (processCheckout sample_form sample_user sample_env
                      (world_after_five [cart_of (lit "buffalo-ghee") 2])))
    = Some [cart_of (lit "buffalo-ghee") 2].
Proof. by vm_compute. Qed.

Lemma details_empty_iff (cat : list Products.product) (cart : list cart_item) :
  (length (details_of cat cart) =? 0)%nat = true ↔ kept_items cat cart = [].
Proof.
  rewrite <- (details_items cat cart), Nat.eqb_eq.
  destruct (details_of cat cart); cbn; split; intros; congruence.
Qed.

(** C8, as the code has it.  An attempt stops before any side effect when
    the form is invalid or when no item of the cart has a product in the
    catalog; once the form is valid and some item has a product, it goes on
    to the order-creation write, whatever the stock flags of the products
    and whatever the minimum order amount. *)
Theorem checkout_checks_as_coded (f : Form.form) (u : Form.user) (e : env) (w : world) :
  (isValid (validateCheckoutForm f) = false →
     returned (fst (processCheckout f u e w)) = false
     ∧ trace (snd (processCheckout f u e w)) = trace w
     ∧ cart_slot (snd (processCheckout f u e w)) = cart_slot w)
  ∧ (∀ cat, catalog e = Some cat → kept_items cat (stored_cart w) = [] →
       returned (fst (processCheckout f u e w)) = false
       ∧ trace (snd (processCheckout f u e w)) = trace w
       ∧ cart_slot (snd (processCheckout f u e w)) = cart_slot w)
  ∧ (∀ cat, isValid (validateCheckoutForm f) = true → catalog e = Some cat →
       kept_items cat (stored_cart w) ≠ [] →
       ∃ o rest,
         trace (snd (processCheckout f u e w))
         = trace w ++ EvCreateOrder o (createOrder_ok e) :: rest).
Proof.
  destruct (processCheckout_run f u e w) as (Hret & Htrace & Hcart).
  rewrite Hret, Htrace, Hcart.
  unfold checkout_succeeds, checkout_events, checkout_proceeds.
  split; [| split].
  - intros ->. cbn. destruct (catalog e); cbn; by rewrite app_nil_r.
  - intros cat -> Hkept. apply details_empty_iff in Hkept. rewrite Hkept.
    cbn. rewrite andb_false_r. cbn. by rewrite app_nil_r.
  - intros cat -> -> Hkept. cbn [andb].
    destruct (length (details_of cat (stored_cart w)) =? 0)%nat eqn:Hempty.
    { apply details_empty_iff in Hempty. contradiction. }
    cbn [negb]. eauto.
Qed.

Lemma checkout_checks_as_coded_witness :
  trace (snd (processCheckout (form_with_slot sample_form None) sample_user sample_env
                (world_with [cart_of (lit "buffalo-ghee") 2]))) = []
  ∧ ∃ o rest,
      trace (snd (processCheckout sample_form sample_user sample_env
                    (world_with [cart_of (lit "cow-milk") 1])))
      = [] ++ EvCreateOrder o true :: rest.
Proof.
  split.
  - destruct (checkout_checks_as_coded (form_with_slot sample_form None) sample_user
                sample_env (world_with [cart_of (lit "buffalo-ghee") 2]))
      as (Hform & _).
    apply Hform. by vm_compute.
  - destruct (checkout_checks_as_coded sample_form sample_user sample_env
                (world_with [cart_of (lit "cow-milk") 1]))
      as (_ & _ & Hgo).
    apply (Hgo [ghee; milk]); [by vm_compute | reflexivity | by vm_compute].
Defined.

(** C8 fails as stated: the cart engine's validation rejects a cart whose
    subtotal is below the minimum order amount, and the checkout attempt on
    the same cart writes the order, notifies and returns. *)
Lemma checkout_skips_cart_validation_counterexample :
  fst (Cart.validateCart sample_env (world_with [cart_of (lit "cow-milk") 1]))
  = Ok (false, [Cart.BelowMinimum 50])
  ∧ returned (fst (processCheckout sample_form sample_user sample_env
                     (world_with [cart_of (lit "cow-milk") 1]))) = true
  ∧ List.map (λ ev, (is_create ev, is_notification ev))
      (trace (snd (processCheckout sample_form sample_user sample_env
                     (world_with [cart_of (lit "cow-milk") 1]))))
    = [(true, false); (false, true); (false, true); (false, true);
       (false, false); (false, false)].
Proof. by vm_compute. Qed.

(** The same with a product that the catalog at hand lists as out of
    stock (the catalog endpoint itself lists products in stock only, so
    that a product that ran out is more often missing from the catalog,
    and its item dropped). *)
Example checkout_with_out_of_stock_product :
  fst (Cart.validateCart (with_catalog sample_env [ghee_sold_out])
         (world_with [cart_of (lit "buffalo-ghee") 1]))
  = Ok (false, [Cart.OutOfStock (lit "Buffalo Ghee")])
  ∧ returned (fst (processCheckout sample_form sample_user
                     (with_catalog sample_env [ghee_sold_out])
                     (world_with [cart_of (lit "buffalo-ghee") 1]))) = true
  ∧ returned (fst (processCheckout sample_form sample_user
                     (with_catalog sample_env [milk])
                     (world_with [cart_of (lit "buffalo-ghee") 1]))) = false.
Proof. by vm_compute. Qed.

(** C7, as the code has it.  The endpoint always answers.  It answers 2xx
    only to a preflight request or to a POST that is within the rate limit
    and whose payload passes the validation, and it answers 200 to every
    such POST that carries a customer e-mail address.  The answer is the
    same whatever was or was not written to the database before, and
    whatever the sends do: the endpoint writes no order and reads none. *)
Theorem endpoint_status_as_coded (req : request) (e : env) (w : world) :
  ∃ resp,
    fst (handler req e w) = Ok resp
    ∧ (is_2xx (status resp) = true →
         method req = lit "OPTIONS"
         ∨ (method req = lit "POST"
            ∧ fst (isRateLimited (server_now e) (client_ip req) (rateLimitStore w)) = false
            ∧ passes_validation (req_body req) = true))
    ∧ (method req = lit "POST" →
         fst (isRateLimited (server_now e) (client_ip req) (rateLimitStore w)) = false →
         passes_validation (req_body req) = true →
         truthy (customer_email (req_body req)) = true →
         status resp = 200)
    ∧ (∀ configured owner customer w2,
         rateLimitStore w2 = rateLimitStore w →
         status_of (fst (handler req (with_sends e configured owner customer) w2))
         = Some (status resp))
    ∧ List.filter is_create (trace (snd (handler req e w)))
      = List.filter is_create (trace w).
Proof.
  destruct (handler_run req e w) as [body' Hrun]. rewrite Hrun. cbn [fst snd].
  eexists. split; [reflexivity |]. cbn [status].
  unfold expected_status, passes_validation.
  split; [| split; [| split]].
  - case_bool_decide as Hoptions; [by left |].
    case_bool_decide as Hpost; cbn [negb]; [| discriminate].
    destruct (fst (isRateLimited _ _ _)); [discriminate |].
    destruct (validateOrderData (req_body req)) as [v |]; [| discriminate].
    destruct (isValid v); cbn [negb]; [| discriminate].
    intros _. right. by repeat split.
  - intros Hpost -> Hvalid ->.
    rewrite bool_decide_eq_false_2 by (rewrite Hpost; discriminate).
    rewrite bool_decide_eq_true_2 by done. cbn [negb].
    destruct (validateOrderData (req_body req)) as [v |]; [| discriminate].
    by rewrite Hvalid.
  - intros configured owner customer w2 Hstore.
    destruct (handler_run req (with_sends e configured owner customer) w2)
      as [body2 ->].
    cbn. by rewrite Hstore.
  - cbn. rewrite List.filter_app.
    rewrite (mails_no_create _ (expected_mails_only e req (rateLimitStore w))).
    by rewrite app_nil_r.
Qed.

Lemma endpoint_status_as_coded_witness :
  ∃ resp,
    fst (handler (post_request sample_env (sample_order [sample_line])) sample_env
           (world_with [])) = Ok resp
    ∧ status resp = 200.
Proof.
  destruct (endpoint_status_as_coded
              (post_request sample_env (sample_order [sample_line])) sample_env
              (world_with [])) as (resp & Hresp & _ & Hok & _).
  exists resp. split; [exact Hresp |].
  apply Hok; by vm_compute.
Defined.

(** The scenario of the specification: an order without items is answered
    400 with the message of the violated rule, and nothing is sent. *)
Example endpoint_rejects_empty_items :
  fst (handler (post_request sample_env (sample_order [])) sample_env (world_with []))
  = Ok {| status := 400;
          body := VObj [ (lit "success", VBool false);
                         (lit "message", VStr (lit "Invalid order data"));
                         (lit "errors",
                          VArr [VStr (lit "Order must contain at least one item")]) ] |}
  ∧ trace (snd (handler (post_request sample_env (sample_order [])) sample_env
                  (world_with []))) = [].
Proof. by vm_compute. Qed.

(** A valid order without a customer e-mail address: the owner is
    notified, then the line that logs the results reads the status of a
    second notification that was never started, and the answer is 500. *)
Example endpoint_without_customer_email :
  status_of
    (fst (handler
            (post_request sample_env
               (VObj [ (lit "orderId", VStr (lit "ORD-20260212-001"));
                       (lit "userId", VStr (lit "user-123"));
                       (lit "customer",
                        VObj [ (lit "name", VStr (lit "Asha Patil"));
                               (lit "phone", VStr (lit "9876543210"));
                               (lit "address",
                                VStr (lit "12 Rambaugh Lane, Kalyan West")) ]);
                       (lit "items", VArr [sample_line]);
                       (lit "total", VNum 1600%Q) ]))
            sample_env (world_with []))) = Some 500.
Proof. by vm_compute. Qed.

(** C7 fails as stated: a well-formed order that was never written to the
    database, posted to the endpoint, is answered 200; no write happens
    before, during or after. *)
Lemma endpoint_200_without_persistence_counterexample :
  trace (world_with []) = []
  ∧ status_of (fst (handler (post_request sample_env (sample_order [sample_line]))
                      sample_env (world_with []))) = Some 200
  ∧ List.filter is_create
      (trace (snd (handler (post_request sample_env (sample_order [sample_line]))
                     sample_env (world_with [])))) = [].
Proof. by vm_compute. Qed.

End CheckoutAttempt.

Example phone_scenarios :
  Utils.validatePhone (Some (lit "9876543210")) = true ∧
  Utils.validatePhone (Some (lit "+919876543210")) = true ∧
  Utils.validatePhone (Some (lit "9198765432")) = true ∧
  Utils.validatePhone (Some (lit "1234567890")) = false ∧
  Utils.validatePhone None = false ∧
  Utils.validateEmail (Some (lit "user@example.com")) = true ∧
  Utils.validateEmail (Some (lit "a@b.c.d")) = true ∧
  Utils.validateEmail (Some (lit "invalid-email")) = false ∧
  Utils.validateEmail (Some (lit "a@b@c.d")) = false ∧
  Utils.generateOrderId 2026 1 12 1 = lit "ORD-20260212-001".
Proof. vm_compute. repeat split. Qed.

(** * Further properties *)

(** ** The rate limiter: separate identifiers, bounded table *)

Section RateLimiterMore.
Import SubmitOrder.

Implicit Types (store : gmap jsstring (list Z)) (ip : jsstring) (now : Z).

Lemma isRateLimited_other now ip ip' store :
  ip ≠ ip' → snd (isRateLimited now ip store) !! ip' = store !! ip'.
Proof.
  intros Hne.
  destruct (decide (5 ≤ length (within_hour now (default [] (store !! ip))))%nat).
  - by rewrite isRateLimited_reject.
  - rewrite isRateLimited_accept by lia. cbn. by rewrite lookup_insert_ne.
Qed.

Lemma isRateLimited_own now ip store1 store2 :
  store1 !! ip = store2 !! ip →
  fst (isRateLimited now ip store1) = fst (isRateLimited now ip store2)
  ∧ snd (isRateLimited now ip store1) !! ip = snd (isRateLimited now ip store2) !! ip.
Proof.
  intros Hsame. split.
  - by rewrite !isRateLimited_verdict, Hsame.
  - destruct (decide (5 ≤ length (within_hour now (default [] (store1 !! ip))))%nat)
      as [Hfull | Hroom].
    + rewrite (isRateLimited_reject now ip store1) by done.
      rewrite (isRateLimited_reject now ip store2) by by rewrite <- Hsame.
      done.
    + rewrite (isRateLimited_accept now ip store1) by lia.
      rewrite (isRateLimited_accept now ip store2) by (rewrite <- Hsame; lia).
      cbn. by rewrite !lookup_insert_eq, Hsame.
Qed.

Lemma step_check_unfold (log : list (jsstring * Z * bool)) store ip now :
  step_check (log, store) (ip, now)
  = (log ++ [(ip, now, fst (isRateLimited now ip store))],
     snd (isRateLimited now ip store)).
Proof. unfold step_check. cbn. by destruct (isRateLimited now ip store). Qed.

Lemma fold_checks_of (checks : list (jsstring * Z)) ip store1 store2
    (log1 log2 : list (jsstring * Z * bool)) :
  store1 !! ip = store2 !! ip →
  log_of ip log1 = log2 →
  log_of ip (fst (fold_left step_check checks (log1, store1)))
  = fst (fold_left step_check (checks_of ip checks) (log2, store2))
  ∧ snd (fold_left step_check checks (log1, store1)) !! ip
    = snd (fold_left step_check (checks_of ip checks) (log2, store2)) !! ip.
Proof.
  revert store1 store2 log1 log2.
  induction checks as [| [ip0 t] rest IH]; intros store1 store2 log1 log2 Hstore Hlog.
  - cbn. by split.
  - cbn [fold_left checks_of List.filter fst].
    rewrite step_check_unfold.
    case_bool_decide as Hip.
    + subst ip0. cbn [fold_left]. rewrite step_check_unfold.
      destruct (isRateLimited_own t ip store1 store2 Hstore) as [Hv Hs].
      apply IH; [done |].
      unfold log_of in *. rewrite List.filter_app, Hlog. cbn.
      by rewrite bool_decide_eq_true_2, Hv.
    + apply IH.
      * by rewrite isRateLimited_other.
      * unfold log_of in *. rewrite List.filter_app, Hlog. cbn.
        rewrite bool_decide_eq_false_2 by done. by rewrite app_nil_r.
Qed.

(** X1. What the limiter answers to one identifier does not depend on the
    requests of the others: in any run, the verdicts on the checks of an
    identifier, and what the table holds of it at the end, are those of
    the run of its checks alone. *)
Theorem rate_limiter_per_identifier (checks : list (jsstring * Z)) ip :
  log_of ip (fst (run_checks checks)) = fst (run_checks (checks_of ip checks))
  ∧ snd (run_checks checks) !! ip = snd (run_checks (checks_of ip checks)) !! ip.
Proof. unfold run_checks. by apply fold_checks_of. Qed.

Lemma isRateLimited_bounded now ip store :
  table_bounded store → table_bounded (snd (isRateLimited now ip store)).
Proof.
  intros Hb.
  destruct (decide (5 ≤ length (within_hour now (default [] (store !! ip))))%nat)
    as [Hfull | Hroom].
  - by rewrite isRateLimited_reject.
  - rewrite isRateLimited_accept by lia. cbn. intros ip' requests.
    destruct (decide (ip = ip')) as [<- | Hne].
    + rewrite lookup_insert_eq. intros [= <-]. rewrite length_app. cbn. lia.
    + rewrite lookup_insert_ne by done. apply Hb.
Qed.

Lemma fold_checks_bounded (checks : list (jsstring * Z)) store
    (log : list (jsstring * Z * bool)) :
  table_bounded store →
  table_bounded (snd (fold_left step_check checks (log, store))).
Proof.
  revert store log. induction checks as [| c rest IH]; intros store log Hb; [done |].
  cbn [fold_left]. destruct c as [ip t]. rewrite step_check_unfold.
  apply IH. by apply isRateLimited_bounded.
Qed.

(** X2. Whatever the requests and whatever the clock does, the table never
    holds more than five instants for an identifier. *)
Theorem rate_limiter_table_bounded (checks : list (jsstring * Z)) ip
    (requests : list Z) :
  snd (run_checks checks) !! ip = Some requests → (length requests ≤ 5)%nat.
Proof.
  unfold run_checks.
  apply (fold_checks_bounded checks ∅ []).
  intros ip' l. by rewrite lookup_empty.
Qed.

Lemma rate_limiter_table_bounded_witness :
  (length (default [] (snd (run_checks sample_checks) !! caller)) ≤ 5)%nat.
Proof.
  apply (rate_limiter_table_bounded sample_checks caller).
  by vm_compute.
Defined.

(** X3. In a process whose clock does not run backwards, at most five
    requests of an identifier are accepted in any hour: at any instant not
    before the last check, at most five accepted requests of the
    identifier are less than one hour old. *)
Theorem rate_limiter_five_per_hour (checks : list (jsstring * Z)) ip now :
  nondecreasing (List.map snd checks ++ [now]) →
  (length (within_hour now (accepted_instants ip (fst (run_checks checks)))) ≤ 5)%nat.
Proof.
  intros Hclock. rewrite <- run_checks_tracks by done.
  destruct (snd (run_checks checks) !! ip) as [requests |] eqn:Hip; cbn; [| lia].
  etrans; [apply length_filter |].
  apply (fold_checks_bounded checks ∅ [] (λ ip' l, ltac:(by rewrite lookup_empty)) ip).
  exact Hip.
Qed.

Lemma rate_limiter_five_per_hour_witness :
  (length (within_hour 3600001
             (accepted_instants caller (fst (run_checks sample_checks)))) ≤ 5)%nat.
Proof.
  apply (rate_limiter_five_per_hour sample_checks caller 3600001).
  cbn. lia.
Defined.

End RateLimiterMore.

(** ** The endpoint: methods, quota, sends *)

Section EndpointMore.
Import SubmitOrder Checkout.

Lemma world_untouched (w : world) :
  log_events (set_store w (rateLimitStore w)) [] = w.
Proof. by rewrite set_store_same, log_events_nil. Qed.

Lemma post_is_not_options (req : request) :
  method req = lit "POST" → method req ≠ lit "OPTIONS".
Proof. intros ->. discriminate. Qed.

(** X4. A preflight request is answered 200 and a request with any method
    other than OPTIONS and POST is answered 405; neither consumes quota of
    the rate limiter, sends anything or changes anything. *)
Theorem endpoint_other_methods (req : request) (e : env) (w : world) :
  (method req = lit "OPTIONS" →
     handler req e w = (Ok {| status := 200; body := VUndefined |}, w))
  ∧ (method req ≠ lit "OPTIONS" → method req ≠ lit "POST" →
       status_of (fst (handler req e w)) = Some 405 ∧ snd (handler req e w) = w).
Proof.
  split.
  - intros Hm. unfold handler. by rewrite bool_decide_eq_true_2.
  - intros Ho Hp. unfold handler.
    rewrite bool_decide_eq_false_2 by done.
    rewrite bool_decide_eq_false_2 by done. done.
Qed.

Lemma endpoint_other_methods_witness :
  status_of (fst (handler (get_request sample_env) sample_env (world_with [])))
  = Some 405
  ∧ snd (handler (get_request sample_env) sample_env (world_with []))
    = world_with [].
Proof.
  apply (endpoint_other_methods (get_request sample_env) sample_env (world_with []));
    discriminate.
Defined.

(** X5. A POST that the rate limiter refuses is answered 429 whatever its
    payload, and changes nothing.  Every other POST is recorded by the rate
    limiter, whether its payload then turns out acceptable, invalid or
    unreadable: the instant of the request is the last one on record for
    its caller. *)
Theorem endpoint_quota (req : request) (e : env) (w : world) :
  method req = lit "POST" →
  (fst (isRateLimited (server_now e) (client_ip req) (rateLimitStore w)) = true →
     status_of (fst (handler req e w)) = Some 429 ∧ snd (handler req e w) = w)
  ∧ (fst (isRateLimited (server_now e) (client_ip req) (rateLimitStore w)) = false →
       rateLimitStore (snd (handler req e w)) !! client_ip req
       = Some (within_hour (server_now e) (default [] (rateLimitStore w !! client_ip req))
               ++ [server_now e])).
Proof.
  intros Hpost. pose proof (post_is_not_options req Hpost) as Hoptions.
  destruct (handler_run req e w) as [body' Hrun]. rewrite Hrun. cbn [fst snd status_of].
  unfold expected_status, expected_store, expected_mails, admitted.
  rewrite (bool_decide_eq_false_2 _ Hoptions), (bool_decide_eq_true_2 _ Hpost).
  cbn [negb andb]. split.
  - intros Hlimited. rewrite Hlimited. cbn [negb andb]. split; [done |].
    rewrite isRateLimited_verdict in Hlimited. apply bool_decide_eq_true in Hlimited.
    rewrite isRateLimited_reject by done. cbn [snd]. apply world_untouched.
  - intros Hfree. rewrite isRateLimited_verdict in Hfree.
    apply bool_decide_eq_false in Hfree.
    rewrite isRateLimited_accept by lia. cbn. by rewrite lookup_insert_eq.
Qed.

Lemma endpoint_quota_witness :
  status_of (fst (handler (post_request sample_env (sample_order [sample_line]))
                    sample_env (world_after_five []))) = Some 429
  ∧ rateLimitStore (snd (handler (post_request sample_env VNull) sample_env
                           (world_with []))) !! caller
    = Some [server_now sample_env].
Proof.
  split.
  - apply (endpoint_quota (post_request sample_env (sample_order [sample_line]))
             sample_env (world_after_five [])); [reflexivity | by vm_compute].
  - apply (endpoint_quota (post_request sample_env VNull) sample_env (world_with []));
      [reflexivity | by vm_compute].
Defined.

(** X6. Whatever the request, the endpoint leaves the cart alone and issues
    at most one send to the owner and one to the customer, the one to the
    owner first; it sends nothing when the mail service is not configured,
    nothing for a request that is not an admitted POST, and it writes to the
    customer only when the order carries a customer e-mail address. *)
Theorem endpoint_sends (req : request) (e : env) (w : world) :
  ∃ evs,
    trace (snd (handler req e w)) = trace w ++ evs
    ∧ cart_slot (snd (handler req e w)) = cart_slot w
    ∧ (evs = []
       ∨ evs = [EvSendOwnerEmail (owner_send_ok e)]
       ∨ evs = [EvSendCustomerEmail (customer_send_ok e)]
       ∨ evs = [EvSendOwnerEmail (owner_send_ok e);
                EvSendCustomerEmail (customer_send_ok e)])
    ∧ (resend_configured e = false → evs = [])
    ∧ (admitted req (server_now e) (rateLimitStore w) = false → evs = [])
    ∧ (truthy (customer_email (req_body req)) = false →
         EvSendCustomerEmail (customer_send_ok e) ∉ evs).
Proof.
  destruct (handler_run req e w) as [body' ->]. cbn [snd].
  exists (expected_mails e req (rateLimitStore w)).
  split; [done |]. split; [done |].
  unfold expected_mails, owner_mails, customer_mails.
  case_bool_decide as Hoptions.
  { repeat split; try done; [by left | intros _; apply not_elem_of_nil]. }
  destruct (admitted req (server_now e) (rateLimitStore w)).
  2:{ repeat split; try done; [by left | intros _; apply not_elem_of_nil]. }
  destruct (resend_configured e), (renders_owner (req_body req)),
    (renders_customer (req_body req)),
    (truthy (customer_email (req_body req))); cbn;
    repeat split; try done; try (intros _; apply not_elem_of_nil);
    try (by left); try (by right; left); try (by right; right; left);
    try (by right; right; right);
    intros _ Hin; apply elem_of_cons in Hin as [Hin | Hin];
    try discriminate; by apply elem_of_nil in Hin.
Qed.

Lemma endpoint_sends_witness :
  ∃ evs,
    trace (snd (handler (post_request sample_env (sample_order [])) sample_env
                  (world_with []))) = [] ++ evs
    ∧ evs = [].
Proof.
  destruct (endpoint_sends (post_request sample_env (sample_order [])) sample_env
              (world_with [])) as (evs & Htrace & _ & _ & _ & Hnot & _).
  exists evs. split; [exact Htrace |]. apply Hnot. by vm_compute.
Defined.

(** X7. A POST within the rate limit whose payload passes the validation
    but names no customer e-mail address is answered 500, after the owner
    has been written to: the line that logs the results reads the second
    notification, which was never started. *)
Theorem endpoint_without_email_fails (req : request) (e : env) (w : world) :
  method req = lit "POST" →
  fst (isRateLimited (server_now e) (client_ip req) (rateLimitStore w)) = false →
  passes_validation (req_body req) = true →
  truthy (customer_email (req_body req)) = false →
  status_of (fst (handler req e w)) = Some 500
  ∧ trace (snd (handler req e w)) = trace w ++ owner_mails e (req_body req).
Proof.
  intros Hpost Hfree Hvalid Hemail.
  pose proof (post_is_not_options req Hpost) as Hoptions.
  destruct (handler_run req e w) as [body' ->]. cbn [fst snd status_of].
  unfold expected_status, expected_mails, admitted, customer_mails.
  unfold passes_validation in *.
  rewrite (bool_decide_eq_false_2 _ Hoptions), (bool_decide_eq_true_2 _ Hpost).
  rewrite Hfree, Hemail. cbn [negb andb].
  destruct (validateOrderData (req_body req)) as [v |]; [| discriminate].
  rewrite Hvalid, andb_false_r. cbn. by rewrite app_nil_r.
Qed.

Lemma endpoint_without_email_fails_witness :
  status_of
    (fst (handler
            (post_request sample_env
               (VObj [ (lit "orderId", VStr (lit "ORD-20260212-001"));
                       (lit "userId", VStr (lit "user-123"));
                       (lit "customer",
                        VObj [ (lit "name", VStr (lit "Asha Patil"));
                               (lit "phone", VStr (lit "9876543210"));
                               (lit "address",
                                VStr (lit "12 Rambaugh Lane, Kalyan West")) ]);
                       (lit "items", VArr [sample_line]);
                       (lit "total", VNum 1600%Q) ]))
            sample_env (world_with []))) = Some 500.
Proof.
  eapply proj1.
  apply endpoint_without_email_fails; by vm_compute.
Defined.

(** X8. The two notification functions are best effort.  The one to the
    owner never throws: it returns true exactly when the mail service is
    configured, the message can be built and the call to the mail service
    returns, whatever it returns; so it returns true also when the service
    answers that the mail was not sent.  It issues a send exactly when the
    first two hold.  The one to the customer, for an order that has a
    customer block, never throws either and further requires a customer
    e-mail address. *)
Theorem notifications_best_effort (o : value) (e : env) (w : world) :
  sendEmailToOwner o e w
  = (Ok (resend_configured e && renders_owner o && resolves (owner_send e)),
     log_events w (owner_mails e o))
  ∧ (non_nullish (prop o "customer") = true → non_nullish o = true →
       sendEmailConfirmation o e w
       = (Ok (resend_configured e && truthy (customer_email o) && renders_customer o
              && resolves (customer_send e)),
          log_events w (customer_mails e o)))
  ∧ (resend_configured e = true → renders_owner o = true →
       owner_send e = NotSent → fst (sendEmailToOwner o e w) = Ok true)
  ∧ (resend_configured e = true → renders_customer o = true →
       truthy (customer_email o) = true → customer_send e = NotSent →
       fst (sendEmailConfirmation o e w) = Ok true).
Proof.
  assert (sendEmailToOwner o e w
          = (Ok (resend_configured e && renders_owner o && resolves (owner_send e)),
             log_events w (owner_mails e o))) as Howner.
  { unfold sendEmailToOwner, owner_mails, renders_owner, must, owner_send_ok. unfold_m.
    destruct (resend_configured e); cbn; [| by rewrite log_events_nil].
    destruct (render_owner_email o); cbn; [| by rewrite log_events_nil].
    by destruct (resolves (owner_send e)). }
  assert (non_nullish (prop o "customer") = true → non_nullish o = true →
          sendEmailConfirmation o e w
          = (Ok (resend_configured e && truthy (customer_email o) && renders_customer o
                 && resolves (customer_send e)),
             log_events w (customer_mails e o))) as Hcustomer.
  { intros Hc Ho.
    unfold sendEmailConfirmation, customer_mails, customer_email, renders_customer,
      must, customer_send_ok.
    unfold_m.
    destruct (resend_configured e); cbn; [| by rewrite log_events_nil].
    rewrite (get_prop o "customer") by done. cbn.
    rewrite (get_prop (prop o "customer") "email") by done. cbn.
    destruct (truthy (prop (prop o "customer") "email")); cbn;
      [| by rewrite log_events_nil].
    destruct (render_customer_email o); cbn; [| by rewrite log_events_nil].
    by destruct (resolves (customer_send e)). }
  split; [exact Howner |]. split; [exact Hcustomer |]. split.
  - intros Hconfigured Hrenders Hsend.
    by rewrite Howner, Hconfigured, Hrenders, Hsend.
  - intros Hconfigured Hrenders Hemail Hsend.
    assert (non_nullish (prop o "customer") = true ∧ non_nullish o = true) as [Hc Ho].
    { split.
      - unfold customer_email in Hemail.
        by destruct (prop o "customer").
      - unfold renders_customer, render_customer_email in Hrenders.
        by destruct o. }
    by rewrite Hcustomer, Hconfigured, Hrenders, Hemail, Hsend.
Qed.

Lemma notifications_best_effort_witness :
  fst (sendEmailToOwner (sample_order [sample_line])
         (with_sends sample_env true NotSent NotSent) (world_with []))
  = Ok true.
Proof.
  destruct (notifications_best_effort (sample_order [sample_line])
              (with_sends sample_env true NotSent NotSent) (world_with []))
    as (_ & _ & Hnot_sent & _).
  apply Hnot_sent; reflexivity.
Defined.

(** An order whose phone field has no conversion to a string passes the
    validation; the mail to the owner, which prints the phone, is not
    built, and the customer, whose mail does not print it, is written to
    alone. *)
Example customer_written_to_alone :
  trace (snd (handler (post_request sample_env
                         (order_with_unprintable_phone [sample_line]))
                sample_env (world_with [])))
  = [EvSendCustomerEmail true].
Proof. by vm_compute. Qed.

End EndpointMore.
(** ** The submission from the browser *)

Section SubmitMore.
Import SubmitOrder Checkout.

Ltac decide_keys :=
  repeat first
    [ rewrite bool_decide_eq_true_2 by reflexivity
    | rewrite bool_decide_eq_false_2 by (by vm_compute) ].

(** The answer to a POST carries the message of its status, and the answer
    200 carries the identifier of the order it was given. *)
Lemma handler_answer (req : request) (e : env) (w : world) :
  method req = lit "POST" →
  ∃ resp,
    fst (handler req e w) = Ok resp
    ∧ status resp = expected_status req (server_now e) (rateLimitStore w)
    ∧ prop (body resp) "message" = VStr (expected_message (status resp))
    ∧ (status resp = 200 →
         prop (body resp) "success" = VBool true
         ∧ prop (body resp) "orderId" = prop (req_body req) "orderId").
Proof.
  intros Hpost. pose proof (post_is_not_options req Hpost) as Hoptions.
  unfold handler, expected_status.
  rewrite (bool_decide_eq_false_2 _ Hoptions), (bool_decide_eq_true_2 _ Hpost).
  cbn [negb].
  unfold check_rate_limit, json, must. unfold_m. cbn.
  destruct (isRateLimited (server_now e) (client_ip req) (rateLimitStore w))
    as [limited store'] eqn:Hrate.
  cbn [fst snd].
  destruct limited; cbn.
  { eexists. split; [done |]. cbn [status body]. split; [done |].
    unfold prop, get. cbn [lookup_field]. decide_keys. split; [done | discriminate]. }
  destruct (validateOrderData (req_body req)) as [v |] eqn:Hv; cbn.
  2:{ eexists. split; [done |]. cbn [status body]. split; [done |].
      unfold prop, get. cbn [lookup_field]. decide_keys. split; [done | discriminate]. }
  destruct (isValid v) eqn:Hvalid; cbn.
  2:{ eexists. split; [done |]. cbn [status body]. split; [done |].
      unfold prop, get. cbn [lookup_field]. decide_keys. split; [done | discriminate]. }
  pose proof (validateOrderData_non_nullish _ _ Hv) as Ho.
  pose proof (valid_has_customer _ _ Hv Hvalid) as Hc.
  rewrite settled_run.
  destruct (sendEmailToOwner_run (req_body req) e (set_store w store')) as [sent ->].
  cbn [snd].
  rewrite (get_prop (req_body req) "customer") by done. cbn.
  rewrite (get_prop (prop (req_body req) "customer") "email")
    by by apply truthy_non_nullish.
  cbn. fold (customer_email (req_body req)).
  destruct (truthy (customer_email (req_body req))) eqn:Hemail; cbn.
  - rewrite settled_run.
    destruct (sendEmailConfirmation_run (req_body req) e
                (log_events (set_store w store') (owner_mails e (req_body req))))
      as [r ->].
    cbn [snd].
    rewrite (get_prop (req_body req) "orderId") by done. cbn.
    eexists. split; [done |]. cbn [status body]. split; [done |].
    unfold prop at 1 2 3, get. cbn [lookup_field]. decide_keys. done.
  - eexists. split; [done |]. cbn [status body]. split; [done |].
    unfold prop, get. cbn [lookup_field]. decide_keys. split; [done | discriminate].
Qed.

Lemma post_status_cases (req : request) (now : Z) (store : gmap jsstring (list Z)) :
  method req = lit "POST" →
  expected_status req now store = 200 ∨ is_2xx (expected_status req now store) = false.
Proof.
  intros Hpost. pose proof (post_is_not_options req Hpost) as Hoptions.
  unfold expected_status.
  rewrite (bool_decide_eq_false_2 _ Hoptions), (bool_decide_eq_true_2 _ Hpost).
  cbn [negb].
  destruct (fst (isRateLimited _ _ _)); [by right |].
  destruct (validateOrderData _) as [v |]; [| by right].
  destruct (isValid v); cbn [negb]; [| by right].
  destruct (truthy _); [by left | by right].
Qed.

Lemma expected_message_truthy (status' : Z) :
  truthy (VStr (expected_message status')) = true.
Proof.
  unfold expected_message.
  repeat (destruct (_ =? _); [by vm_compute |]). by vm_compute.
Qed.

Lemma prop_string (v : value) (k : string) (m : jsstring) :
  prop v k = VStr m → get v (lit k) = Some (VStr m).
Proof. unfold prop. destruct (get v (lit k)); cbn; congruence. Qed.

(** X9. [submitOrder] throws when the request does not reach the endpoint,
    and then the endpoint has done nothing.  When the endpoint answers
    anything but 200 it throws the message of that answer; when the
    endpoint answers 200 it returns the answer, which reports success and
    repeats the identifier of the order. *)
Theorem submitOrder_outcome (o : value) (e : env) (w : world) :
  (network_ok e = false →
     ∃ err, submitOrder o e w = (Throw err, log_events w [EvSubmitOrder o]))
  ∧ (network_ok e = true → submission_status o e w ≠ 200 →
       fst (submitOrder o e w)
       = Throw (VStr (expected_message (submission_status o e w))))
  ∧ (network_ok e = true → submission_status o e w = 200 →
       ∃ answer,
         fst (submitOrder o e w) = Ok answer
         ∧ prop answer "success" = VBool true
         ∧ prop answer "orderId" = prop o "orderId").
Proof.
  unfold submitOrder, fetch_submit_order, submission_status.
  split; [| split].
  - intros Hnet. unfold_m. cbn. rewrite Hnet. eauto.
  - intros Hnet Hstatus. unfold_m. cbn. rewrite Hnet. fold (post_request e o).
    destruct (handler_answer (post_request e o) e (log_events w [EvSubmitOrder o])
                eq_refl) as (resp & Hresp & Hst & Hmsg & _).
    cbn [rateLimitStore log_events] in Hst.
    destruct (handler (post_request e o) e (log_events w [EvSubmitOrder o]))
      as [r w'].
    cbn in Hresp. subst r. cbn.
    unfold response_ok. fold (is_2xx (status resp)). rewrite Hst.
    destruct (post_status_cases (post_request e o) (server_now e) (rateLimitStore w)
                eq_refl) as [H200 | Hnot]; [contradiction |].
    rewrite Hnot. cbn. unfold must.
    rewrite (prop_string _ _ _ Hmsg). cbn.
    unfold or_else. rewrite expected_message_truthy. cbn. by rewrite Hst.
  - intros Hnet Hstatus. unfold_m. cbn. rewrite Hnet. fold (post_request e o).
    destruct (handler_answer (post_request e o) e (log_events w [EvSubmitOrder o])
                eq_refl) as (resp & Hresp & Hst & _ & Hok).
    cbn [rateLimitStore log_events] in Hst.
    destruct (handler (post_request e o) e (log_events w [EvSubmitOrder o]))
      as [r w'].
    cbn in Hresp. subst r. cbn.
    unfold response_ok. rewrite Hst, Hstatus. cbn.
    exists (body resp). split; [done |]. apply Hok. by rewrite Hst.
Qed.

Lemma submitOrder_outcome_witness :
  fst (submitOrder (sample_order [sample_line]) sample_env (world_after_five []))
  = Throw (VStr (lit "Too many requests. Please try again later.")).
Proof.
  destruct (submitOrder_outcome (sample_order [sample_line]) sample_env
              (world_after_five [])) as (_ & Hrefused & _).
  rewrite Hrefused; [| reflexivity | by vm_compute].
  by vm_compute.
Defined.

End SubmitMore.
(** ** The checkout and the endpoint together *)

Section CheckoutMore.
Import SubmitOrder Checkout.

Ltac decide_keys' :=
  repeat first
    [ rewrite bool_decide_eq_true_2 by reflexivity
    | rewrite bool_decide_eq_false_2 by (by vm_compute) ].

Lemma entity_nonempty (c : N) : Utils.entity Utils.entity_map c ≠ [].
Proof.
  unfold Utils.entity, Utils.entity_map.
  repeat (destruct (_ =? c)%N; [by vm_compute |]). by vm_compute.
Qed.

Lemma sanitizeInput_nonempty (s : jsstring) :
  s ≠ [] → Utils.sanitizeInput (VStr s) ≠ [].
Proof.
  destruct s as [| c rest]; [done |]. intros _ H.
  cbn [Utils.sanitizeInput Utils.replace_class] in H.
  apply app_eq_nil in H as [H _].
  destruct (Utils.special c); [by apply entity_nonempty in H | discriminate].
Qed.

Lemma truthy_field_sanitized (f : option jsstring) :
  truthy (field f) = true → truthy (VStr (Utils.sanitizeInput (field f))) = true.
Proof.
  destruct f as [s |]; [| discriminate]. cbn [field truthy].
  intros Hs. apply negb_true_iff, bool_decide_eq_false in Hs.
  apply negb_true_iff, bool_decide_eq_false. by apply sanitizeInput_nonempty.
Qed.




Lemma positive_num (z : Z) : positive_number (num z) = bool_decide (0 < z).
Proof.
  unfold positive_number, num, Qle_bool. cbn.
  case_bool_decide; [apply negb_true_iff | apply negb_false_iff]; lia.
Qed.







Lemma built_order_email (f : Form.form) (u : Form.user) (e : env)
    (cat : list Products.product) (cart : list cart_item) :
  truthy (customer_email (checkout_order f u e cat cart))
  = truthy (field (Form.email f)) || truthy (field (Form.user_email u)).
Proof.
  unfold customer_email, checkout_order, build_order.
  unfold prop, get. cbn [lookup_field default from_option id]. decide_keys'.
  cbn [lookup_field default from_option id]. decide_keys'.
  destruct (truthy (field (Form.email f))) eqn:Hemail; [| done].
  by rewrite (truthy_field_sanitized _ Hemail).
Qed.

Lemma status_of_built_order (f : Form.form) (u : Form.user) (e : env) (w : world)
    (cat : list Products.product) :
  submission_status (checkout_order f u e cat (stored_cart w)) e w
  = if fst (isRateLimited (server_now e) (caller_ip e) (rateLimitStore w)) then 429
    else if negb (passes_validation (checkout_order f u e cat (stored_cart w))) then 400
    else if truthy (field (Form.email f)) || truthy (field (Form.user_email u))
    then 200 else 500.
Proof.
  unfold submission_status, expected_status, passes_validation.
  rewrite <- built_order_email with (e := e) (cat := cat) (cart := stored_cart w).
  cbn [post_request method req_body].
  rewrite (bool_decide_eq_false_2 (lit "POST" = lit "OPTIONS")) by discriminate.
  rewrite (bool_decide_eq_true_2 (lit "POST" = lit "POST")) by done. cbn [negb].
  change (client_ip (post_request e (checkout_order f u e cat (stored_cart w))))
    with (caller_ip e).
  by rewrite validateOrderData_rules by reflexivity.
Qed.



(** X12. When the caller has already used up the rate limit, a checkout
    attempt that gets as far as the order-creation write still writes the
    order; the endpoint then refuses the submission, nothing is sent, the
    attempt throws and the cart stays as it was. *)
Theorem checkout_when_rate_limited (f : Form.form) (u : Form.user) (e : env)
    (w : world) (cat : list Products.product) :
  isValid (validateCheckoutForm f) = true →
  catalog e = Some cat →
  kept_items cat (stored_cart w) ≠ [] →
  createOrder_ok e = true → network_ok e = true →
  fst (isRateLimited (server_now e) (caller_ip e) (rateLimitStore w)) = true →
  returned (fst (processCheckout f u e w)) = false
  ∧ trace (snd (processCheckout f u e w))
    = trace w ++ [ EvCreateOrder (checkout_order f u e cat (stored_cart w)) true;
                   EvSubmitOrder (checkout_order f u e cat (stored_cart w)) ]
  ∧ cart_slot (snd (processCheckout f u e w)) = cart_slot w.
Proof.
  intros Hform Hcat Hkept Hcreate Hnet Hlimited.
  destruct (processCheckout_run f u e w) as (Hret & Htrace & Hcart).
  rewrite Hret, Htrace, Hcart.
  unfold checkout_succeeds, checkout_events, checkout_proceeds.
  rewrite Hcat, Hform, Hcreate, Hnet.
  rewrite status_of_built_order, Hlimited.
  unfold expected_mails, admitted.
  cbn [post_request method req_body].
  change (client_ip (post_request e (checkout_order f u e cat (stored_cart w))))
    with (caller_ip e).
  rewrite Hlimited.
  rewrite (bool_decide_eq_false_2 (lit "POST" = lit "OPTIONS")) by discriminate.
  cbn [negb andb is_2xx]. rewrite andb_false_r. cbn [andb].
  destruct (length (details_of cat (stored_cart w)) =? 0)%nat eqn:Hempty.
  { apply details_empty_iff in Hempty. contradiction. }
  done.
Qed.

Lemma checkout_when_rate_limited_witness :
  returned (fst (processCheckout sample_form sample_user sample_env
                   (world_after_five [cart_of (lit "buffalo-ghee") 2]))) = false.
Proof.
  eapply proj1.
  apply (checkout_when_rate_limited sample_form sample_user sample_env
           (world_after_five [cart_of (lit "buffalo-ghee") 2]) [ghee; milk]);
    try reflexivity; try discriminate; by vm_compute.
Defined.

(** X13. With the catalog available, a checkout attempt ends in one of four
    ways: it throws the form's messages joined by a comma when the form is
    invalid, it throws that the cart is empty when no line of the cart is a
    product of the catalog, it returns the identifier generated for the
    order when every later step succeeds, and it throws one fixed message,
    whatever went wrong, once the order-creation write has been issued. *)
Theorem processCheckout_result (f : Form.form) (u : Form.user) (e : env) (w : world)
    (cat : list Products.product) :
  catalog e = Some cat →
  fst (processCheckout f u e w)
  = if negb (isValid (validateCheckoutForm f))
    then Throw (VStr (join (lit ", ") (errors (validateCheckoutForm f))))
    else if (length (details_of cat (stored_cart w)) =? 0)%nat
    then Throw (VStr (lit "Your cart is empty"))
    else if checkout_succeeds f u e w
    then Ok (Utils.generateOrderId (clock_year e) (clock_month e) (clock_day e)
               (random1000 e))
    else Throw (VStr (lit "Failed to process order. Please try again.")).
Proof.
  intros Hcat.
  remember (processCheckout f u e w) as run eqn:Hrun.
  unfold processCheckout in Hrun.
  unfold checkout_succeeds, checkout_proceeds. rewrite Hcat.
  destruct (isValid (validateCheckoutForm f)) eqn:Hform; cbn [negb andb] in Hrun |- *.
  2:{ by subst run. }
  unfold bind at 1 in Hrun. rewrite (getCartWithDetails_loaded e cat Hcat) in Hrun.
  fold (stored_cart w) in Hrun.
  destruct (length (details_of cat (stored_cart w)) =? 0)%nat eqn:Hempty;
    cbn [negb] in Hrun |- *.
  { by subst run. }
  unfold bind at 1 in Hrun. rewrite (calculateTotal_loaded e cat Hcat) in Hrun.
  fold (stored_cart w) in Hrun. unfold bind at 1 in Hrun. unfold ask at 1 in Hrun.
  fold (checkout_order f u e cat (stored_cart w)) in Hrun.
  set (o := checkout_order f u e cat (stored_cart w)) in *.
  unfold try_catch, DatabaseService.createOrder in Hrun.
  unfold bind at 1 in Hrun. unfold bind at 1 in Hrun. unfold ask at 1 in Hrun.
  unfold bind at 1 in Hrun. unfold emit at 1 in Hrun.
  destruct (createOrder_ok e) eqn:Hcreate; cbn [andb].
  2:{ by subst run. }
  unfold ret at 1 in Hrun. unfold bind at 1 in Hrun.
  destruct (submitOrder_run o e (log_events w [EvCreateOrder o true]))
    as (r & Hsub & Hret).
  rewrite Hsub in Hrun. clear Hsub.
  cbn [rateLimitStore log_events] in Hret, Hrun.
  unfold submission_status in *. cbn [rateLimitStore log_events] in Hret.
  destruct (network_ok e) eqn:Hnet; cbn [andb] in Hret |- *.
  2:{ destruct r; [discriminate |]. by subst run. }
  destruct (is_2xx _) eqn:Hstatus; cbn [andb] in Hret |- *.
  2:{ destruct r; [discriminate |]. by subst run. }
  destruct r as [b | err]; [| discriminate].
  unfold user_updated, DatabaseService.updateUser, Cart.clearCart in *.
  destruct (truthy (field (Form.phone f))); cbn [negb orb]; subst run.
  - unfold_m. cbn. by destruct (updateUser_ok e).
  - unfold_m. by cbn.
Qed.

Lemma processCheckout_result_witness :
  fst (processCheckout sample_form sample_user sample_env
         (world_with [cart_of (lit "buffalo-ghee") 2]))
  = Ok (Utils.generateOrderId (clock_year sample_env) (clock_month sample_env)
          (clock_day sample_env) (random1000 sample_env)).
Proof.
  rewrite (processCheckout_result sample_form sample_user sample_env
             (world_with [cart_of (lit "buffalo-ghee") 2]) [ghee; milk] eq_refl).
  by vm_compute.
Defined.

Lemma invalid_total (o : value) :
  positive_number (prop o "total") = false → passes_validation o = false.
Proof.
  intros Htotal. unfold passes_validation.
  destruct (validateOrderData o) as [v |] eqn:Hv; [| done].
  assert (non_nullish o = true) as Ho.
  { destruct o; try done; unfold validateOrderData in Hv; by cbn in Hv. }
  rewrite validateOrderData_rules in Hv by done. injection Hv as <-.
  cbn [isValid]. unfold violated_messages, order_rules. rewrite Htotal.
  cbn [negb].
  repeat match goal with
         | |- context [ (?b, _) :: _ ] =>
             lazymatch b with
             | true => fail
             | false => fail
             | _ => destruct b
             end
         end; done.
Qed.

(** X14. When the total of the cart with the delivery charge is not above
    zero, a checkout with a valid form still issues the order-creation
    write; the endpoint then answers 400 without sending anything, the
    attempt throws and the cart stays as it was. *)
Theorem checkout_of_free_order (f : Form.form) (u : Form.user) (e : env)
    (w : world) (cat : list Products.product) :
  isValid (validateCheckoutForm f) = true →
  catalog e = Some cat →
  kept_items cat (stored_cart w) ≠ [] →
  expected_subtotal cat (stored_cart w) + Config.DELIVERY_CHARGE (cfg e) ≤ 0 →
  createOrder_ok e = true → network_ok e = true →
  fst (isRateLimited (server_now e) (caller_ip e) (rateLimitStore w)) = false →
  submission_status (checkout_order f u e cat (stored_cart w)) e w = 400
  ∧ returned (fst (processCheckout f u e w)) = false
  ∧ trace (snd (processCheckout f u e w))
    = trace w ++ [ EvCreateOrder (checkout_order f u e cat (stored_cart w)) true;
                   EvSubmitOrder (checkout_order f u e cat (stored_cart w)) ]
  ∧ cart_slot (snd (processCheckout f u e w)) = cart_slot w.
Proof.
  intros Hform Hcat Hkept Htotal Hcreate Hnet Hfree.
  assert (passes_validation (checkout_order f u e cat (stored_cart w)) = false)
    as Hinvalid.
  { apply invalid_total.
    unfold checkout_order, build_order.
    unfold prop, get. cbn [lookup_field default from_option id]. decide_keys'.
    rewrite positive_num. cbn [totals_total]. apply bool_decide_eq_false_2. lia. }
  assert (submission_status (checkout_order f u e cat (stored_cart w)) e w = 400)
    as Hstatus.
  { by rewrite status_of_built_order, Hfree, Hinvalid. }
  split; [done |].
  destruct (processCheckout_run f u e w) as (Hret & Htrace & Hcart).
  rewrite Hret, Htrace, Hcart.
  unfold checkout_succeeds, checkout_events, checkout_proceeds.
  rewrite Hcat, Hform, Hcreate, Hnet, Hstatus.
  unfold expected_mails, admitted.
  cbn [post_request method req_body].
  rewrite Hinvalid.
  rewrite (bool_decide_eq_false_2 (lit "POST" = lit "OPTIONS")) by discriminate.
  cbn [negb andb is_2xx]. rewrite !andb_false_r. cbn [andb].
  destruct (length (details_of cat (stored_cart w)) =? 0)%nat eqn:Hempty.
  { apply details_empty_iff in Hempty. contradiction. }
  done.
Qed.

Lemma checkout_of_free_order_witness :
  returned (fst (processCheckout sample_form sample_user
                   (with_catalog sample_env [free_sample])
                   (world_with [cart_of (lit "free-sample") 1]))) = false.
Proof.
  eapply proj1, proj2.
  apply (checkout_of_free_order sample_form sample_user
           (with_catalog sample_env [free_sample])
           (world_with [cart_of (lit "free-sample") 1]) [free_sample]);
    try reflexivity; try discriminate; by vm_compute.
Defined.

End CheckoutMore.

(** ** The cart: outcomes of the operations, one line per product *)

Section CartMore.
Import Cart.

Implicit Types (p : jsstring) (q : Z) (cart : list cart_item) (e : env) (w : world).


Lemma find_item_none p cart :
  find_item p cart = None ↔ lines_of p cart = [].
Proof.
  unfold find_item, lines_of.
  induction cart as [| it rest IH]; cbn [List.find List.filter]; [done |].
  case_bool_decide; [done | exact IH].
Qed.

Lemma find_item_some p cart it :
  find_item p cart = Some it → productId it = p ∧ ∃ rest, lines_of p cart = it :: rest.
Proof.
  unfold find_item, lines_of.
  induction cart as [| x rest IH]; cbn [List.find List.filter]; [done |].
  case_bool_decide as Hx.
  - intros [= ->]. eauto.
  - exact IH.
Qed.

Lemma in_cart_find p cart :
  in_cart p cart = match find_item p cart with Some _ => true | None => false end.
Proof.
  unfold in_cart. destruct (find_item p cart) as [it |] eqn:Hfind.
  - apply find_item_some in Hfind as (_ & rest & ->). done.
  - apply find_item_none in Hfind as ->. done.
Qed.


Lemma lines_of_set_quantity_other p p' (f : Z → Z) cart :
  p' ≠ p → lines_of p' (set_quantity p f cart) = lines_of p' cart.
Proof.
  intros Hne. unfold lines_of.
  induction cart as [| it rest IH]; cbn [set_quantity List.filter]; [done |].
  case_bool_decide as Hit; cbn [List.filter productId].
  - rewrite Hit. by rewrite bool_decide_eq_false_2 by done.
  - by rewrite IH.
Qed.

Lemma lines_of_set_quantity p (f : Z → Z) cart it rest :
  lines_of p cart = it :: rest →
  lines_of p (set_quantity p f cart)
  = {| productId := productId it; quantity := f (quantity it);
       addedAt := addedAt it |} :: rest.
Proof.
  unfold lines_of.
  induction cart as [| x xs IH]; cbn [set_quantity List.filter]; [done |].
  case_bool_decide as Hx; cbn [List.filter productId].
  - rewrite bool_decide_eq_true_2 by done. by intros [= -> ->].
  - rewrite bool_decide_eq_false_2 by done. exact IH.
Qed.

Lemma lines_of_removed p p' cart :
  lines_of p' (List.filter (λ it, negb (bool_decide (productId it = p))) cart)
  = if bool_decide (p' = p) then [] else lines_of p' cart.
Proof.
  unfold lines_of.
  induction cart as [| it rest IH]; cbn [List.filter]; [by case_bool_decide |].
  destruct (bool_decide (productId it = p)) eqn:Hit; cbn [negb List.filter].
  - rewrite IH. apply bool_decide_eq_true in Hit.
    case_bool_decide as Hp; [done |].
    rewrite bool_decide_eq_false_2; [done | congruence].
  - rewrite IH. apply bool_decide_eq_false in Hit.
    case_bool_decide as Hp; [| done].
    rewrite bool_decide_eq_false_2; [done | congruence].
Qed.

Lemma set_quantity_ids p (f : Z → Z) cart :
  List.map productId (set_quantity p f cart) = List.map productId cart.
Proof.
  induction cart as [| it rest IH]; cbn [set_quantity List.map]; [done |].
  case_bool_decide; cbn [List.map productId]; by rewrite ?IH.
Qed.

Lemma set_quantity_length p (f : Z → Z) cart :
  length (set_quantity p f cart) = length cart.
Proof. by rewrite <- (length_map productId), set_quantity_ids, length_map. Qed.








(** What [addToCart] does, in one equation. *)
Lemma addToCart_run p q e w :
  addToCart p q e w
  = if product_available e p && storage_writable e
    then (Ok true,
          set_cart_slot w
            (Some match find_item p (stored_cart w) with
                  | Some _ => set_quantity p (λ x, x + q) (stored_cart w)
                  | None => stored_cart w ++ [ {| productId := p; quantity := q;
                                                  addedAt := clock_iso e |} ]
                  end))
    else (Ok false, w).
Proof.
  unfold addToCart, getProductById, fetchProducts, getCart, saveCart,
    product_available, lookup_product.
  unfold_m.
  destruct (catalog e) as [cat |]; cbn; [| done].
  destruct (List.find _ cat) as [prod |]; cbn; [| done].
  destruct (Products.inStock prod); cbn; [| done].
  by destruct (storage_writable e).
Qed.

Lemma removeFromCart_run p e w :
  removeFromCart p e w
  = if in_cart p (stored_cart w) && storage_writable e
    then (Ok true,
          set_cart_slot w
            (Some (List.filter (λ it, negb (bool_decide (productId it = p)))
                     (stored_cart w))))
    else (Ok false, w).
Proof.
  unfold removeFromCart, getCart, saveCart. unfold_m. cbn. fold (stored_cart w).
  assert ((length (List.filter (λ it, negb (bool_decide (productId it = p)))
                     (stored_cart w)) =? length (stored_cart w))%nat
          = negb (in_cart p (stored_cart w))) as ->.
  { unfold in_cart, lines_of. rewrite negb_involutive.
    induction (stored_cart w) as [| it rest IH]; cbn [List.filter length]; [done |].
    pose proof (filter_length_le_cart (λ it, negb (bool_decide (productId it = p))) rest)
      as Hle.
    destruct (bool_decide (productId it = p)); cbn [negb length].
    - apply Nat.eqb_neq. lia.
    - exact IH. }
  destruct (in_cart p (stored_cart w)); cbn; [| done].
  by destruct (storage_writable e).
Qed.

Lemma updateCartItem_run p q e w :
  1 ≤ q →
  updateCartItem p q e w
  = if in_cart p (stored_cart w) && storage_writable e
    then (Ok true, set_cart_slot w (Some (set_quantity p (λ _, q) (stored_cart w))))
    else (Ok false, w).
Proof.
  intros Hq. unfold updateCartItem. apply Z.ltb_ge in Hq. rewrite Hq.
  unfold getCart, saveCart. unfold_m. cbn. fold (stored_cart w).
  rewrite in_cart_find.
  destruct (find_item p (stored_cart w)); cbn; [| done].
  by destruct (storage_writable e).
Qed.

(** X15. [addToCart] never throws.  It answers true exactly when the
    catalog could be fetched, has the product, has it in stock and the
    storage took the write; when it answers false nothing has changed. *)
Theorem addToCart_outcome p q e w :
  fst (addToCart p q e w) = Ok (product_available e p && storage_writable e)
  ∧ (product_available e p && storage_writable e = false →
     snd (addToCart p q e w) = w).
Proof.
  rewrite addToCart_run.
  destruct (product_available e p && storage_writable e); by split.
Qed.

Lemma addToCart_outcome_witness :
  snd (addToCart (lit "buffalo-ghee") 1 (with_catalog sample_env [ghee_sold_out])
         (world_with []))
  = world_with [].
Proof.
  apply (addToCart_outcome (lit "buffalo-ghee") 1
           (with_catalog sample_env [ghee_sold_out]) (world_with [])).
  reflexivity.
Defined.



Lemma distinct_after_filter (keep : cart_item → bool) cart :
  distinct_lines cart → distinct_lines (List.filter keep cart).
Proof.
  unfold distinct_lines.
  induction cart as [| it rest IH]; cbn [List.filter List.map]; [done |].
  intros Hnd. apply NoDup_cons in Hnd as [Hit Hrest].
  destruct (keep it); cbn [List.map]; [| auto].
  apply NoDup_cons. split; [| auto].
  intros Hin. apply Hit.
  apply list_elem_of_In, in_map_iff in Hin as (x & Hx & Hin).
  apply filter_In in Hin as [Hin _].
  apply list_elem_of_In, in_map_iff. eauto.
Qed.

Lemma distinct_after_push cart (it : cart_item) :
  find_item (productId it) cart = None →
  distinct_lines cart → distinct_lines (cart ++ [it]).
Proof.
  unfold distinct_lines. intros Hfind Hnd.
  rewrite List.map_app. apply NoDup_app. split; [done |]. split.
  - intros x Hx Hin. cbn in Hin. apply elem_of_cons in Hin as [-> | Hin].
    + apply list_elem_of_In, in_map_iff in Hx as (y & Hy & Hin).
      unfold find_item in Hfind.
      apply (find_none _ _ Hfind) in Hin.
      by apply bool_decide_eq_false in Hin.
    + by apply elem_of_nil in Hin.
  - cbn. apply NoDup_singleton.
Qed.

Lemma run_op_distinct (op : cart_op) e w :
  distinct_lines (stored_cart w) → distinct_lines (stored_cart (snd (run_op op e w))).
Proof.
  intros Hnd. destruct op as [p q | p q | p |]; cbn [run_op].
  - rewrite addToCart_run.
    destruct (_ && _); cbn [snd]; [| done].
    cbn [stored_cart set_cart_slot cart_slot default from_option id].
    fold (stored_cart w).
    destruct (find_item p (stored_cart w)) eqn:Hfind.
    + unfold distinct_lines. by rewrite set_quantity_ids.
    + by apply distinct_after_push.
  - unfold updateCartItem. destruct (q <? 1) eqn:Hq.
    + rewrite removeFromCart_run. destruct (_ && _); cbn [snd]; [| done].
      by apply distinct_after_filter.
    + apply Z.ltb_ge in Hq. pose proof (updateCartItem_run p q e w Hq) as Hrun.
      unfold updateCartItem in Hrun. apply Z.ltb_ge in Hq. rewrite Hq in Hrun.
      rewrite Hrun. destruct (_ && _); cbn [snd]; [| done].
      unfold distinct_lines. cbn. by rewrite set_quantity_ids.
  - rewrite removeFromCart_run. destruct (_ && _); cbn [snd]; [| done].
    by apply distinct_after_filter.
  - cbn. constructor.
Qed.

(** X17. The cart keeps one line per product: whatever operations a session
    runs, in whatever environments, a cart whose lines are for distinct
    products stays one. *)
Theorem cart_lines_distinct (ops : list (env * cart_op)) w :
  distinct_lines (stored_cart w) → distinct_lines (stored_cart (run_ops ops w)).
Proof.
  revert w. induction ops as [| [e op] rest IH]; intros w Hnd; cbn [run_ops]; [done |].
  apply IH. by apply run_op_distinct.
Qed.

Lemma cart_lines_distinct_witness :
  distinct_lines
    (stored_cart
       (run_ops [ (sample_env, OpAddToCart (lit "buffalo-ghee") 2);
                  (sample_env, OpAddToCart (lit "cow-milk") 1);
                  (sample_env, OpAddToCart (lit "buffalo-ghee") 1) ]
          (world_with []))).
Proof.
  apply (cart_lines_distinct _ (world_with [])). constructor.
Defined.

Lemma distinct_one_line p cart :
  distinct_lines cart → (length (lines_of p cart) ≤ 1)%nat.
Proof.
  unfold distinct_lines, lines_of.
  induction cart as [| it rest IH]; cbn [List.filter List.map length]; [lia |].
  intros Hnd. apply NoDup_cons in Hnd as [Hit Hrest].
  case_bool_decide as Hp; [| auto].
  cbn [length].
  assert (List.filter (λ it0, bool_decide (productId it0 = p)) rest = []) as ->;
    [| cbn; lia].
  destruct (List.filter _ rest) as [| x xs] eqn:Hf; [done |].
  exfalso. apply Hit.
  assert (In x (List.filter (λ it0, bool_decide (productId it0 = p)) rest)) as Hx.
  { rewrite Hf. by left. }
  apply filter_In in Hx as [Hx Hxp]. apply bool_decide_eq_true in Hxp.
  apply list_elem_of_In, in_map_iff. exists x. split; [congruence | done].
Qed.

(** X18. [removeFromCart] answers true exactly when the cart has a line of
    the product and the storage took the write; it then leaves no line of
    that product and every line of the other products, and removing the
    product once more answers false and changes nothing.  When it answers
    false nothing has changed. *)
Theorem removeFromCart_outcome p e e' w :
  fst (removeFromCart p e w) = Ok (in_cart p (stored_cart w) && storage_writable e)
  ∧ (in_cart p (stored_cart w) && storage_writable e = false →
     snd (removeFromCart p e w) = w)
  ∧ (in_cart p (stored_cart w) && storage_writable e = true →
     lines_of p (stored_cart (snd (removeFromCart p e w))) = []
     ∧ (∀ p', p' ≠ p →
          lines_of p' (stored_cart (snd (removeFromCart p e w)))
          = lines_of p' (stored_cart w))
     ∧ removeFromCart p e' (snd (removeFromCart p e w))
       = (Ok false, snd (removeFromCart p e w))).
Proof.
  rewrite removeFromCart_run.
  destruct (in_cart p (stored_cart w) && storage_writable e);
    (split; [done |]); (split; [done |]); [| done].
  intros _. cbn [snd].
  set (w' := set_cart_slot w _).
  assert (∀ p', lines_of p' (stored_cart w')
                = if bool_decide (p' = p) then [] else lines_of p' (stored_cart w))
    as Hlines.
  { intros p'. subst w'. cbn [stored_cart set_cart_slot cart_slot default from_option id].
    apply lines_of_removed. }
  split; [| split].
  - rewrite Hlines. by rewrite bool_decide_eq_true_2.
  - intros p' Hne. rewrite Hlines. by rewrite bool_decide_eq_false_2.
  - rewrite removeFromCart_run. unfold in_cart. rewrite Hlines.
    by rewrite bool_decide_eq_true_2.
Qed.

Lemma removeFromCart_outcome_witness :
  lines_of (lit "buffalo-ghee")
    (stored_cart (snd (removeFromCart (lit "buffalo-ghee") sample_env
                         (world_with [cart_of (lit "buffalo-ghee") 2;
                                      cart_of (lit "cow-milk") 1]))))
  = [].
Proof.
  eapply proj1.
  apply (removeFromCart_outcome (lit "buffalo-ghee") sample_env sample_env
           (world_with [cart_of (lit "buffalo-ghee") 2; cart_of (lit "cow-milk") 1])).
  reflexivity.
Defined.

(** X19. In a cart with one line per product, [updateCartItem] with a
    quantity of at least one answers true exactly when the cart has the
    product and the storage took the write; the product then has exactly the
    new quantity, the lines of the other products are as they were and the
    number of lines is the same.  When it answers false nothing has
    changed. *)
Theorem updateCartItem_sets p q e w :
  1 ≤ q →
  distinct_lines (stored_cart w) →
  fst (updateCartItem p q e w) = Ok (in_cart p (stored_cart w) && storage_writable e)
  ∧ (in_cart p (stored_cart w) && storage_writable e = false →
     snd (updateCartItem p q e w) = w)
  ∧ (in_cart p (stored_cart w) && storage_writable e = true →
     quantity_of p (stored_cart (snd (updateCartItem p q e w))) = q
     ∧ (∀ p', p' ≠ p →
          lines_of p' (stored_cart (snd (updateCartItem p q e w)))
          = lines_of p' (stored_cart w))
     ∧ length (stored_cart (snd (updateCartItem p q e w))) = length (stored_cart w)).
Proof.
  intros Hq Hnd. rewrite (updateCartItem_run p q e w Hq).
  destruct (in_cart p (stored_cart w)) eqn:Hin; cbn [andb];
    [| by repeat split].
  destruct (storage_writable e); (split; [done |]); (split; [done |]); [| done].
  intros _. cbn [snd stored_cart set_cart_slot cart_slot default from_option id].
  fold (stored_cart w).
  rewrite in_cart_find in Hin.
  destruct (find_item p (stored_cart w)) as [it |] eqn:Hfind; [| done].
  destruct (find_item_some _ _ _ Hfind) as (Hit & rest & Hlines).
  split; [| split].
  - unfold quantity_of. rewrite (lines_of_set_quantity _ _ _ _ _ Hlines).
    assert (rest = []) as ->.
    { pose proof (distinct_one_line p (stored_cart w) Hnd) as Hone.
      rewrite Hlines in Hone. destruct rest; [done | cbn in Hone; lia]. }
    cbn. lia.
  - intros p' Hne. by apply lines_of_set_quantity_other.
  - apply set_quantity_length.
Qed.

Lemma updateCartItem_sets_witness :
  fst (updateCartItem (lit "buffalo-ghee") 5 sample_env
         (world_with [cart_of (lit "buffalo-ghee") 2]))
  = Ok (in_cart (lit "buffalo-ghee") [cart_of (lit "buffalo-ghee") 2]
        && storage_writable sample_env).
Proof.
  eapply proj1.
  apply (updateCartItem_sets (lit "buffalo-ghee") 5 sample_env
           (world_with [cart_of (lit "buffalo-ghee") 2])); [lia |].
  apply (bool_decide_unpack _). by vm_compute.
Defined.

Lemma set_quantity_bounded p (n : Z) cart :
  1 ≤ n ≤ 99 →
  quantities_bounded cart → quantities_bounded (set_quantity p (λ _, n) cart).
Proof.
  intros Hn. unfold quantities_bounded.
  induction cart as [| it rest IH]; cbn [set_quantity]; [done |].
  intros Hall. apply Forall_cons in Hall as [Hit Hrest].
  case_bool_decide; constructor; cbn; auto.
Qed.


(** X20. Typing into the quantity field of the cart page keeps every stored
    quantity between 1 and 99 and never adds or removes a line, whatever is
    typed. *)
Theorem quantity_field_keeps_bounds p (n : option Z) e w :
  quantities_bounded (stored_cart w) →
  quantities_bounded (stored_cart (snd (CartPage.on_change p n e w)))
  ∧ length (stored_cart (snd (CartPage.on_change p n e w))) = length (stored_cart w).
Proof.
  intros Hbounded. unfold CartPage.on_change.
  destruct n as [n |]; [| done].
  destruct ((0 <? n) && (n <=? 99)) eqn:Hn; [| done].
  apply andb_true_iff in Hn as [Hpos Hmax].
  apply Z.ltb_lt in Hpos. apply Z.leb_le in Hmax.
  unfold bind. rewrite updateCartItem_run by lia.
  destruct (_ && _); cbn [ret snd]; [| done].
  cbn [stored_cart set_cart_slot cart_slot default from_option id].
  fold (stored_cart w).
  split; [apply set_quantity_bounded; [lia | done] | apply set_quantity_length].
Qed.

Lemma quantity_field_keeps_bounds_witness :
  quantities_bounded
    (stored_cart (snd (CartPage.on_change (lit "buffalo-ghee") (Some 120) sample_env
                         (world_with [cart_of (lit "buffalo-ghee") 2])))).
Proof.
  eapply proj1.
  apply (quantity_field_keeps_bounds (lit "buffalo-ghee") (Some 120) sample_env
           (world_with [cart_of (lit "buffalo-ghee") 2])).
  repeat constructor; cbn; lia.
Defined.

Lemma on_click_run (b : CartPage.button) p e w :
  snd (CartPage.on_click b p e w)
  = if (length p =? 0)%nat then w
    else match b with
         | CartPage.BtnDecrease =>
             match find_item p (stored_cart w) with
             | Some it => snd (updateCartItem p (quantity it - 1) e w)
             | None => w
             end
         | CartPage.BtnIncrease =>
             match find_item p (stored_cart w) with
             | Some it => snd (updateCartItem p (quantity it + 1) e w)
             | None => w
             end
         | CartPage.BtnRemove => snd (removeFromCart p e w)
         end.
Proof.
  unfold CartPage.on_click. destruct (length p =? 0)%nat; [done |].
  destruct b; unfold getCart; unfold_m; cbn; fold (stored_cart w);
    try (destruct (find_item p (stored_cart w)); [| done]); cbn beta iota;
    match goal with
    | |- context [let (_, _) := ?m in _] => by destruct m as [[] ?]
    end.
Qed.



(** X22. A click on the decrease button of a product whose line holds a
    quantity of one or less removes the product from the cart, when the
    storage takes the write. *)
Theorem decrease_at_one_removes p e w (it : cart_item) :
  p ≠ [] →
  find_item p (stored_cart w) = Some it →
  quantity it ≤ 1 →
  storage_writable e = true →
  lines_of p (stored_cart (snd (CartPage.on_click CartPage.BtnDecrease p e w))) = []
  ∧ (∀ p', p' ≠ p →
       lines_of p' (stored_cart (snd (CartPage.on_click CartPage.BtnDecrease p e w)))
       = lines_of p' (stored_cart w)).
Proof.
  intros Hp Hfind Hq Hwr. rewrite on_click_run.
  destruct (length p =? 0)%nat eqn:Hlen.
  { apply Nat.eqb_eq in Hlen. by destruct p. }
  rewrite Hfind. unfold updateCartItem.
  assert ((quantity it - 1 <? 1) = true) as -> by (apply Z.ltb_lt; lia).
  rewrite removeFromCart_run, in_cart_find, Hfind, Hwr.
  cbn [andb snd stored_cart set_cart_slot cart_slot default from_option id].
  fold (stored_cart w).
  split.
  - rewrite lines_of_removed. by rewrite bool_decide_eq_true_2.
  - intros p' Hne. rewrite lines_of_removed. by rewrite bool_decide_eq_false_2.
Qed.

Lemma decrease_at_one_removes_witness :
  lines_of (lit "buffalo-ghee")
    (stored_cart (snd (CartPage.on_click CartPage.BtnDecrease (lit "buffalo-ghee")
                         sample_env (world_with [cart_of (lit "buffalo-ghee") 1]))))
  = [].
Proof.
  eapply proj1.
  apply (decrease_at_one_removes (lit "buffalo-ghee") sample_env
           (world_with [cart_of (lit "buffalo-ghee") 1])
           (cart_of (lit "buffalo-ghee") 1));
    [discriminate | reflexivity | cbn; lia | reflexivity].
Defined.

Lemma number_out_of_stock (cat : list NumberCart.product)
    (cart : list NumberCart.cart_item) :
  (length (List.filter (λ d, negb (NumberCart.inStock (NumberCart.product_of d)))
             (number_details_of cat cart)) =? 0)%nat
  = forallb (λ it, match lookup_number_product cat (NumberCart.productId it) with
                   | Some p => NumberCart.inStock p
                   | None => true
                   end) cart.
Proof.
  induction cart as [| it rest IH]; cbn [number_details_of forallb]; [done |].
  destruct (lookup_number_product cat (NumberCart.productId it)) as [p |];
    cbn [List.filter NumberCart.product_of andb]; [| exact IH].
  destruct (NumberCart.inStock p); cbn [negb andb length]; [exact IH | done].
Qed.

Lemma in_stock_on_integers (zcat : list Products.product) (zcart : list cart_item) :
  forallb (λ it, match lookup_number_product (List.map product_number zcat)
                         (NumberCart.productId it) with
                 | Some p => NumberCart.inStock p
                 | None => true
                 end) (List.map item_number zcart)
  = forallb (λ d, Products.inStock (product d)) (details_of zcat zcart).
Proof.
  induction zcart as [| it rest IH]; cbn [List.map forallb details_of]; [done |].
  cbn [item_number NumberCart.productId]. rewrite lookup_product_number.
  destruct (lookup_product zcat (productId it)) as [p |];
    cbn [option_map forallb product product_number NumberCart.inStock]; by rewrite IH.
Qed.

(** X23. With the catalog available, [validateCart] accepts a cart exactly
    when it is not empty, every line found in the catalog is in stock and
    the subtotal, as the numbers add up, is not below the minimum order
    amount; it reports no message exactly when it accepts, and a line whose
    product the catalog no longer has is not reported.  When prices and
    quantities are non-negative integers and the amounts do not exceed
    2^53 - 1, the subtotal is compared exactly. *)
Theorem validateCart_verdict (c : Config.config) (cat : list NumberCart.product)
    (stored : option (list NumberCart.cart_item)) :
  (∃ errs,
      NumberCart.validateCart c (Some cat) stored
      = Ok (number_cart_acceptable c cat (default [] stored), errs)
      ∧ (errs = [] ↔ number_cart_acceptable c cat (default [] stored) = true))
  ∧ (∀ (e : env) (zcat : list Products.product) (zcart : list cart_item),
       c = cfg e →
       cat = List.map product_number zcat →
       default [] stored = List.map item_number zcart →
       amounts_safe c zcat zcart →
       0 ≤ Config.MIN_ORDER_AMOUNT c ≤ MAX_SAFE_INTEGER →
       number_cart_acceptable c cat (default [] stored) = cart_acceptable e zcat zcart).
Proof.
  split.
  - unfold NumberCart.validateCart, number_cart_acceptable, NumberCart.getCart.
    destruct (length (default [] stored) =? 0)%nat eqn:Hempty; cbn [negb andb].
    { eexists. split; [done |]. split; discriminate. }
    rewrite number_getCartWithDetails, number_calculateTotal.
    cbn [NumberCart.totals_subtotal].
    set (s := number_subtotal cat (default [] stored)).
    set (m := Number.of_Z (Config.MIN_ORDER_AMOUNT c)).
    set (errs := if Number.lt s m then _ else _).
    assert ((length errs =? 0)%nat
            = forallb (λ it, match lookup_number_product cat (NumberCart.productId it) with
                             | Some p => NumberCart.inStock p
                             | None => true
                             end) (default [] stored)
              && negb (Number.lt s m)) as Hacc.
    { rewrite <- number_out_of_stock. subst errs.
      destruct (Number.lt s m); cbn [negb].
      - rewrite andb_false_r, length_app, length_map. cbn [length].
        apply Nat.eqb_neq. lia.
      - by rewrite andb_true_r, length_map. }
    exists errs. rewrite <- Hacc. split; [done |].
    by rewrite Nat.eqb_eq, length_zero_iff_nil.
  - intros e zcat zcart -> -> Hcart Hsafe Hmin.
    unfold number_cart_acceptable, cart_acceptable. rewrite Hcart.
    destruct (number_subtotal_exact (cfg e) zcat zcart Hsafe) as [-> Hnn].
    rewrite length_map, in_stock_on_integers. f_equal.
    destruct Hsafe as (_ & _ & Hdelivery & Htotal).
    rewrite lt_exact by (rewrite safe_bound; lia).
    rewrite Z.ltb_antisym. by rewrite negb_involutive.
Qed.

Lemma validateCart_verdict_witness :
  number_cart_acceptable Config.CONFIG (List.map product_number [ghee; milk])
    (List.map item_number [cart_of (lit "buffalo-ghee") 2])
  = cart_acceptable sample_env [ghee; milk] [cart_of (lit "buffalo-ghee") 2].
Proof.
  destruct (validateCart_verdict Config.CONFIG (List.map product_number [ghee; milk])
              (Some (List.map item_number [cart_of (lit "buffalo-ghee") 2])))
    as [_ Hexact].
  apply (Hexact sample_env [ghee; milk] [cart_of (lit "buffalo-ghee") 2]);
    [reflexivity | reflexivity | reflexivity | | unfold MAX_SAFE_INTEGER; cbn; lia].
  unfold amounts_safe, MAX_SAFE_INTEGER.
  split; [| split; [| split]]; [repeat constructor; cbn; lia.. | done | by vm_compute].
Defined.

(** With prices of 14.2, 17.9 and 17.9 the subtotal is 49.99999999999999:
    a cart whose prices add up to the minimum of 50 on paper is refused. *)
Example validateCart_rounding :
  NumberCart.validateCart Config.CONFIG
    (Some [priced (lit "a") number_14_2; priced (lit "b") number_17_9;
           priced (lit "c") number_17_9])
    (Some [one_of (lit "a"); one_of (lit "b"); one_of (lit "c")])
  = Ok (false, [Cart.BelowMinimum 50]).
Proof. by vm_compute. Qed.

(** X24. When the catalog cannot be fetched, an empty cart still has its
    totals, a subtotal of zero plus the delivery charge, and [validateCart]
    reports it as empty; with any line in the cart both [calculateTotal] and
    [validateCart] throw, and neither changes anything. *)
Theorem cart_without_catalog e w :
  catalog e = None →
  (stored_cart w = [] →
   calculateTotal e w
   = (Ok {| totals_subtotal := 0;
            totals_delivery := Config.DELIVERY_CHARGE (cfg e);
            totals_total := Config.DELIVERY_CHARGE (cfg e) |}, w)
   ∧ validateCart e w = (Ok (false, [EmptyCart]), w))
  ∧ (stored_cart w ≠ [] →
     ∃ err, calculateTotal e w = (Throw err, w)
            ∧ validateCart e w = (Throw err, w)).
Proof.
  intros Hcat.
  assert (∀ it rest, stored_cart w = it :: rest →
            getCartWithDetails e w = (Throw (VStr (lit "HTTP error")), w)) as Hthrow.
  { intros it rest Hcart. unfold getCartWithDetails, getCart. unfold_m.
    fold (stored_cart w). rewrite Hcart. cbn [details_loop].
    unfold getProductById, fetchProducts. unfold_m. by rewrite Hcat. }
  split.
  - intros Hcart. unfold validateCart, calculateTotal, calculateSubtotal,
      getCartWithDetails, getCart.
    unfold_m. fold (stored_cart w). rewrite Hcart. cbn.
    by rewrite calculateDeliveryCharge_flat.
  - intros Hcart. destruct (stored_cart w) as [| it rest] eqn:Hw; [done |].
    exists (VStr (lit "HTTP error")).
    unfold validateCart, calculateTotal, calculateSubtotal.
    unfold bind at 1. unfold bind at 1. rewrite (Hthrow it rest eq_refl).
    split; [done |].
    unfold getCart. unfold bind at 1. unfold bind at 1.
    unfold read_cart_slot, ret at 1. fold (stored_cart w). rewrite Hw.
    cbn [length Nat.eqb]. unfold bind at 1. by rewrite (Hthrow it rest eq_refl).
Qed.

Lemma cart_without_catalog_witness :
  ∃ err,
    calculateTotal (without_catalog sample_env)
      (world_with [cart_of (lit "buffalo-ghee") 2])
    = (Throw err, world_with [cart_of (lit "buffalo-ghee") 2])
    ∧ validateCart (without_catalog sample_env)
        (world_with [cart_of (lit "buffalo-ghee") 2])
      = (Throw err, world_with [cart_of (lit "buffalo-ghee") 2]).
Proof.
  apply (cart_without_catalog (without_catalog sample_env)
           (world_with [cart_of (lit "buffalo-ghee") 2])); [reflexivity | discriminate].
Defined.

End CartMore.

(** ** The helpers of utils.js *)

Section UtilsMore.
Import Regex.

Implicit Types (r : regex) (s : jsstring) (c : N).

Lemma nullable_matches r : nullable r = true ↔ matches r [].
Proof.
  split.
  - induction r; cbn [nullable]; intros Hn; try discriminate.
    + constructor.
    + apply andb_true_iff in Hn as [H1 H2].
      apply (MSeq _ _ [] []); auto.
    + apply orb_true_iff in Hn as [H1 | H2]; [apply MAltL | apply MAltR]; auto.
    + constructor.
  - intros Hm. remember [] as s eqn:Hs.
    induction Hm; cbn [nullable]; try done.
    + apply app_eq_nil in Hs as [-> ->]. by rewrite IHHm1, IHHm2.
    + by rewrite IHHm.
    + rewrite IHHm by done. apply orb_true_r.
Qed.

Lemma matches_star_cons r c s :
  matches (Star r) (c :: s) →
  ∃ s1 s2, s = s1 ++ s2 ∧ matches r (c :: s1) ∧ matches (Star r) s2.
Proof.
  intros Hm. remember (Star r) as r' eqn:Hr. remember (c :: s) as t eqn:Ht.
  induction Hm; try discriminate.
  injection Hr as ->.
  destruct s1 as [| c' s1'].
  - cbn in Ht. auto.
  - cbn in Ht. injection Ht as -> <-. eauto.
Qed.

Lemma deriv_matches c r s : matches (deriv c r) s ↔ matches r (c :: s).
Proof.
  revert s. induction r as [| | p | r1 IH1 r2 IH2 | r1 IH1 r2 IH2 | r IH];
    intros s; cbn [deriv].
  - split; intros Hm; inversion Hm.
  - split; intros Hm; inversion Hm.
  - destruct (p c) eqn:Hp; split; intros Hm; inversion Hm; subst.
    + by constructor.
    + constructor.
    + congruence.
  - split.
    + intros Hm. destruct (nullable r1) eqn:Hn.
      * inversion Hm as [| | | ? ? ? Hl | ? ? ? Hr | |]; subst.
        -- inversion Hl as [| | ? ? s1 s2 H1 H2 | | | |]; subst.
           apply IH1 in H1. apply (MSeq _ _ (c :: s1) s2); done.
        -- apply IH2 in Hr. apply nullable_matches in Hn.
           apply (MSeq _ _ [] (c :: s)); done.
      * inversion Hm as [| | ? ? s1 s2 H1 H2 | | | |]; subst.
        apply IH1 in H1. apply (MSeq _ _ (c :: s1) s2); done.
    + intros Hm. inversion Hm as [| | ? ? s1 s2 H1 H2 Hr Hs | | | |]; subst.
      destruct s1 as [| c' s1'].
      * cbn in Hs. subst s2. apply nullable_matches in H1. rewrite H1.
        apply MAltR. by apply IH2.
      * cbn in Hs. injection Hs as -> <-. apply IH1 in H1.
        destruct (nullable r1); [apply MAltL |]; by constructor.
  - split; intros Hm; inversion Hm; subst.
    + apply MAltL. by apply IH1.
    + apply MAltR. by apply IH2.
    + apply MAltL. by apply IH1.
    + apply MAltR. by apply IH2.
  - split.
    + intros Hm. inversion Hm as [| | ? ? s1 s2 H1 H2 | | | |]; subst.
      apply IH in H1. apply (MStarApp _ (c :: s1) s2); done.
    + intros Hm. apply matches_star_cons in Hm as (s1 & s2 & -> & H1 & H2).
      constructor; [by apply IH | done].
Qed.

(** The matcher decides the denotation. *)
Lemma test_matches r s : test r s = true ↔ matches r s.
Proof.
  revert r. induction s as [| c s IH]; intros r; cbn [test].
  - apply nullable_matches.
  - rewrite IH. apply deriv_matches.
Qed.

Lemma matches_seq r1 r2 s :
  matches (Seq r1 r2) s ↔ ∃ s1 s2, s = s1 ++ s2 ∧ matches r1 s1 ∧ matches r2 s2.
Proof.
  split.
  - intros Hm. inversion Hm; subst. eauto.
  - intros (s1 & s2 & -> & H1 & H2). by constructor.
Qed.

Lemma matches_alt r1 r2 s : matches (Alt r1 r2) s ↔ matches r1 s ∨ matches r2 s.
Proof.
  split.
  - intros Hm. inversion Hm; subst; auto.
  - intros [H | H]; [by apply MAltL | by apply MAltR].
Qed.

Lemma matches_eps s : matches Eps s ↔ s = [].
Proof. split; [intros Hm; by inversion Hm | intros ->; constructor]. Qed.

Lemma matches_class (p : N → bool) s :
  matches (Class p) s ↔ ∃ c, s = [c] ∧ p c = true.
Proof.
  split.
  - intros Hm. inversion Hm; subst. eauto.
  - intros (c & -> & Hp). by constructor.
Qed.

Lemma matches_str (t : jsstring) s : matches (Str t) s ↔ s = t.
Proof.
  revert s. induction t as [| c t IH]; intros s; cbn [Str].
  - apply matches_eps.
  - rewrite matches_seq. split.
    + intros (s1 & s2 & -> & H1 & H2). apply matches_class in H1 as (c' & -> & Hc).
      apply N.eqb_eq in Hc as ->. apply IH in H2 as ->. done.
    + intros ->. exists [c], t. split; [done |]. split; [| by apply IH].
      apply matches_class. exists c. split; [done | apply N.eqb_refl].
Qed.

Lemma matches_times (n : nat) (p : N → bool) s :
  matches (Times n (Class p)) s ↔ length s = n ∧ forallb p s = true.
Proof.
  revert s. induction n as [| n IH]; intros s; cbn [Times].
  - rewrite matches_eps. split; [by intros -> | intros [Hl _]; by destruct s].
  - rewrite matches_seq. split.
    + intros (s1 & s2 & -> & H1 & H2). apply matches_class in H1 as (c & -> & Hc).
      apply IH in H2 as [Hl Hp]. cbn. by rewrite Hl, Hc, Hp.
    + intros [Hl Hp]. destruct s as [| c s]; [done |].
      cbn in Hl, Hp. apply andb_true_iff in Hp as [Hc Hp].
      exists [c], s. split; [done |]. split.
      * apply matches_class. eauto.
      * apply IH. split; [lia | done].
Qed.

Lemma matches_star_class (p : N → bool) s :
  matches (Star (Class p)) s ↔ forallb p s = true.
Proof.
  split.
  - intros Hm. remember (Star (Class p)) as r eqn:Hr.
    induction Hm; try discriminate; [done |].
    injection Hr as ->. apply matches_class in Hm1 as (c & -> & Hc).
    cbn. rewrite Hc. by apply IHHm2.
  - induction s as [| c s IH]; cbn [forallb]; [constructor |].
    intros Hp. apply andb_true_iff in Hp as [Hc Hp].
    apply (MStarApp _ [c] s); [by constructor | auto].
Qed.

Lemma matches_plus_class (p : N → bool) s :
  matches (Plus (Class p)) s ↔ s ≠ [] ∧ forallb p s = true.
Proof.
  unfold Plus. rewrite matches_seq. split.
  - intros (s1 & s2 & -> & H1 & H2). apply matches_class in H1 as (c & -> & Hc).
    apply matches_star_class in H2. cbn. by rewrite Hc, H2.
  - intros [Hne Hp]. destruct s as [| c s]; [done |].
    cbn in Hp. apply andb_true_iff in Hp as [Hc Hp].
    exists [c], s. split; [done |]. split.
    + apply matches_class. eauto.
    + by apply matches_star_class.
Qed.

Lemma address_part_matches s :
  matches (Plus (Class Config.not_space_or_at)) s ↔ address_part s = true.
Proof.
  rewrite matches_plus_class. unfold address_part.
  rewrite andb_true_iff, negb_true_iff, Nat.eqb_neq, length_zero_iff_nil. done.
Qed.

Lemma mobile_number_matches s :
  matches (Seq (Class (λ c, (54 <=? c) && (c <=? 57))%N)
               (Times 9 (Class Config.digit))) s
  ↔ mobile_number s = true.
Proof.
  rewrite matches_seq. unfold mobile_number. split.
  - intros (s1 & s2 & -> & H1 & H2). apply matches_class in H1 as (c & -> & Hc).
    apply matches_times in H2 as [Hl Hp]. cbn [app].
    rewrite Hc, Hp, Hl. done.
  - destruct s as [| c rest]; [done |].
    rewrite !andb_true_iff, Nat.eqb_eq. intros [[Hc Hp] Hl].
    exists [c], rest. split; [done |]. split.
    + apply matches_class. exists c. split; [done |]. by apply andb_true_iff.
    + by apply matches_times.
Qed.

Lemma validatePhone_cases s :
  Utils.validatePhone (Some s) = true
  ↔ ∃ number, mobile_number number = true
              ∧ (s = number ∨ s = lit "+91" ++ number ∨ s = lit "91" ++ number).
Proof.
  unfold Utils.validatePhone, Utils.to_text, Config.PHONE_REGEX, Opt.
  rewrite test_matches, matches_seq. split.
  - intros (s1 & s2 & -> & H1 & H2). apply mobile_number_matches in H2.
    exists s2. split; [done |].
    rewrite !matches_alt, !matches_str, matches_eps in H1.
    destruct H1 as [[-> | ->] | ->]; auto.
  - intros (number & Hn & Hs). apply mobile_number_matches in Hn.
    destruct Hs as [-> | [-> | ->]].
    + exists [], number. split; [done |]. split; [| done].
      rewrite !matches_alt, matches_eps. auto.
    + exists (lit "+91"), number. split; [done |]. split; [| done].
      rewrite !matches_alt, !matches_str. auto.
    + exists (lit "91"), number. split; [done |]. split; [| done].
      rewrite !matches_alt, !matches_str. auto.
Qed.

(** X25. [validatePhone] accepts exactly a ten-digit mobile number, a first
    digit from 6 to 9 followed by nine digits, written alone or after +91
    or 91; a missing value is refused. *)
Theorem validatePhone_accepts s :
  (Utils.validatePhone (Some s) = true
   ↔ ∃ number, mobile_number number = true
               ∧ (s = number ∨ s = lit "+91" ++ number ∨ s = lit "91" ++ number))
  ∧ Utils.validatePhone None = false.
Proof. split; [apply validatePhone_cases | by vm_compute]. Qed.

Lemma validatePhone_accepts_witness :
  Utils.validatePhone (Some (lit "+919876543210")) = true.
Proof.
  apply (validatePhone_accepts (lit "+919876543210")).
  exists (lit "9876543210"). split; [by vm_compute | right; left; by vm_compute].
Defined.

(** X26. [validateEmail] accepts exactly the texts made of three stretches
    joined by an at sign and a dot, each stretch non-empty and free of white
    space and of at signs. *)
Theorem validateEmail_accepts s :
  Utils.validateEmail (Some s) = true
  ↔ ∃ name host suffix,
      s = name ++ ch "@" :: host ++ ch "." :: suffix
      ∧ address_part name = true ∧ address_part host = true
      ∧ address_part suffix = true.
Proof.
  unfold Utils.validateEmail, Utils.to_text, Config.EMAIL_REGEX.
  rewrite test_matches, matches_seq. unfold Chr. split.
  - intros (name & s1 & -> & Hname & H1).
    apply matches_seq in H1 as (at' & s2 & -> & Hat & H2).
    apply matches_seq in H2 as (host & s3 & -> & Hhost & H3).
    apply matches_seq in H3 as (dot & suffix & -> & Hdot & Hsuffix).
    apply matches_class in Hat as (c1 & -> & Hc1).
    apply matches_class in Hdot as (c2 & -> & Hc2).
    apply N.eqb_eq in Hc1 as <-. apply N.eqb_eq in Hc2 as <-.
    apply address_part_matches in Hname, Hhost, Hsuffix.
    exists name, host, suffix. done.
  - intros (name & host & suffix & -> & Hname & Hhost & Hsuffix).
    apply address_part_matches in Hname, Hhost, Hsuffix.
    exists name, (ch "@" :: host ++ ch "." :: suffix). split; [done |].
    split; [done |].
    apply matches_seq. exists [ch "@"], (host ++ ch "." :: suffix).
    split; [done |]. split; [apply matches_class; eexists; split; [done | apply N.eqb_refl] |].
    apply matches_seq. exists host, (ch "." :: suffix).
    split; [done |]. split; [done |].
    apply matches_seq. exists [ch "."], suffix.
    split; [done |]. split; [apply matches_class; eexists; split; [done | apply N.eqb_refl] | done].
Qed.

Lemma validateEmail_accepts_witness :
  Utils.validateEmail (Some (lit "user@example.com")) = true.
Proof.
  apply (validateEmail_accepts (lit "user@example.com")).
  exists (lit "user"), (lit "example"), (lit "com").
  split; [by vm_compute |]. repeat split; by vm_compute.
Defined.

Lemma drop_digits (s : jsstring) :
  Utils.replace_class (λ c, negb (Config.digit c)) (λ _, []) s
  = List.filter Config.digit s.
Proof.
  induction s as [| c rest IH]; cbn [Utils.replace_class List.filter]; [done |].
  destruct (Config.digit c); cbn [negb app]; by rewrite IH.
Qed.

Lemma filter_all {A} (p : A → bool) (l : list A) :
  forallb p l = true → List.filter p l = l.
Proof.
  induction l as [| x l IH]; cbn [forallb List.filter]; [done |].
  intros H. apply andb_true_iff in H as [Hx Hl]. by rewrite Hx, IH.
Qed.

Lemma mobile_number_digits s :
  mobile_number s = true → length s = 10%nat ∧ forallb Config.digit s = true.
Proof.
  destruct s as [| c rest]; [done |]. cbn [mobile_number length forallb].
  rewrite !andb_true_iff, Nat.eqb_eq. intros [[[Hlo Hhi] Hrest] Hlen].
  split; [lia |]. split; [| done].
  unfold Config.digit. apply andb_true_iff.
  apply N.leb_le in Hlo. split; [apply N.leb_le; lia | done].
Qed.

(** X27. For a phone number that [validatePhone] accepts, the last ten
    characters are the mobile number, and [formatPhoneNumber] lays out
    exactly those ten digits, in two groups of five after +91, whichever way
    the number was written. *)
Theorem formatPhoneNumber_of_valid s :
  Utils.validatePhone (Some s) = true →
  mobile_number (drop (length s - 10) s) = true
  ∧ Utils.formatPhoneNumber s
    = lit "+91 " ++ take 5 (drop (length s - 10) s) ++ lit " "
      ++ drop 5 (drop (length s - 10) s).
Proof.
  intros Hvalid. apply validatePhone_cases in Hvalid as (number & Hn & Hs).
  destruct (mobile_number_digits _ Hn) as [Hlen Hdigits].
  assert (∃ prefix, s = prefix ++ number
                    ∧ List.filter Config.digit prefix ++ number
                      = List.filter Config.digit s) as (prefix & -> & Hfilter).
  { destruct Hs as [-> | [-> | ->]].
    - exists []. split; [done |]. cbn [app List.filter]. by rewrite filter_all.
    - exists (lit "+91"). split; [done |].
      rewrite List.filter_app. by rewrite (filter_all _ number).
    - exists (lit "91"). split; [done |].
      rewrite List.filter_app. by rewrite (filter_all _ number). }
  assert (drop (length (prefix ++ number) - 10) (prefix ++ number) = number) as ->.
  { rewrite length_app, Hlen.
    replace (length prefix + 10 - 10)%nat with (length prefix) by lia.
    by rewrite drop_app_length. }
  split; [done |].
  unfold Utils.formatPhoneNumber. rewrite drop_digits, <- Hfilter.
  rewrite length_app, Hlen.
  replace (length (List.filter Config.digit prefix) + 10 - 10)%nat
    with (length (List.filter Config.digit prefix)) by lia.
  by rewrite drop_app_length.
Qed.

Lemma formatPhoneNumber_of_valid_witness :
  Utils.formatPhoneNumber (lit "+919876543210")
  = lit "+91 " ++ take 5 (drop (length (lit "+919876543210") - 10) (lit "+919876543210"))
    ++ lit " " ++ drop 5 (drop (length (lit "+919876543210") - 10) (lit "+919876543210")).
Proof.
  eapply proj2.
  apply (formatPhoneNumber_of_valid (lit "+919876543210")).
  by vm_compute.
Defined.

Lemma below_forallb (P : N → bool) (b : N) :
  forallb P (List.map N.of_nat (seq 0 (N.to_nat b))) = true →
  ∀ n, (n < b)%N → P n = true.
Proof.
  intros Hall n Hn. rewrite forallb_forall in Hall. apply Hall.
  apply in_map_iff. exists (N.to_nat n). split; [apply N2Nat.id |].
  apply in_seq. lia.
Qed.

Lemma padded_digits (width : nat) (b : N) :
  forallb (λ n, (length (Utils.padStart width (ch "0") (Utils.decimal n)) =? width)%nat
                && forallb Config.digit (Utils.padStart width (ch "0") (Utils.decimal n)))
    (List.map N.of_nat (seq 0 (N.to_nat b))) = true →
  ∀ n, (n < b)%N →
    length (Utils.padStart width (ch "0") (Utils.decimal n)) = width
    ∧ forallb Config.digit (Utils.padStart width (ch "0") (Utils.decimal n)) = true.
Proof.
  intros Hall n Hn. apply (below_forallb _ _ Hall) in Hn.
  apply andb_true_iff in Hn as [Hl Hd]. by apply Nat.eqb_eq in Hl.
Qed.

Lemma year_digits (year : N) :
  (1000 ≤ year ≤ 9999)%N →
  length (Utils.decimal year) = 4%nat
  ∧ forallb Config.digit (Utils.decimal year) = true.
Proof.
  intros Hyear.
  assert (forallb (λ n, (n <? 1000)%N
                        || (length (Utils.decimal n) =? 4)%nat
                           && forallb Config.digit (Utils.decimal n))
            (List.map N.of_nat (seq 0 (N.to_nat 10000))) = true) as Hall
    by (vm_compute; reflexivity).
  assert (year < 10000)%N as Hy by lia.
  apply (below_forallb _ _ Hall) in Hy. clear Hall.
  apply orb_true_iff in Hy as [Hlt | Hy]; [apply N.ltb_lt in Hlt; lia |].
  apply andb_true_iff in Hy as [Hl Hd]. by apply Nat.eqb_eq in Hl.
Qed.

(** X28. For a date between the years 1000 and 9999, [generateOrderId]
    gives sixteen characters: ORD, a dash, eight digits for the date, a dash
    and three digits for the draw. *)
Theorem generateOrderId_shape (year month0 day random : N) :
  (1000 ≤ year ≤ 9999)%N → (month0 ≤ 11)%N → (day ≤ 31)%N → (random ≤ 999)%N →
  ∃ date serial,
    Utils.generateOrderId year month0 day random
    = lit "ORD-" ++ date ++ lit "-" ++ serial
    ∧ length date = 8%nat ∧ length serial = 3%nat
    ∧ forallb Config.digit date = true ∧ forallb Config.digit serial = true.
Proof.
  intros Hyear Hmonth Hday Hrandom.
  destruct (year_digits year Hyear) as [Hylen Hydigits].
  assert (month0 + 1 < 13)%N as Hm by lia.
  apply (padded_digits 2 13) in Hm as [Hmlen Hmdigits]; [| vm_compute; reflexivity].
  assert (day < 32)%N as Hd by lia.
  apply (padded_digits 2 32) in Hd as [Hdlen Hddigits]; [| vm_compute; reflexivity].
  assert (random < 1000)%N as Hr by lia.
  apply (padded_digits 3 1000) in Hr as [Hrlen Hrdigits]; [| vm_compute; reflexivity].
  unfold Utils.generateOrderId.
  exists (Utils.decimal year
          ++ Utils.padStart 2 (ch "0") (Utils.decimal (month0 + 1))
          ++ Utils.padStart 2 (ch "0") (Utils.decimal day)),
         (Utils.padStart 3 (ch "0") (Utils.decimal random)).
  split; [by rewrite <- !app_assoc |].
  rewrite !length_app, !forallb_app, Hylen, Hmlen, Hdlen, Hydigits, Hmdigits, Hddigits.
  done.
Qed.

Lemma generateOrderId_shape_witness :
  ∃ date serial,
    Utils.generateOrderId 2026 1 12 1 = lit "ORD-" ++ date ++ lit "-" ++ serial
    ∧ length date = 8%nat ∧ length serial = 3%nat
    ∧ forallb Config.digit date = true ∧ forallb Config.digit serial = true.
Proof.
  apply (generateOrderId_shape 2026 1 12 1); lia.
Defined.

Lemma entity_starts_with_ampersand c :
  Utils.special c = true →
  ∃ rest, Utils.entity Utils.entity_map c = ch "&" :: rest ∧ (3 ≤ length rest)%nat.
Proof.
  unfold Utils.special. cbn [existsb]. rewrite !orb_true_iff.
  intros H.
  repeat match goal with
         | H : _ ∨ _ |- _ => destruct H as [H | H]
         end; try discriminate;
    apply N.eqb_eq in H; subst c; eexists; (split; [by vm_compute | cbn [length]; lia]).
Qed.

Lemma sanitized_length s :
  (length s ≤ length (Utils.sanitizeInput (VStr s)))%nat
  ∧ (existsb Utils.special s = true →
     (length s < length (Utils.sanitizeInput (VStr s)))%nat
     ∧ existsb Utils.special (Utils.sanitizeInput (VStr s)) = true).
Proof.
  cbn [Utils.sanitizeInput].
  induction s as [| c rest [IHle IHlt]]; cbn [Utils.replace_class existsb length].
  - split; [lia | done].
  - destruct (Utils.special c) eqn:Hc.
    + destruct (entity_starts_with_ampersand c Hc) as (tail & -> & Htail).
      rewrite length_app. cbn [app length existsb].
      change (Utils.special (ch "&")) with true. cbn [orb].
      split; [lia |]. intros _. split; [lia | done].
    + cbn [app length existsb]. rewrite Hc. cbn [orb].
      split; [lia |]. intros Hrest. destruct (IHlt Hrest). split; [lia | done].
Qed.

Lemma sanitized_plain s :
  existsb Utils.special s = false → Utils.sanitizeInput (VStr s) = s.
Proof.
  cbn [Utils.sanitizeInput].
  induction s as [| c rest IH]; cbn [Utils.replace_class existsb]; [done |].
  intros H. apply orb_false_iff in H as [Hc Hrest]. rewrite Hc. cbn [app].
  by rewrite IH.
Qed.

(** X29. [sanitizeInput] never shortens a text; it returns the text as it is
    exactly when the text has none of the six characters it escapes, and a
    text it has changed is changed again by a second pass: escaping is not
    idempotent. *)
Theorem sanitizeInput_fixed_points s :
  (length s ≤ length (Utils.sanitizeInput (VStr s)))%nat
  ∧ (Utils.sanitizeInput (VStr s) = s ↔ existsb Utils.special s = false)
  ∧ (Utils.sanitizeInput (VStr s) ≠ s →
     Utils.sanitizeInput (VStr (Utils.sanitizeInput (VStr s)))
     ≠ Utils.sanitizeInput (VStr s)).
Proof.
  assert (∀ t, Utils.sanitizeInput (VStr t) = t ↔ existsb Utils.special t = false)
    as Hfixed.
  { intros t. split; [| apply sanitized_plain].
    intros Heq. destruct (existsb Utils.special t) eqn:Hex; [| done].
    destruct (sanitized_length t) as [_ Hlt]. destruct (Hlt Hex) as [Hlen _].
    rewrite Heq in Hlen. lia. }
  split; [apply sanitized_length |]. split; [apply Hfixed |].
  intros Hchanged Hsame. apply Hfixed in Hsame.
  destruct (existsb Utils.special s) eqn:Hex.
  - destruct (sanitized_length s) as [_ Hlt]. destruct (Hlt Hex) as [_ Hamp].
    congruence.
  - by apply Hchanged, sanitized_plain.
Qed.

Lemma sanitizeInput_fixed_points_witness :
  Utils.sanitizeInput (VStr (Utils.sanitizeInput (VStr (lit "a&b"))))
  ≠ Utils.sanitizeInput (VStr (lit "a&b")).
Proof.
  apply (sanitizeInput_fixed_points (lit "a&b")). by vm_compute.
Defined.

End UtilsMore.

(** ** The catalog page: sorting and filtering *)

Section CatalogMore.
Import ProductsJs.

Context {A : Type} (key : A → Z).

Lemma insert_sorted_perm (compare : A → A → Z) (x : A) (l : list A) :
  Permutation (insert_sorted compare x l) (x :: l).
Proof.
  induction l as [| y rest IH]; cbn [insert_sorted]; [done |].
  destruct (compare x y <=? 0); [done |].
  rewrite IH. apply perm_swap.
Qed.

Lemma array_sort_perm (compare : A → A → Z) (l : list A) :
  Permutation (array_sort compare l) l.
Proof.
  unfold array_sort. induction l as [| x rest IH]; cbn [foldr]; [done |].
  rewrite insert_sorted_perm. by constructor.
Qed.

Lemma array_sort_ext (compare compare' : A → A → Z) (l : list A) :
  (∀ a b, compare a b = compare' a b) →
  array_sort compare l = array_sort compare' l.
Proof.
  intros Hext. unfold array_sort.
  induction l as [| x rest IH]; cbn [foldr]; [done |].
  rewrite IH. generalize (foldr (insert_sorted compare') [] rest) as k. intros k.
  induction k as [| y k IHk]; cbn [insert_sorted]; [done |].
  by rewrite Hext, IHk.
Qed.

Lemma insert_sorted_ascending (x : A) (l : list A) :
  StronglySorted Z.le (List.map key l) →
  StronglySorted Z.le (List.map key (insert_sorted (λ a b, key a - key b) x l)).
Proof.
  induction l as [| y rest IH]; cbn [insert_sorted List.map]; intros Hs.
  - repeat constructor.
  - apply StronglySorted_inv in Hs as [Hrest Hy].
    destruct (key x - key y <=? 0) eqn:Hle; cbn [List.map].
    + apply Z.leb_le in Hle. constructor; [by constructor |].
      constructor; [lia |].
      eapply Forall_impl; [exact Hy |]. cbn. intros z Hz. lia.
    + apply Z.leb_gt in Hle. constructor; [by apply IH |].
      rewrite (Permutation_map key (insert_sorted_perm _ x rest)). cbn [List.map].
      constructor; [lia | done].
Qed.

Lemma array_sort_ascending (l : list A) :
  StronglySorted Z.le (List.map key (array_sort (λ a b, key a - key b) l)).
Proof.
  unfold array_sort. induction l as [| x rest IH]; cbn [foldr List.map].
  - constructor.
  - by apply insert_sorted_ascending.
Qed.

Lemma insert_sorted_stable (x : A) (l : list A) (k : Z) :
  List.filter (λ a, key a =? k) (insert_sorted (λ a b, key a - key b) x l)
  = List.filter (λ a, key a =? k) (x :: l).
Proof.
  induction l as [| y rest IH]; cbn [insert_sorted]; [done |].
  destruct (key x - key y <=? 0) eqn:Hle; [done |].
  apply Z.leb_gt in Hle.
  cbn [List.filter] in IH |- *. rewrite IH.
  destruct (key x =? k) eqn:Hx; [| done].
  apply Z.eqb_eq in Hx.
  assert ((key y =? k) = false) as -> by (apply Z.eqb_neq; lia).
  done.
Qed.

Lemma array_sort_stable (l : list A) (k : Z) :
  List.filter (λ a, key a =? k) (array_sort (λ a b, key a - key b) l)
  = List.filter (λ a, key a =? k) l.
Proof.
  unfold array_sort. induction l as [| x rest IH]; cbn [foldr]; [done |].
  rewrite insert_sorted_stable. cbn [List.filter]. by rewrite IH.
Qed.

Lemma descending_of_negated (l : list A) :
  StronglySorted Z.le (List.map (λ a, - key a) l) →
  StronglySorted Z.ge (List.map key l).
Proof.
  induction l as [| x l IH]; cbn [List.map]; intros Hs; [constructor |].
  apply StronglySorted_inv in Hs as [Hl Hx]. constructor; [auto |].
  rewrite Forall_forall in Hx |- *. intros z Hz.
  apply list_elem_of_In, in_map_iff in Hz as (y & <- & Hy).
  assert (- key x ≤ - key y); [| lia].
  apply Hx, list_elem_of_In, in_map_iff. eauto.
Qed.

End CatalogMore.

Section CatalogPage.
Import ProductsJs.

(** X30. [sortProducts] returns the same products in some order, whatever
    the key, and the products as given for a key it does not know.  By
    price, lowest first, the prices ascend and products of the same price
    keep the order they had; highest first, the prices descend and products
    of the same price keep their order as well.  [filterByStock] keeps the
    products in stock, in their order, and applying it twice changes nothing
    more. *)
Theorem sortProducts_orders (localeCompare : jsstring → jsstring → Z)
    (products : list Products.product) :
  (∀ sortBy, Permutation (sortProducts localeCompare products sortBy) products)
  ∧ (∀ sortBy,
       sortBy ∉ [lit "name"; lit "price-low"; lit "price-high"] →
       sortProducts localeCompare products sortBy = products)
  ∧ StronglySorted Z.le
      (List.map Products.price (sortProducts localeCompare products (lit "price-low")))
  ∧ StronglySorted Z.ge
      (List.map Products.price (sortProducts localeCompare products (lit "price-high")))
  ∧ (∀ k sortBy,
       sortBy ∈ [lit "price-low"; lit "price-high"] →
       List.filter (λ p, Products.price p =? k)
         (sortProducts localeCompare products sortBy)
       = List.filter (λ p, Products.price p =? k) products)
  ∧ (∀ sortBy,
       filterByStock (filterByStock (sortProducts localeCompare products sortBy) true)
         true
       = filterByStock (sortProducts localeCompare products sortBy) true
       ∧ Forall (λ p, Products.inStock p = true)
           (filterByStock (sortProducts localeCompare products sortBy) true)).
Proof.
  assert (sortProducts localeCompare products (lit "price-low")
          = array_sort (λ a b, Products.price a - Products.price b) products) as Hlow.
  { unfold sortProducts. rewrite bool_decide_eq_false_2 by discriminate.
    by rewrite bool_decide_eq_true_2. }
  assert (sortProducts localeCompare products (lit "price-high")
          = array_sort (λ a b, (- Products.price a) - (- Products.price b)) products)
    as Hhigh.
  { unfold sortProducts. rewrite bool_decide_eq_false_2 by discriminate.
    rewrite bool_decide_eq_false_2 by discriminate.
    rewrite bool_decide_eq_true_2 by done.
    apply array_sort_ext. intros a b. lia. }
  split; [| split; [| split; [| split; [| split]]]].
  - intros sortBy. unfold sortProducts.
    repeat case_bool_decide; try apply array_sort_perm; done.
  - intros sortBy Hout. unfold sortProducts.
    repeat case_bool_decide; try done; subst sortBy; exfalso; apply Hout;
      repeat (apply elem_of_cons; (by left) || right).
  - rewrite Hlow. apply (array_sort_ascending Products.price).
  - rewrite Hhigh.
    apply descending_of_negated, (array_sort_ascending (λ p, - Products.price p)).
  - intros k sortBy Hin.
    apply elem_of_cons in Hin as [-> | Hin];
      [| apply elem_of_cons in Hin as [-> | Hin]; [| by apply elem_of_nil in Hin]].
    + rewrite Hlow. apply (array_sort_stable Products.price).
    + rewrite Hhigh.
      pose proof (array_sort_stable (λ p, - Products.price p) products (- k)) as Hst.
      assert (∀ l : list Products.product,
                List.filter (λ a, - Products.price a =? - k) l
                = List.filter (λ p, Products.price p =? k) l) as Hsame.
      { intros l. apply filter_ext. intros p.
        destruct (Products.price p =? k) eqn:Hp.
        - apply Z.eqb_eq in Hp. apply Z.eqb_eq. lia.
        - apply Z.eqb_neq in Hp. apply Z.eqb_neq. lia. }
      by rewrite !Hsame in Hst.
  - intros sortBy. unfold filterByStock. cbn [negb].
    generalize (sortProducts localeCompare products sortBy) as l. intros l. split.
    + induction l as [| p l IH]; cbn [List.filter]; [done |].
      destruct (Products.inStock p) eqn:Hp; cbn [List.filter]; [| done].
      by rewrite Hp, IH.
    + apply Forall_forall. intros p Hp.
      by apply list_elem_of_In, filter_In in Hp as [_ Hp].
Qed.

Lemma sortProducts_orders_witness :
  sortProducts (λ _ _, 0) [ghee; milk] (lit "newest") = [ghee; milk].
Proof.
  apply (sortProducts_orders (λ _ _, 0) [ghee; milk]).
  apply (bool_decide_unpack _). by vm_compute.
Defined.

End CatalogPage.
